(** * The markdown/frontmatter micro-language of AI-Chat-Generator

    A shallow embedding of the text-processing functions of the repository
    (frontmatter encoder and decoder, body segmenters, block renderers,
    checklist toggle, filename predicate, frontmatter update tool) and the
    properties the specification states about them.

    JavaScript strings are sequences of UTF-16 code units; a string is
    modelled as a [list N], one number per code unit.  Regular expressions
    of the source are translated into recursive matchers, each quoted next to
    the definition that embeds it. *)

From Stdlib Require Import String Ascii Decimal.
From stdpp Require Import base list gmap.

Local Open Scope N_scope.
Local Set Warnings "-register-all".

(** ** JavaScript strings *)

(** [js] reads an ASCII literal; the two-character escapes [\n], [\t],
    [\q] (double quote) and [\\] stand for the corresponding code units. *)
Fixpoint js (s : string) : list N :=
  match s with
  | EmptyString => []
  | String a s' =>
      if Ascii.eqb a "\"%char then
        match s' with
        | String b s'' =>
            (if Ascii.eqb b "n"%char then 10
             else if Ascii.eqb b "t"%char then 9
             else if Ascii.eqb b "q"%char then 34
             else N_of_ascii b) :: js s''
        | EmptyString => [92]
        end
      else N_of_ascii a :: js s'
  end.

Global Arguments js : simpl never.


Definition LF : N := 10.
Definition DQUOTE : N := 34.
Definition BACKSLASH : N := 92.

(** ECMAScript LineTerminator: LF, CR, LS, PS. *)
Definition isLineTerminator (c : N) : bool :=
  (c =? 10) || (c =? 13) || (c =? 0x2028) || (c =? 0x2029).

(** ECMAScript WhiteSpace and LineTerminator, the set stripped by
    [String.prototype.trim] and matched by [\s]. *)
Definition isSpace (c : N) : bool :=
  (c =? 9) || (c =? 10) || (c =? 11) || (c =? 12) || (c =? 13) || (c =? 32)
  || (c =? 0xA0) || (c =? 0x1680) || ((0x2000 <=? c) && (c <=? 0x200A))
  || (c =? 0x2028) || (c =? 0x2029) || (c =? 0x202F) || (c =? 0x205F)
  || (c =? 0x3000) || (c =? 0xFEFF).

(** [\d] *)
Definition isDigit (c : N) : bool := (48 <=? c) && (c <=? 57).

(** [\w] : [A-Za-z0-9_] *)
Definition isWord (c : N) : bool :=
  ((65 <=? c) && (c <=? 90)) || ((97 <=? c) && (c <=? 122)) || isDigit c || (c =? 95).

(** [.] without the [s] flag: any unit but a line terminator. *)
Definition isDot (c : N) : bool := negb (isLineTerminator c).

Definition str_eqb (a b : list N) : bool := bool_decide (a = b).

Fixpoint startsWith (p s : list N) : bool :=
  match p, s with
  | [], _ => true
  | _ :: _, [] => false
  | a :: p', b :: s' => (a =? b) && startsWith p' s'
  end.

Fixpoint dropWhile {A} (f : A → bool) (s : list A) : list A :=
  match s with
  | [] => []
  | c :: s' => if f c then dropWhile f s' else s
  end.

Fixpoint takeWhile {A} (f : A → bool) (s : list A) : list A :=
  match s with
  | [] => []
  | c :: s' => if f c then c :: takeWhile f s' else []
  end.

Definition trimStart (s : list N) : list N := dropWhile isSpace s.
Definition trimEnd (s : list N) : list N := reverse (dropWhile isSpace (reverse s)).
Definition trim (s : list N) : list N := trimEnd (trimStart s).

(** [s.indexOf(c)] for a one-unit needle; [None] stands for -1. *)
Fixpoint indexOfUnit (c : N) (s : list N) : option nat :=
  match s with
  | [] => None
  | d :: s' => if d =? c then Some 0%nat else S <$> indexOfUnit c s'
  end.

(** [s.includes(p)] *)
Fixpoint includes (p s : list N) : bool :=
  startsWith p s || match s with [] => false | _ :: s' => includes p s' end.

(** [s.split('\n')] : never empty, [''.split('\n')] is [['']]. *)
Fixpoint splitLines (s : list N) : list (list N) :=
  match s with
  | [] => [[]]
  | c :: s' =>
      if c =? LF then [] :: splitLines s'
      else match splitLines s' with
           | l :: ls => (c :: l) :: ls
           | [] => [[c]]
           end
  end.

(** [parts.join(sep)] *)
Fixpoint join (sep : list N) (parts : list (list N)) : list N :=
  match parts with
  | [] => []
  | [p] => p
  | p :: ps => p ++ sep ++ join sep ps
  end.

(** [s.replace(/c/g, r)] for a one-unit pattern and a replacement without [$]. *)
Fixpoint replaceAllUnit (c : N) (r : list N) (s : list N) : list N :=
  match s with
  | [] => []
  | d :: s' => (if d =? c then r else [d]) ++ replaceAllUnit c r s'
  end.

(** The shortest prefix followed by [pat]: the lazy [([\s\S]*?)pat].
    Returns the prefix and what follows the match. *)
Fixpoint lazyUntil (pat s : list N) : option (list N * list N) :=
  if startsWith pat s then Some ([], drop (length pat) s)
  else match s with
       | [] => None
       | c :: s' => (λ '(a, r), (c :: a, r)) <$> lazyUntil pat s'
       end.

(** [s.toLowerCase()] on the letters A-Z.  Other units are left alone: no
    unit outside A-Z lowercases to a letter occurring in 'user' or 'ai', so
    the comparisons made with the result are not affected. *)
Definition toLowerCase (s : list N) : list N :=
  map (λ c, if (65 <=? c) && (c <=? 90) then c + 32 else c) s.

(** A text between double quotes. *)
Definition quoted (s : list N) : list N := [DQUOTE] ++ s ++ [DQUOTE].

(** ** Filename safety (mcp/utils.mjs) *)

Module McpUtils.

(** [[\w.-]] *)
Definition isNameUnit (c : N) : bool := isWord c || (c =? 46) || (c =? 45).

Definition dotMdx : list N := Eval cbv in js ".mdx".

(** [/^[\w.-]+\.mdx$/.test(s)]: one or more class units, after which the
    remainder is exactly [.mdx]; the matcher may stop the [+] at any unit. *)
Fixpoint matchSafePattern (s : list N) : bool :=
  match s with
  | [] => false
  | c :: s' => isNameUnit c && (str_eqb s' dotMdx || matchSafePattern s')
  end.

Definition isSafeFilename (filename : list N) : bool :=
  matchSafePattern filename && negb (includes (js "..") filename).

End McpUtils.

(** ** JavaScript values *)

(** Decimal digits of a number, most significant first. *)
Fixpoint digitUnits (u : Decimal.uint) : list N :=
  match u with
  | Nil => []
  | D0 u' => 48 :: digitUnits u'
  | D1 u' => 49 :: digitUnits u'
  | D2 u' => 50 :: digitUnits u'
  | D3 u' => 51 :: digitUnits u'
  | D4 u' => 52 :: digitUnits u'
  | D5 u' => 53 :: digitUnits u'
  | D6 u' => 54 :: digitUnits u'
  | D7 u' => 55 :: digitUnits u'
  | D8 u' => 56 :: digitUnits u'
  | D9 u' => 57 :: digitUnits u'
  end.

(** [String(n)] for an integer [n]. *)
Definition numberToString (z : Z) : list N :=
  match Z.to_int z with
  | Decimal.Pos u => digitUnits u
  | Decimal.Neg u => 45 :: digitUnits u
  end.

(** The values a parsed JSON request can hold, plus [undefined].  Numbers
    are modelled by the integers, printed in decimal as [String(n)] prints
    every integer of magnitude below 10^21.  An object is the list of its own
    enumerable properties in [Object.entries] order, with distinct keys. *)
Inductive jsval : Type :=
  | JUndefined
  | JNull
  | JBool (b : bool)
  | JNum (z : Z)
  | JStr (s : list N)
  | JArr (elems : list jsval)
  | JObj (props : list (list N * jsval)).

Definition isArray (v : jsval) : bool :=
  match v with JArr _ => true | _ => false end.

Definition arrayElems (v : jsval) : list jsval :=
  match v with JArr l => l | _ => [] end.

(** [String(v)], also the conversion made by a template literal.  An array
    prints its elements joined by commas, [null] and [undefined] elements as
    the empty string; a plain object prints as [[object Object]].  An object
    with an own property named [toString] is outside this function: the
    property of a parsed request is never callable, and the conversion then
    throws a TypeError; statements about what throws are made of values
    without such an object. *)
Fixpoint toString (v : jsval) : list N :=
  match v with
  | JUndefined => js "undefined"
  | JNull => js "null"
  | JBool true => js "true"
  | JBool false => js "false"
  | JNum z => numberToString z
  | JStr s => s
  | JArr elems =>
      join (js ",")
        (map (λ e, match e with JUndefined | JNull => [] | _ => toString e end) elems)
  | JObj _ => js "[object Object]"
  end.

(** [v.name] for the property names read by the encoder ([title], [weeks],
    [status]), none of which exists on a primitive wrapper or an array.
    [None] is the TypeError raised on [null] and [undefined]. *)
Definition getProp (v : jsval) (name : list N) : option jsval :=
  match v with
  | JUndefined | JNull => None
  | JObj props =>
      Some (default JUndefined (snd <$> find (λ p, bool_decide (p.1 = name)) props))
  | _ => Some JUndefined
  end.

(** ** The write endpoint (src/pages/api/update-plan.ts) *)

Module UpdatePlan.

(** The two global replacements of the string case: every backslash is
    doubled, then every double quote is preceded by a backslash. *)
Definition escapeString (value : list N) : list N :=
  replaceAllUnit DQUOTE [BACKSLASH; DQUOTE]
    (replaceAllUnit BACKSLASH [BACKSLASH; BACKSLASH] value).

Definition serializeYamlValue (value : jsval) : list N :=
  match value with
  | JStr s => [DQUOTE] ++ escapeString s ++ [DQUOTE]
  | _ => toString value
  end.

(** The three lines pushed for one element of [milestones]. *)
Definition milestoneLines (m : jsval) : option (list (list N)) :=
  title ← getProp m (js "title");
  weeks ← getProp m (js "weeks");
  status ← getProp m (js "status");
  Some [ js "  - title: " ++ serializeYamlValue title;
         js "    weeks: " ++ serializeYamlValue weeks;
         js "    status: \q" ++ toString status ++ js "\q" ].

(** One iteration of the loop over [Object.entries(data)]: the lines array
    after the iteration, or [None] when the iteration throws. *)
Definition pushEntry (lines : list (list N)) (entry : list N * jsval)
  : option (list (list N)) :=
  let '(key, value) := entry in
  if bool_decide (key = js "milestones") && isArray value then
    ms ← mapM milestoneLines (arrayElems value);
    Some (lines ++ [js "milestones:"] ++ concat ms)
  else if bool_decide (key = js "tags") && isArray value then
    let arr := join (js ", ")
                 (map (λ t, [DQUOTE] ++ toString t ++ [DQUOTE]) (arrayElems value)) in
    Some (lines ++ [js "tags: [" ++ arr ++ js "]"])
  else
    match value with
    | JUndefined | JNull => Some lines
    | _ => Some (lines ++ [key ++ js ": " ++ serializeYamlValue value])
    end.

Definition buildLines (data : list (list N * jsval)) : option (list (list N)) :=
  foldl (λ acc entry, lines ← acc; pushEntry lines entry) (Some []) data.

(** Encode *)
Definition buildFrontmatter (data : list (list N * jsval)) : option (list N) :=
  join [LF] <$> buildLines data.

(** [`---\n${fm}\n---\n\n${mdxBody.trim()}\n`] *)
Definition documentText (fm mdxBody : list N) : list N :=
  js "---\n" ++ fm ++ js "\n---\n\n" ++ trim mdxBody ++ js "\n".

(** AssembleDocument: the content written by the handler; [None] when the
    encoder throws (the handler then answers 500 and writes nothing). *)
Definition assembleDocument (frontmatter : list (list N * jsval)) (mdxBody : list N)
  : option (list N) :=
  fm ← buildFrontmatter frontmatter; Some (documentText fm mdxBody).

Inductive response : Type :=
  | BadRequest
  | NotFound
  | ServerError
  | Written (content : list N).

(** The POST handler; [fileExists] is the answer of [fs.existsSync]. *)
Definition POST (fileExists : bool) (filename : list N)
    (frontmatter : list (list N * jsval)) (mdxBody : list N) : response :=
  if negb (McpUtils.matchSafePattern filename) then BadRequest
  else if negb fileExists then NotFound
  else match assembleDocument frontmatter mdxBody with
       | Some content => Written content
       | None => ServerError
       end.

End UpdatePlan.

(** ** The lightweight decoder (mcp/utils.mjs) *)

Module Decoder.

(** [raw.match(/^---\n([\s\S]*?)\n---/)]: the header block (group 1) and
    the text that follows the match. *)
Definition matchFrontmatter (raw : list N) : option (list N * list N) :=
  if startsWith (js "---\n") raw then lazyUntil (js "\n---") (drop 4 raw) else None.

(** The replacement of a quoted value by group 1 (pattern: start, double
    quote, a greedy group of [.], double quote, end): the pattern spans the
    whole string, which must begin and end with a quote, with no line
    terminator between. *)
Definition stripQuotes (val : list N) : list N :=
  match val with
  | q :: rest =>
      match reverse rest with
      | q' :: inner =>
          if (q =? DQUOTE) && (q' =? DQUOTE) && forallb isDot inner
          then reverse inner else val
      | [] => val
      end
  | [] => val
  end.

(** [fm[key] = val] on a plain object: assigning the name [__proto__] runs
    the prototype setter, which ignores a string, and adds no property. *)
Definition assign (key val : list N) (fm : gmap (list N) (list N))
  : gmap (list N) (list N) :=
  if bool_decide (key = js "__proto__") then fm else <[key := val]> fm.

(** One iteration of the loop over the lines of the block. *)
Definition readLine (fm : gmap (list N) (list N)) (line : list N)
  : gmap (list N) (list N) :=
  match indexOfUnit 58 line with
  | None => fm
  | Some colonIdx =>
      if startsWith (js " ") line then fm
      else
        let key := trim (take colonIdx line) in
        let val := stripQuotes (trim (drop (S colonIdx) line)) in
        if bool_decide (key = []) then fm else assign key val fm
  end.

(** Decode, on the content [raw] of the file. *)
Definition readFrontmatter (raw : list N) : gmap (list N) (list N) :=
  match matchFrontmatter raw with
  | None => ∅
  | Some (block, _) => foldl readLine ∅ (splitLines block)
  end.

End Decoder.

(** ** Rendered content

    What the renderers build, without the styling (class names) and the
    React keys. *)

Inductive inline : Type :=
  | IText (s : list N)
  | IStrong (s : list N)
  | ICode (s : list N)
  | ILink (text href : list N)
  | IEm (s : list N).

Inductive listItem : Type :=
  | LiText (spans : list inline)
  | LiCheck (checked : bool) (spans : list inline).

Inductive element : Type :=
  | Ul (items : list listItem)
  | Ol (items : list (list inline))
  | Checklist (items : list (bool * list inline))
  | Blockquote (spans : list inline)
  | Callout (icon : list N) (spans : list inline)
  | Hr
  | P (spans : list inline).

(** *** Pieces of the regular expressions *)

(** A literal: what follows it, when the input begins with it. *)
Definition expect (lit s : list N) : option (list N) :=
  if startsWith lit s then Some (drop (length lit) s) else None.

(** The lazy group [(.+?)] followed by the rest [k] of the pattern: one
    unit is taken, then [k] is tried; when [k] fails one more unit is taken.
    Returns the text of the group and the result of [k]. *)
Fixpoint lazyPlus {A} (k : list N → option A) (s : list N) : option (list N * A) :=
  match s with
  | [] => None
  | c :: s' =>
      if isDot c then
        match k s' with
        | Some a => Some ([c], a)
        | None => (λ '(inner, a), (c :: inner, a)) <$> lazyPlus k s'
        end
      else None
  end.

(** The greedy group [(.+)] at the end of a pattern: the longest run of
    units that are not line terminators, which must not be empty. *)
Definition dotPlus (s : list N) : option (list N) :=
  match takeWhile isDot s with
  | [] => None
  | text => Some text
  end.

(** The inline pattern, tried at the head of [s]: bold [**x**], code
    between backticks, link [[text](url)], italic [*x*], in this order.
    Returns the span and what follows the match. *)
Definition matchInlineAt (s : list N) : option (inline * list N) :=
  match expect (js "**") s ≫= lazyPlus (expect (js "**")) with
  | Some (x, rest) => Some (IStrong x, rest)
  | None =>
  match expect [96] s ≫= lazyPlus (expect [96]) with
  | Some (x, rest) => Some (ICode x, rest)
  | None =>
  match expect (js "[") s
        ≫= lazyPlus (λ r, expect (js "](") r ≫= lazyPlus (expect (js ")"))) with
  | Some (text, (href, rest)) => Some (ILink text href, rest)
  | None =>
  match expect (js "*") s ≫= lazyPlus (expect (js "*")) with
  | Some (x, rest) => Some (IEm x, rest)
  | None => None
  end end end end.

(** [regex.exec(text)] from the head of [s]: the text skipped before the
    first match, the span, and what follows the match. *)
Fixpoint execInline (s : list N) : option (list N * inline * list N) :=
  match matchInlineAt s with
  | Some (span, rest) => Some ([], span, rest)
  | None =>
      match s with
      | [] => None
      | c :: s' => (λ '(before, span, rest), (c :: before, span, rest)) <$> execInline s'
      end
  end.

(** The loop shared, word for word, by the three inline renderers; [fuel]
    bounds the number of matches. *)
Fixpoint inlineLoop (fuel : nat) (text : list N) : list inline :=
  match fuel with
  | O => []
  | S fuel' =>
      match execInline text with
      | Some (before, span, rest) =>
          (if bool_decide (before = []) then [] else [IText before])
          ++ [span] ++ inlineLoop fuel' rest
      | None => if bool_decide (text = []) then [] else [IText text]
      end
  end.

(** [/^[-*]\s/.test(trimmed)] *)
Definition isBullet (trimmed : list N) : bool :=
  match trimmed with
  | a :: b :: _ => ((a =? 45) || (a =? 42)) && isSpace b
  | _ => false
  end.

(** The text left by the removal of [/^\d+\.\s/], when the pattern matches. *)
Definition orderedItem (trimmed : list N) : option (list N) :=
  match takeWhile isDigit trimmed, dropWhile isDigit trimmed with
  | _ :: _, dot :: sp :: item =>
      if (dot =? 46) && isSpace sp then Some item else None
  | _, _ => None
  end.

(** [trimmed.replace(/^>\s?/, '')] on a line that starts with [>]. *)
Definition quoteText (trimmed : list N) : list N :=
  match trimmed with
  | _ :: sp :: rest => if isSpace sp then rest else sp :: rest
  | _ => []
  end.

(** [/^-{3,}$/.test(trimmed)] *)
Definition isRule (trimmed : list N) : bool :=
  forallb (λ c, c =? 45) trimmed && bool_decide (3 ≤ length trimmed)%nat.

(** The first code point of a string (the [u] flag): its value, its units,
    and what follows. *)
Definition firstCodePoint (s : list N) : option (N * list N * list N) :=
  match s with
  | [] => None
  | hi :: rest =>
      match rest with
      | lo :: rest' =>
          if (0xD800 <=? hi) && (hi <=? 0xDBFF) && (0xDC00 <=? lo) && (lo <=? 0xDFFF)
          then Some (0x10000 + (hi - 0xD800) * 0x400 + (lo - 0xDC00), [hi; lo], rest')
          else Some (hi, [hi], rest)
      | [] => Some (hi, [hi], [])
      end
  end.

(** The tail [\s*(.+)] of the callout patterns: white space is taken
    greedily and given back one unit at a time when the group cannot start. *)
Fixpoint spacesThenText (s : list N) : option (list N) :=
  match s with
  | [] => None
  | c :: s' =>
      if isSpace c then
        match spacesThenText s' with
        | Some text => Some text
        | None => dotPlus s
        end
      else dotPlus s
  end.

(** The callout patterns: one code point of the class [inClass], then
    [\s*(.+)].  Returns the icon and the text. *)
Definition matchCallout (inClass : N → bool) (q : list N) : option (list N * list N) :=
  match firstCodePoint q with
  | Some (cp, icon, rest) =>
      if inClass cp then (λ text, (icon, text)) <$> spacesThenText rest else None
  | None => None
  end.

(** ** Chat messages (src/components/ChatLog.tsx) *)

Module ChatLog.

Inductive Role : Type := User | AI.

Record ChatMessage : Type := Message { role : Role; content : list N }.

Definition consHead (c : N) (chunks : list (list N)) : list (list N) :=
  match chunks with
  | l :: ls => (c :: l) :: ls
  | [] => [[c]]
  end.

(** [raw.split(/^## /m)]: the marker matches where the three units [## ]
    begin the input or follow a line terminator; the text between matches is
    returned, the markers are not.  [bol] tells whether the position of the
    head of [s] begins a line. *)
Fixpoint splitH2 (bol : bool) (s : list N) {struct s} : list (list N) :=
  match s with
  | [] => [[]]
  | c :: s' =>
      if bol && startsWith (js "## ") s then
        match s' with
        | _ :: _ :: r => [] :: splitH2 false r
        | _ => [[]]
        end
      else consHead c (splitH2 (isLineTerminator c) s')
  end.

(** One iteration of the loop over the sections: the message pushed, if any. *)
Definition parseSection (section : list N) : option ChatMessage :=
  match indexOfUnit LF section with
  | None => None
  | Some firstNewline =>
      let heading := toLowerCase (trim (take firstNewline section)) in
      let content := trim (drop (S firstNewline) section) in
      if bool_decide (content = []) then None
      else if bool_decide (heading = js "user") then Some (Message User content)
      else if bool_decide (heading = js "ai") then Some (Message AI content)
      else None
  end.

(** SegmentMessages *)
Definition parseChatContent (raw : list N) : list ChatMessage :=
  let sections := filter (λ section, section ≠ []) (splitH2 true raw) in
  omap parseSection sections.

(** *** Rendering a message *)

Inductive RenderedBlock : Type :=
  | TextBlock (content : list N)
  | CodeBlock (language content : list N).

(** The fence pattern tried at the head of [s]: three backticks, a run of
    word units (group 1), a newline, the shortest text (group 2) followed by
    three backticks.  Returns the two groups and what follows the match. *)
Definition matchFenceAt (s : list N) : option (list N * list N * list N) :=
  r ← expect (js "```") s;
  r' ← expect [LF] (dropWhile isWord r);
  '(code, rest) ← lazyUntil (js "```") r';
  Some (takeWhile isWord r, code, rest).

(** [codeRegex.exec(content)] from the head of [s]: the text before the
    first match, the groups, and what follows the match. *)
Fixpoint execFence (s : list N) : option (list N * list N * list N * list N) :=
  match matchFenceAt s with
  | Some (lang, code, rest) => Some ([], lang, code, rest)
  | None =>
      match s with
      | [] => None
      | c :: s' =>
          (λ '(before, lang, code, rest), (c :: before, lang, code, rest)) <$> execFence s'
      end
  end.

Definition textBlock (s : list N) : list RenderedBlock :=
  if bool_decide (trim s = []) then [] else [TextBlock (trim s)].

Fixpoint parseBlocksLoop (fuel : nat) (content : list N) : list RenderedBlock :=
  match fuel with
  | O => []
  | S fuel' =>
      match execFence content with
      | Some (before, lang, code, rest) =>
          textBlock before
          ++ [CodeBlock (if bool_decide (lang = []) then js "text" else lang) (trimEnd code)]
          ++ parseBlocksLoop fuel' rest
      | None => textBlock content
      end
  end.

Definition parseBlocks (content : list N) : list RenderedBlock :=
  parseBlocksLoop (S (length content)) content.

Definition renderInlineMarkdown (text : list N) : list inline :=
  inlineLoop (S (length text)) text.

(** The variables of [renderTextBlock]. *)
Record state : Type := mkState {
  elements : list element;
  listItems : list (list N);
  olItems : list (list N)
}.

Definition flushUl (st : state) : state :=
  match listItems st with
  | [] => st
  | items =>
      mkState (elements st ++ [Ul (map (λ li, LiText (renderInlineMarkdown li)) items)])
              [] (olItems st)
  end.

Definition flushOl (st : state) : state :=
  match olItems st with
  | [] => st
  | items =>
      mkState (elements st ++ [Ol (map renderInlineMarkdown items)]) (listItems st) []
  end.

Definition push (e : element) (st : state) : state :=
  mkState (elements st ++ [e]) (listItems st) (olItems st).

(** The body of the loop over the lines. *)
Definition step (st : state) (line : list N) : state :=
  let trimmed := trim line in
  if bool_decide (trimmed = []) then flushOl (flushUl st)
  else if isBullet trimmed then
    let st' := flushOl st in
    mkState (elements st') (listItems st' ++ [drop 2 trimmed]) (olItems st')
  else
    match orderedItem trimmed with
    | Some item =>
        let st' := flushUl st in
        mkState (elements st') (listItems st') (olItems st' ++ [item])
    | None =>
        if startsWith (js ">") trimmed then
          push (Blockquote (renderInlineMarkdown (quoteText trimmed))) (flushOl (flushUl st))
        else push (P (renderInlineMarkdown trimmed)) (flushOl (flushUl st))
    end.

Definition renderTextBlock (text : list N) : list element :=
  elements (flushOl (flushUl (foldl step (mkState [] [] []) (splitLines text)))).

(** What a bubble shows for one block. *)
Inductive bubblePart : Type :=
  | CodePart (language code : list N)
  | TextPart (elems : list element).

Definition renderPart (block : RenderedBlock) : bubblePart :=
  match block with
  | CodeBlock language code => CodePart language code
  | TextBlock text => TextPart (renderTextBlock text)
  end.

(** The content of a message bubble: code blocks go to the code component,
    text blocks to [renderTextBlock]. *)
Definition renderMessage (content : list N) : list bubblePart :=
  map renderPart (parseBlocks content).

End ChatLog.

(** ** Plan sections (src/components/PlanContent.tsx) *)

Module PlanContent.

Record Section : Type := mkSection { level : nat; title : list N; content : list N }.

(** [line.match(/^## (.+)/)] and [line.match(/^### (.+)/)]: group 1, the
    longest run of units other than line terminators after the marker, which
    must not be empty. *)
Definition matchHeading (marker line : list N) : option (list N) :=
  if startsWith marker line then
    match takeWhile isDot (drop (length marker) line) with
    | [] => None
    | text => Some text
    end
  else None.

(** The variables of [parseSections]; [current] holds the level and title of
    the section being filled. *)
Record state : Type := mkState {
  sections : list Section;
  current : option (nat * list N);
  contentLines : list (list N)
}.

Definition flush (st : state) : state :=
  match current st with
  | Some (lv, t) =>
      mkState (sections st ++ [mkSection lv t (trim (join [LF] (contentLines st)))])
              (current st) []
  | None => st
  end.

Definition step (st : state) (line : list N) : state :=
  match matchHeading (js "## ") line with
  | Some text =>
      let st' := flush st in
      mkState (sections st') (Some (2%nat, trim text)) (contentLines st')
  | None =>
      match matchHeading (js "### ") line with
      | Some text =>
          let st' := flush st in
          mkState (sections st') (Some (3%nat, trim text)) (contentLines st')
      | None => mkState (sections st) (current st) (contentLines st ++ [line])
      end
  end.

Definition parseSections (raw : list N) : list Section :=
  sections (flush (foldl step (mkState [] None []) (splitLines raw))).

(** [/^##\s/.test(line)] *)
Definition isIntroEnd (line : list N) : bool :=
  match line with
  | a :: b :: c :: _ => (a =? 35) && (b =? 35) && isSpace c
  | _ => false
  end.

(** The intro of [PlanContent]: the lines before the first line that
    passes [isIntroEnd], joined and trimmed. *)
Definition intro (rawContent : list N) : list N :=
  trim (join [LF] (takeWhile (λ line, negb (isIntroEnd line)) (splitLines rawContent))).

(** SegmentSections *)
Definition segment (rawContent : list N) : list N * list Section :=
  (intro rawContent, parseSections rawContent).

(** *** Rendering a section *)

Definition renderInline (text : list N) : list inline :=
  inlineLoop (S (length text)) text.

(** The checklist pattern: hyphen or star, white space, a box holding a
    space, [x] or [X], white space, and a text (group 2). *)
Definition checkMatch (trimmed : list N) : option (bool * list N) :=
  match trimmed with
  | a :: b :: c :: d :: e :: f :: rest =>
      if ((a =? 45) || (a =? 42)) && isSpace b && (c =? 91)
         && ((d =? 32) || (d =? 120) || (d =? 88)) && (e =? 93) && isSpace f
      then (λ text, (negb (d =? 32), text)) <$> dotPlus rest
      else None
  | _ => None
  end.

(** The class of the callout pattern of [renderBlock]. *)
Definition isEmoji (cp : N) : bool :=
  ((0x1F300 <=? cp) && (cp <=? 0x1FAD6)) || ((0x2600 <=? cp) && (cp <=? 0x27BF))
  || ((0xFE00 <=? cp) && (cp <=? 0xFE0F)) || ((0x1F900 <=? cp) && (cp <=? 0x1F9FF)).

(** The variables of [renderBlock]. *)
Record rstate : Type := mkRState {
  elements : list element;
  listItems : list (list N);
  olItems : list (list N);
  checklistItems : list (bool * list N)
}.

Definition flushUl (st : rstate) : rstate :=
  match listItems st with
  | [] => st
  | items =>
      mkRState (elements st ++ [Ul (map (λ li, LiText (renderInline li)) items)])
               [] (olItems st) (checklistItems st)
  end.

Definition flushOl (st : rstate) : rstate :=
  match olItems st with
  | [] => st
  | items =>
      mkRState (elements st ++ [Ol (map renderInline items)])
               (listItems st) [] (checklistItems st)
  end.

Definition flushChecklist (st : rstate) : rstate :=
  match checklistItems st with
  | [] => st
  | items =>
      mkRState (elements st ++ [Checklist (map (λ item, (item.1, renderInline item.2)) items)])
               (listItems st) (olItems st) []
  end.

Definition flushAll (st : rstate) : rstate := flushChecklist (flushOl (flushUl st)).

Definition push (e : element) (st : rstate) : rstate :=
  mkRState (elements st ++ [e]) (listItems st) (olItems st) (checklistItems st).

(** The body of the loop over the lines. *)
Definition rstep (st : rstate) (line : list N) : rstate :=
  let trimmed := trim line in
  if bool_decide (trimmed = []) then flushAll st
  else
    match checkMatch trimmed with
    | Some item =>
        let st' := flushOl (flushUl st) in
        mkRState (elements st') (listItems st') (olItems st') (checklistItems st' ++ [item])
    | None =>
        if isBullet trimmed then
          let st' := flushChecklist (flushOl st) in
          mkRState (elements st') (listItems st' ++ [drop 2 trimmed]) (olItems st')
                   (checklistItems st')
        else
          match orderedItem trimmed with
          | Some item =>
              let st' := flushChecklist (flushUl st) in
              mkRState (elements st') (listItems st') (olItems st' ++ [item])
                       (checklistItems st')
          | None =>
              if startsWith (js ">") trimmed then
                match matchCallout isEmoji (quoteText trimmed) with
                | Some (icon, text) => push (Callout icon (renderInline text)) (flushAll st)
                | None => push (Blockquote (renderInline (quoteText trimmed))) (flushAll st)
                end
              else if isRule trimmed then push Hr (flushAll st)
              else push (P (renderInline trimmed)) (flushAll st)
          end
    end.

(** [None] is the [null] returned for an empty content. *)
Definition renderBlock (content : list N) : option (list element) :=
  if bool_decide (content = []) then None
  else Some (elements (flushAll (foldl rstep (mkRState [] [] [] []) (splitLines content)))).

End PlanContent.

(** ** The editable plan (src/components/EditablePlan.tsx) *)

Module EditablePlan.

(** Replacement of the first match of a left bracket, one unit that is not a
    line terminator, and a right bracket by the empty box [[ ]]. *)
Fixpoint replaceFirstBox (l : list N) : list N :=
  match l with
  | [] => []
  | a :: rest =>
      match rest with
      | b :: c :: r =>
          if (a =? 91) && isDot b && (c =? 93) then js "[ ]" ++ r
          else a :: replaceFirstBox rest
      | _ => a :: replaceFirstBox rest
      end
  end.

(** [l.replace(pat, repl)] for a string pattern and a replacement without
    [$]: the first occurrence is replaced. *)
Fixpoint replaceFirst (pat repl s : list N) : list N :=
  if startsWith pat s then repl ++ drop (length pat) s
  else match s with
       | [] => []
       | c :: s' => c :: replaceFirst pat repl s'
       end.

(** The function mapped over the lines by a click on the checkbox of the
    item whose text is [text]. *)
Definition toggleLine (text l : list N) : list N :=
  if bool_decide (trim l = js "- [x] " ++ text) || bool_decide (trim l = js "- [X] " ++ text)
  then replaceFirstBox l
  else if bool_decide (trim l = js "- [ ] " ++ text)
  then replaceFirst (js "[ ]") (js "[x]") l
  else l.

(** The checklist toggle: the content handed to [onCheckToggle]. *)
Definition toggleChecklist (content text : list N) : list N :=
  join [LF] (map (toggleLine text) (splitLines content)).

(** *** Rendering a section, with checkboxes *)

Definition renderInline (text : list N) : list inline :=
  inlineLoop (S (length text)) text.

(** The pattern tried on a list item: a box holding a space, [x] or [X],
    one space, and a text (group 2). *)
Definition checkItem (li : list N) : option (bool * list N) :=
  match li with
  | a :: b :: c :: d :: rest =>
      if (a =? 91) && ((b =? 32) || (b =? 120) || (b =? 88)) && (c =? 93) && (d =? 32)
      then (λ text, (negb (b =? 32), text)) <$> dotPlus rest
      else None
  | _ => None
  end.

(** The class of the callout pattern of [ContentRenderer]. *)
Definition isEmoji (cp : N) : bool :=
  ((0x1F300 <=? cp) && (cp <=? 0x1FAD6)) || ((0x2600 <=? cp) && (cp <=? 0x27BF)).

Definition renderItem (li : list N) : listItem :=
  match checkItem li with
  | Some (checked, text) => LiCheck checked (renderInline text)
  | None => LiText (renderInline li)
  end.

(** The variables of [ContentRenderer]. *)
Record cstate : Type := mkCState {
  elements : list element;
  ulBuf : list (list N);
  olBuf : list (list N)
}.

Definition flushUl (st : cstate) : cstate :=
  match ulBuf st with
  | [] => st
  | items => mkCState (elements st ++ [Ul (map renderItem items)]) [] (olBuf st)
  end.

Definition flushOl (st : cstate) : cstate :=
  match olBuf st with
  | [] => st
  | items => mkCState (elements st ++ [Ol (map renderInline items)]) (ulBuf st) []
  end.

Definition push (e : element) (st : cstate) : cstate :=
  mkCState (elements st ++ [e]) (ulBuf st) (olBuf st).

(** The body of [lines.forEach]. *)
Definition cstep (st : cstate) (line : list N) : cstate :=
  let trimmed := trim line in
  if bool_decide (trimmed = []) then flushOl (flushUl st)
  else if isBullet trimmed then
    let st' := flushOl st in
    mkCState (elements st') (ulBuf st' ++ [drop 2 trimmed]) (olBuf st')
  else
    match orderedItem trimmed with
    | Some item =>
        let st' := flushUl st in
        mkCState (elements st') (ulBuf st') (olBuf st' ++ [item])
    | None =>
        if startsWith (js ">") trimmed then
          match matchCallout isEmoji (quoteText trimmed) with
          | Some (icon, text) => push (Callout icon (renderInline text)) (flushOl (flushUl st))
          | None => push (Blockquote (renderInline (quoteText trimmed))) (flushOl (flushUl st))
          end
        else if isRule trimmed then push Hr (flushOl (flushUl st))
        else push (P (renderInline trimmed)) (flushOl (flushUl st))
    end.

Definition ContentRenderer (content : list N) : list element :=
  elements (flushOl (flushUl (foldl cstep (mkCState [] [] []) (splitLines content)))).

End EditablePlan.

(** ** The frontmatter update tool (mcp/server.mjs) *)

Module McpServer.

(** The replacement text of [String.prototype.replace], with its dollar
    patterns expanded: [$$] is a dollar sign, [$&] the matched text, a dollar
    and a backtick the text before the match, a dollar and a quote the text
    after it.  The patterns used have no capture group, so a dollar followed
    by a digit stands for itself. *)
Fixpoint expandReplacement (matched before after repl : list N) : list N :=
  match repl with
  | [] => []
  | c :: rest =>
      if c =? 36 then
        match rest with
        | d :: r =>
            if d =? 36 then 36 :: expandReplacement matched before after r
            else if d =? 38 then matched ++ expandReplacement matched before after r
            else if d =? 96 then before ++ expandReplacement matched before after r
            else if d =? 39 then after ++ expandReplacement matched before after r
            else 36 :: expandReplacement matched before after rest
        | [] => [36]
        end
      else c :: expandReplacement matched before after rest
  end.

(** [s.replace(pat, repl)] for a string pattern: the first occurrence. *)
Definition replaceString (pat repl s : list N) : list N :=
  match lazyUntil pat s with
  | Some (before, after) => before ++ expandReplacement pat before after repl ++ after
  | None => s
  end.

(** Keys that stand for themselves in a pattern: no unit with a meaning in
    the syntax of regular expressions. *)
Definition isSyntaxUnit (c : N) : bool :=
  (c =? 94) || (c =? 36) || (c =? 92) || (c =? 46) || (c =? 42) || (c =? 43)
  || (c =? 63) || (c =? 40) || (c =? 41) || (c =? 91) || (c =? 93)
  || (c =? 123) || (c =? 125) || (c =? 124).

Definition literalKey (key : list N) : bool := forallb (λ c, negb (isSyntaxUnit c)) key.

(** The first match of the line pattern built from a literal key (start of
    a line, the key, a colon, the rest of the line): the text before the
    match, the match, and the text after it.  [bol] tells whether the head
    of [s] begins a line. *)
Fixpoint findKeyLine (key : list N) (bol : bool) (s : list N)
  : option (list N * list N * list N) :=
  if bol && startsWith (key ++ [58]) s then
    let tail := drop (length key + 1) s in
    Some ([], key ++ [58] ++ takeWhile isDot tail, dropWhile isDot tail)
  else
    match s with
    | [] => None
    | c :: s' =>
        (λ '(before, matched, after), (c :: before, matched, after))
          <$> findKeyLine key (isLineTerminator c) s'
    end.

Definition hexDigit (n : N) : N := if n <? 10 then 48 + n else 87 + n.

(** The escape [\uXXXX] of a code unit. *)
Definition unicodeEscape (c : N) : list N :=
  [92; 117; hexDigit (c / 4096 mod 16); hexDigit (c / 256 mod 16);
   hexDigit (c / 16 mod 16); hexDigit (c mod 16)].

Definition escapeJSONUnit (c : N) : list N :=
  if c =? 8 then js "\\b"
  else if c =? 9 then js "\\t"
  else if c =? 10 then js "\\n"
  else if c =? 12 then js "\\f"
  else if c =? 13 then js "\\r"
  else if c =? 34 then js "\\\q"
  else if c =? 92 then js "\\\\"
  else if c <? 32 then unicodeEscape c
  else [c].

(** The inside of a quoted JSON string; a surrogate that is not part of a
    pair is written as an escape. *)
Fixpoint quoteJSONUnits (s : list N) : list N :=
  match s with
  | [] => []
  | c :: rest =>
      if (0xD800 <=? c) && (c <=? 0xDBFF) then
        match rest with
        | lo :: rest' =>
            if (0xDC00 <=? lo) && (lo <=? 0xDFFF) then c :: lo :: quoteJSONUnits rest'
            else unicodeEscape c ++ quoteJSONUnits rest
        | [] => unicodeEscape c
        end
      else if (0xDC00 <=? c) && (c <=? 0xDFFF) then unicodeEscape c ++ quoteJSONUnits rest
      else escapeJSONUnit c ++ quoteJSONUnits rest
  end.

(** [JSON.stringify(v)]; [None] is the [undefined] it returns for
    [undefined].  In an array [undefined] is written [null]; in an object a
    property whose value is [undefined] is left out. *)
Fixpoint stringify (v : jsval) : option (list N) :=
  match v with
  | JUndefined => None
  | JNull => Some (js "null")
  | JBool true => Some (js "true")
  | JBool false => Some (js "false")
  | JNum z => Some (numberToString z)
  | JStr s => Some (quoted (quoteJSONUnits s))
  | JArr elems =>
      Some (js "[" ++ join (js ",") (map (λ e, default (js "null") (stringify e)) elems)
            ++ js "]")
  | JObj props =>
      Some (js "{"
            ++ join (js ",")
                 (omap (λ p, (λ t, quoted (quoteJSONUnits p.1) ++ js ":" ++ t)
                               <$> stringify p.2) props)
            ++ js "}")
  end.

(** The text of a value inside a template literal: [undefined] prints as
    the word. *)
Definition templateText (t : option (list N)) : list N := default (js "undefined") t.

(** [typeof v === 'string' ? `"${v}"` : JSON.stringify(v)] *)
Definition serialize (v : jsval) : option (list N) :=
  match v with
  | JStr s => Some (quoted s)
  | _ => stringify v
  end.

(** The bracketed text written for an array value; [join] prints an
    [undefined] element as the empty string. *)
Definition yamlArr (elems : list jsval) : list N :=
  js "[" ++ join (js ", ") (map (λ v, default [] (serialize v)) elems) ++ js "]".

(** One iteration of the loop over the fields, for a literal key: the
    block and the list of updated keys after the iteration. *)
Definition updateField (st : list N * list (list N)) (field : list N * jsval)
  : list N * list (list N) :=
  let '(fmBlock, updated) := st in
  let '(key, value) := field in
  match findKeyLine key true fmBlock with
  | Some (before, matched, after) =>
      let text := if isArray value then yamlArr (arrayElems value)
                  else templateText (serialize value) in
      (before ++ expandReplacement matched before after (key ++ js ": " ++ text) ++ after,
       updated ++ [key])
  | None => (fmBlock, updated)
  end.

Inductive outcome : Type :=
  | InvalidFilename
  | FileNotFound
  | NoFrontmatter
  | Updated (written : list N) (updated : list (list N))
  | OutsideModel.

(** The handler of [update_frontmatter]; [file] is the content of the file
    at the resolved path, if it exists.  A key with regular expression
    syntax in it compiles to a pattern that this development does not
    interpret: the answer is then [OutsideModel]. *)
Definition update_frontmatter (file : option (list N)) (filename : list N)
    (fields : list (list N * jsval)) : outcome :=
  if negb (McpUtils.isSafeFilename filename) then InvalidFilename
  else
    match file with
    | None => FileNotFound
    | Some raw =>
        match Decoder.matchFrontmatter raw with
        | None => NoFrontmatter
        | Some (block, _) =>
            if forallb (λ f, literalKey f.1) fields then
              let '(fmBlock, updated) := foldl updateField (block, []) fields in
              Updated (replaceString block fmBlock raw) updated
            else OutsideModel
        end
    end.

End McpServer.

(** ** Reference descriptions used in the statements *)

(** One-pass escaping: a backslash before every backslash and double quote. *)
Definition escapeUnits (s : list N) : list N :=
  flat_map (λ c, if (c =? BACKSLASH) || (c =? DQUOTE) then [BACKSLASH; c] else [c]) s.

(** A plan milestone as the editor sends it. *)
Record milestone : Type := Milestone {
  m_title : list N;
  m_weeks : list N;
  m_status : list N
}.



(** Two encodings run after one another. *)
Definition appendLines (a b : option (list (list N))) : option (list (list N)) :=
  la ← a; lb ← b; Some (la ++ lb).

(** Field maps the encoder accepts: no [null] or [undefined] element in a
    [milestones] array (reading a property of such an element throws). *)
Definition isNullish (v : jsval) : bool :=
  match v with JUndefined | JNull => true | _ => false end.

Definition encodable (data : list (list N * jsval)) : bool :=
  forallb (λ '(key, value),
             if bool_decide (key = js "milestones") && isArray value
             then forallb (λ m, negb (isNullish m)) (arrayElems value)
             else true) data.


(** Keys the lightweight decoder reads back as they are: not empty, no
    surrounding white space, no colon, no newline, not beginning with three
    hyphens, and not the name [__proto__]. *)
Definition plainKey (k : list N) : bool :=
  negb (bool_decide (k = [])) && bool_decide (trim k = k)
  && negb (bool_decide (58 ∈ k)) && negb (bool_decide (LF ∈ k))
  && negb (startsWith (js "---") k) && negb (bool_decide (k = js "__proto__")).

(** Units the encoder writes and the decoder reads back unchanged. *)
Definition plainUnit (c : N) : bool :=
  negb (c =? BACKSLASH) && negb (c =? DQUOTE) && isDot c.

(** Scalar values that survive the round trip as text. *)
Definition plainScalar (v : jsval) : bool :=
  match v with
  | JStr s => forallb plainUnit s
  | JBool _ | JNum _ => true
  | _ => false
  end.

Definition plainField (e : list N * jsval) : bool := plainKey e.1 && plainScalar e.2.

(** The line the encoder writes for a scalar field. *)
Definition fieldLine (e : list N * jsval) : list N :=
  e.1 ++ js ": " ++ UpdatePlan.serializeYamlValue e.2.

(** The role label a message heading must equal, up to letter case. *)
Definition roleName (r : ChatLog.Role) : list N :=
  match r with ChatLog.User => js "user" | ChatLog.AI => js "ai" end.

(** A checklist line, trimmed: hyphen, space, a box holding [mark], space,
    and the text of the item. *)
Definition checkLine (mark : N) (text : list N) : list N :=
  [45; 32; 91; mark; 93; 32] ++ text.

(** Lines on which the three block renderers have the same cases: no
    checklist item, no horizontal rule, and no callout after a quote mark. *)
Definition commonLine (line : list N) : bool :=
  let trimmed := trim line in
  bool_decide (PlanContent.checkMatch trimmed = None)
  && negb (isRule trimmed)
  && (negb (startsWith (js ">") trimmed)
      || bool_decide (matchCallout PlanContent.isEmoji (quoteText trimmed) = None)).

(** The variables of the chat renderer, read as variables of the section
    renderers. *)
Definition toPlan (c : ChatLog.state) : PlanContent.rstate :=
  PlanContent.mkRState (ChatLog.elements c) (ChatLog.listItems c) (ChatLog.olItems c) [].

Definition toEdit (c : ChatLog.state) : EditablePlan.cstate :=
  EditablePlan.mkCState (ChatLog.elements c) (ChatLog.listItems c) (ChatLog.olItems c).

(** No buffered list item is a checkbox item. *)
Definition plainItems (c : ChatLog.state) : Prop :=
  Forall (λ li, EditablePlan.checkItem li = None) (ChatLog.listItems c).

(** The language of [^[\w.-]+\.mdx$]. *)
Definition matchesMdxPattern (s : list N) : Prop :=
  ∃ stem, stem ≠ [] ∧ Forall (λ c, McpUtils.isNameUnit c = true) stem
          ∧ s = stem ++ js ".mdx".

Definition containsDotDot (s : list N) : Prop := ∃ a b, s = a ++ js ".." ++ b.

(** ** Slugs (mcp/utils.mjs, scripts/new-plan.mjs) *)

Module Slug.

(** [String.prototype.toLowerCase] follows the Unicode case tables, which
    are no part of the repository: it is the parameter [lower] of the model. *)
Section Slugify.

Variable lower : list N → list N.

(** [[a-z0-9]] *)
Definition isSlugUnit (c : N) : bool :=
  ((97 <=? c) && (c <=? 122)) || isDigit c.

(** [s.replace(/[^a-z0-9]+/g, '-')]: every longest run of other units
    becomes one hyphen; [inRun] tells whether the run has begun. *)
Fixpoint collapse (inRun : bool) (s : list N) : list N :=
  match s with
  | [] => []
  | c :: s' =>
      if isSlugUnit c then c :: collapse false s'
      else if inRun then collapse true s'
      else 45 :: collapse true s'
  end.

(** The removal of a hyphen that begins the string and of a hyphen that
    ends it (both alternatives of the second pattern, each at most once). *)
Definition stripEnds (s : list N) : list N :=
  let s1 := match s with c :: r => if c =? 45 then r else s | [] => [] end in
  match reverse s1 with
  | c :: r => if c =? 45 then reverse r else s1
  | [] => []
  end.

Definition slugify (text : list N) : list N :=
  stripEnds (collapse false (lower text)).

(** The file name [create_plan] writes: the slug and the extension. *)
Definition planFilename (title : list N) : list N := slugify title ++ js ".mdx".

(** The file name [create_chat] writes; [date] is the answer of [today()]. *)
Definition chatFilename (date title : list N) : list N :=
  date ++ js "-" ++ slugify title ++ js ".mdx".

End Slugify.

End Slug.

(** ** The date of the day (mcp/utils.mjs) *)

Module McpDate.

(** [s.padStart(n, '0')] *)
Definition padStart (n : nat) (s : list N) : list N :=
  replicate (n - length s) 48 ++ s.

(** [today()], as a function of what the getters of the [Date] object
    answer: the full year, the month (from 0) and the day of the month. *)
Definition today (fullYear month date : Z) : list N :=
  numberToString fullYear ++ js "-" ++ padStart 2 (numberToString (month + 1))
  ++ js "-" ++ padStart 2 (numberToString date).

End McpDate.

(** ** The command line reader (scripts/cli.mjs) *)

Module Cli.

(** [s.split(sep)] for a one-unit separator. *)
Fixpoint splitOn (sep : N) (s : list N) : list (list N) :=
  match s with
  | [] => [[]]
  | c :: s' =>
      if c =? sep then [] :: splitOn sep s'
      else match splitOn sep s' with
           | l :: ls => (c :: l) :: ls
           | [] => [[c]]
           end
  end.

(** One iteration of the loop of [readFM]: [k] is the first part of the
    line cut at its colons, [v] the other parts. *)
Definition readLine (fm : gmap (list N) (list N)) (line : list N)
  : gmap (list N) (list N) :=
  match splitOn 58 line with
  | k :: v =>
      if negb (bool_decide (k = [])) && negb (bool_decide (v = []))
         && negb (startsWith (js " ") k)
      then Decoder.assign (trim k) (Decoder.stripQuotes (trim (join [58] v))) fm
      else fm
  | [] => fm
  end.

Definition readFM (raw : list N) : gmap (list N) (list N) :=
  match Decoder.matchFrontmatter raw with
  | None => ∅
  | Some (block, _) => foldl readLine ∅ (splitLines block)
  end.

End Cli.

(** ** Editing a plan (src/components/EditablePlan.tsx) *)

Module PlanEditor.

(** [parseSections] of the editor is the function of the plan view, up to
    the name of the buffer of lines. *)
Definition parseSections : list N → list PlanContent.Section :=
  PlanContent.parseSections.

(** The heading line of a section: [level] number signs, a space, the title. *)
Definition headingLine (s : PlanContent.Section) : list N :=
  replicate (PlanContent.level s) 35 ++ js " " ++ PlanContent.title s.

(** The parts pushed for one section. *)
Definition sectionParts (s : PlanContent.Section) : list (list N) :=
  headingLine s
  :: (if bool_decide (PlanContent.content s = []) then [] else [PlanContent.content s]).

(** [sectionsToBody]: the trimmed intro when it is not empty, then for
    each section its heading line and, when its content is not empty, the
    content; the parts are joined with a blank line between them. *)
Definition sectionsToBody (intro : list N) (sections : list PlanContent.Section) : list N :=
  join (js "\n\n")
    ((if bool_decide (trim intro = []) then [] else [trim intro])
     ++ concat (map sectionParts sections)).

Definition STATUS_CYCLE : list (list N) :=
  [js "not-started"; js "in-progress"; js "complete"].

(** [arr.indexOf(x)] as a position, [None] for -1. *)
Fixpoint indexOf (x : list N) (arr : list (list N)) : option nat :=
  match arr with
  | [] => None
  | y :: arr' => if bool_decide (y = x) then Some 0%nat else S <$> indexOf x arr'
  end.

(** [STATUS_CYCLE[(cur + 1) % STATUS_CYCLE.length]], where [cur] is the
    index of the status, -1 when it is none of the three. *)
Definition nextStatus (status : list N) : list N :=
  let next := match indexOf status STATUS_CYCLE with
              | Some cur => ((cur + 1) `mod` length STATUS_CYCLE)%nat
              | None => 0%nat
              end in
  default [] (STATUS_CYCLE !! next).

(** [milestones.map((m, idx) => idx === i ? { ...m, ...patch } : m)] for a
    patch of the status. *)
Definition updateStatus (i : nat) (status : list N) (milestones : list milestone)
  : list milestone :=
  imap (λ idx m, if bool_decide (idx = i)
                 then Milestone (m_title m) (m_weeks m) status else m) milestones.

(** [cycleStatus(i)]; [None] is the TypeError of reading the status of a
    milestone that does not exist. *)
Definition cycleStatus (i : nat) (milestones : list milestone) : option (list milestone) :=
  m ← milestones !! i;
  Some (updateStatus i (nextStatus (m_status m)) milestones).

End PlanEditor.

(** ** Writing chats (mcp/server.mjs) *)

Module McpChat.

Definition headingOf (r : ChatLog.Role) : list N :=
  match r with ChatLog.User => js "User" | ChatLog.AI => js "AI" end.

(** The text appended to the file by [add_message]. *)
Definition addition (r : ChatLog.Role) (content : list N) : list N :=
  js "\n\n## " ++ headingOf r ++ js "\n\n" ++ content.

(** The text of one message in the body of a new chat. *)
Definition messageText (m : ChatLog.ChatMessage) : list N :=
  js "## " ++ headingOf (ChatLog.role m) ++ js "\n\n" ++ ChatLog.content m.

(** The body written by [create_chat]: the messages, or the two
    placeholders when there is none. *)
Definition chatBody (messages : list ChatLog.ChatMessage) : list N :=
  match messages with
  | [] => js "## User\n\n<!-- Write the user prompt here -->\n\n## AI\n\n<!-- Paste or write the AI response here -->"
  | _ => join (js "\n\n") (map messageText messages)
  end.

(** The bracketed list of quoted tags; none or an empty list gives [[]]. *)
Definition tagStr (tags : list (list N)) : list N :=
  match tags with
  | [] => js "[]"
  | _ => js "[" ++ join (js ", ") (map quoted tags) ++ js "]"
  end.

(** The two lines of one action item; [done] prints as the word. *)
Definition actionItemText (a : list N * bool) : list N :=
  js "  - task: \q" ++ a.1 ++ js "\q\n    done: " ++ (if a.2 then js "true" else js "false").

Definition aiStr (action_items : list (list N * bool)) : list N :=
  match action_items with
  | [] => js "  - task: \q\q\n    done: false"
  | _ => join [LF] (map actionItemText action_items)
  end.

(** The content [create_chat] writes; [date] is the answer of [today()],
    an absent [tldr] is the empty string, absent tags and action items are
    the empty lists. *)
Definition chatContent (date title : list N) (tags : list (list N)) (tldr : list N)
    (action_items : list (list N * bool)) (messages : list ChatLog.ChatMessage) : list N :=
  js "---\ntitle: \q" ++ title ++ js "\q\ndate: " ++ date ++ js "\ntags: " ++ tagStr tags
  ++ js "\ntldr: \q" ++ tldr ++ js "\q\naction_items:\n" ++ aiStr action_items
  ++ js "\n---\n\n" ++ chatBody messages ++ js "\n".

End McpChat.

(** ** Reference descriptions used in the further statements *)

(** No level-2 marker begins a line of [s]; [bol] tells whether the head
    of [s] begins a line. *)
Fixpoint markerFree (bol : bool) (s : list N) : bool :=
  match s with
  | [] => true
  | c :: s' => negb (bol && startsWith (js "## ") s) && markerFree (isLineTerminator c) s'
  end.

(** Two header maps that give the same answer for every key but the
    empty one. *)
Definition agree (fm1 fm2 : gmap (list N) (list N)) : Prop :=
  ∀ key, key ≠ [] → fm1 !! key = fm2 !! key.

(** What holds of every entry of a decoded header. *)
Definition headerEntry (key val : list N) : Prop :=
  key ≠ [] ∧ trim key = key ∧ (58 ∉ key) ∧ (LF ∉ key) ∧ key ≠ js "__proto__" ∧ (LF ∉ val).

(** The units of a slug: lower case letters, digits and the hyphen. *)
Definition isSlugOrHyphen (c : N) : bool := Slug.isSlugUnit c || (c =? 45).

(** The first of the two removals of [stripEnds], alone. *)
Definition stripHead (s : list N) : list N :=
  match s with c :: r => if c =? 45 then r else s | [] => [] end.

(** No two hyphens in a row. *)
Definition noDouble (s : list N) : Prop := includes [45; 45] s = false.

(** The units of a date as [today()] prints it. *)
Definition isDateUnit (c : N) : bool := isDigit c || (c =? 45).

(** A message text that the chat parser reads back: no level-2 marker at
    the start of one of its lines, and something else than white space. *)
Definition readable (content : list N) : bool :=
  markerFree true content && negb (bool_decide (trim content = [])).

(** The message the parser gives for a message written to a file. *)
Definition trimmedMessage (m : ChatLog.ChatMessage) : ChatLog.ChatMessage :=
  ChatLog.Message (ChatLog.role m) (trim (ChatLog.content m)).

(** The markup a span was read from. *)
Definition inlineSource (span : inline) : list N :=
  match span with
  | IText s => s
  | IStrong s => js "**" ++ s ++ js "**"
  | ICode s => [96] ++ s ++ [96]
  | ILink text href => js "[" ++ text ++ js "](" ++ href ++ js ")"
  | IEm s => js "*" ++ s ++ js "*"
  end.

(** The units that begin an inline pattern: star, backtick, opening bracket. *)
Definition isMarkupUnit (c : N) : bool := (c =? 42) || (c =? 96) || (c =? 91).

(** The level and title [parseSections] reads off a heading line. *)
Definition headingOf (line : list N) : option (nat * list N) :=
  match PlanContent.matchHeading (js "## ") line with
  | Some text => Some (2%nat, trim text)
  | None =>
      match PlanContent.matchHeading (js "### ") line with
      | Some text => Some (3%nat, trim text)
      | None => None
      end
  end.

(** The headings a state of [parseSections] has seen: those of the
    sections pushed and the one of the section being filled. *)
Definition heads (st : PlanContent.state) : list (nat * list N) :=
  map (λ s, (PlanContent.level s, PlanContent.title s)) (PlanContent.sections st)
  ++ match PlanContent.current st with Some h => [h] | None => [] end.

Definition isHeading (line : list N) : bool :=
  match headingOf line with Some _ => true | None => false end.

(** The lines a content adds after its heading line in a written body: the
    blank line that separates the two parts, and the lines of the content. *)
Definition clines (content : list N) : list (list N) :=
  if bool_decide (content = []) then [] else [] :: splitLines content.

(** The lines of the parts that follow the first part of a body. *)
Definition gapLines (parts : list (list N)) : list (list N) :=
  concat (map (λ p, [] :: splitLines p) parts).

(** Sections that [sectionsToBody] writes and [parseSections] reads back:
    level 2 or 3, a title that is trimmed, not empty and free of line
    terminators, a content that is trimmed and has no heading line. *)
Definition wellFormedSection (s : PlanContent.Section) : bool :=
  (bool_decide (PlanContent.level s = 2%nat) || bool_decide (PlanContent.level s = 3%nat))
  && negb (bool_decide (PlanContent.title s = []))
  && bool_decide (trim (PlanContent.title s) = PlanContent.title s)
  && forallb isDot (PlanContent.title s)
  && bool_decide (trim (PlanContent.content s) = PlanContent.content s)
  && forallb (λ l, negb (isHeading l)) (splitLines (PlanContent.content s)).

(** The text of a list item as it is written after the bullet: not empty,
    trimmed, on one line. *)
Definition itemText (item : list N) : bool :=
  negb (bool_decide (item = [])) && bool_decide (trim item = item)
  && bool_decide (LF ∉ item).

(** A bullet line. *)
Definition bulletLine (item : list N) : list N := js "- " ++ item.


(** The lines of the header of a new chat. *)
Definition actionItemLines (a : list N * bool) : list (list N) :=
  [js "  - task: \q" ++ a.1 ++ js "\q"; js "    done: " ++ (if a.2 then js "true" else js "false")].

Definition chatHeaderLines (date title : list N) (tags : list (list N)) (tldr : list N)
    (action_items : list (list N * bool)) : list (list N) :=
  [ js "title" ++ 58 :: js " " ++ quoted title;
    js "date" ++ 58 :: js " " ++ date;
    js "tags" ++ 58 :: js " " ++ McpChat.tagStr tags;
    js "tldr" ++ 58 :: js " " ++ quoted tldr;
    js "action_items" ++ 58 :: [] ]
  ++ match action_items with
     | [] => [js "  - task: \q\q"; js "    done: false"]
     | _ => concat (map actionItemLines action_items)
     end.

(** An element that is not a list without items. *)
Definition filled (e : element) : bool :=
  match e with
  | Ul [] | Ol [] | Checklist [] => false
  | _ => true
  end.

(** Values that [String] and the template literals convert without
    throwing: no object, at any depth, has an own property named
    [toString] (in a parsed request such a property is never a function,
    and the conversion of the object then raises a TypeError). *)
Fixpoint printable (v : jsval) : bool :=
  match v with
  | JArr elems => forallb printable elems
  | JObj props =>
      forallb (λ p, negb (bool_decide (p.1 = js "toString")) && printable p.2) props
  | _ => true
  end.
(** * Properties *)


(** Literals are kept folded by [simpl]; [js_eval] replaces them by their
    code units where a proof has to look inside. *)

Ltac js_eval :=
  repeat match goal with
    | |- context [js ?s] =>
        let v := eval vm_compute in (js s) in change (js s) with v
    end.

Ltac js_eval_in H :=
  repeat match type of H with
    | context [js ?s] =>
        let v := eval vm_compute in (js s) in change (js s) with v in H
    end.

(** ** Scans of a list by a test *)

Section Scan.

Context {A : Type} (f : A → bool).
Implicit Types l s pre : list A.

Lemma dropWhile_head s c r : dropWhile f s = c :: r → f c = false.
Proof.
  induction s as [|d s IH]; cbn; [done |].
  destruct (f d) eqn:Hd; [done |]. by intros [= -> _].
Qed.

Lemma takeWhile_all (l : list A) :
  Forall (λ x, f x = true) l → takeWhile f l = l.
Proof.
  induction 1 as [|x l Hx _ IH]; [done |]. cbn [takeWhile]. by rewrite Hx, IH.
Qed.

Lemma takeWhile_dropWhile (l : list A) :
  takeWhile f l ++ dropWhile f l = l.
Proof. induction l as [|x l IH]; [done |]. cbn. destruct (f x); cbn; by rewrite ?IH. Qed.

Lemma takeWhile_forallb (l : list A) :
  forallb f (takeWhile f l) = true.
Proof. induction l as [|x l IH]; [done |]. cbn. destruct (f x) eqn:E; cbn; by rewrite ?E. Qed.

Lemma dropWhile_app_all (pre l : list A) :
  forallb f pre = true → dropWhile f (pre ++ l) = dropWhile f l.
Proof.
  induction pre as [|x pre IH]; [done |]. cbn. rewrite andb_true_iff.
  intros [-> H]. by apply IH.
Qed.

Lemma forallb_reverse (l : list A) :
  forallb f (reverse l) = forallb f l.
Proof.
  induction l as [|x l IH]; [done |].
  rewrite reverse_cons, forallb_app, IH. cbn. rewrite andb_true_r. apply andb_comm.
Qed.

Lemma takeWhile_app_stop (l : list A) x r :
  forallb f l = true → f x = false → takeWhile f (l ++ x :: r) = l.
Proof.
  intros Hl Hx. induction l as [|y l IH]; cbn in *; [by rewrite Hx |].
  apply andb_true_iff in Hl as [-> Hl]. by rewrite IH.
Qed.

Lemma dropWhile_app_stop (l : list A) x r :
  forallb f l = true → f x = false → dropWhile f (l ++ x :: r) = x :: r.
Proof. intros Hl Hx. rewrite dropWhile_app_all by done. cbn. by rewrite Hx. Qed.

End Scan.

Lemma forallb_impl {A} (f g : A → bool) l :
  (∀ x, f x = true → g x = true) → forallb f l = true → forallb g l = true.
Proof. rewrite !forallb_forall. eauto. Qed.

Lemma omap_filter_None {A B} (f : A → option B) (P : A → Prop)
    `{∀ x, Decision (P x)} (l : list A) :
  (∀ x, ¬ P x → f x = None) → omap f (filter P l) = omap f l.
Proof.
  intros Hf. induction l as [|x l IH]; [done |].
  rewrite filter_cons. destruct (decide (P x)) as [Hx|Hx]; cbn [omap list_omap].
  - by rewrite IH.
  - by rewrite (Hf x Hx).
Qed.

(** ** Prefixes, occurrences and scans *)

Lemma startsWith_prefix p s : startsWith p s = true ↔ ∃ r, s = p ++ r.
Proof.
  revert s; induction p as [|a p IH]; intros s; simpl.
  - split; eauto.
  - destruct s as [|b s]; simpl.
    + split; [done | intros [r Hr]; done].
    + rewrite andb_true_iff, N.eqb_eq, IH. split.
      * intros [-> [r ->]]. eauto.
      * intros [r Hr]. injection Hr as -> ->. eauto.
Qed.

Lemma startsWith_app p r : startsWith p (p ++ r) = true.
Proof. apply startsWith_prefix. by exists r. Qed.

Lemma includes_spec p s : includes p s = true ↔ ∃ a b, s = a ++ p ++ b.
Proof.
  induction s as [|c s IH].
  - cbn [includes]. rewrite orb_false_r, startsWith_prefix. split.
    + intros [r ->]. by exists [], r.
    + intros (a & b & H). destruct a as [|x a]; [by exists b | done].
  - cbn [includes]. rewrite orb_true_iff, startsWith_prefix, IH. split.
    + intros [[r ->] | (a & b & ->)]; [by exists [], r | by exists (c :: a), b].
    + intros (a & b & H). destruct a as [|x a]; [left; by exists b |].
      right. injection H as -> ->. by exists a, b.
Qed.

Lemma indexOfUnit_fresh c k r : c ∉ k → indexOfUnit c (k ++ c :: r) = Some (length k).
Proof.
  induction k as [|d k IH]; cbn [app indexOfUnit length].
  - by rewrite N.eqb_refl.
  - rewrite not_elem_of_cons. intros [Hd Hk].
    rewrite (proj2 (N.eqb_neq d c)) by done. by rewrite (IH Hk).
Qed.

Lemma indexOfUnit_Some c s i :
  indexOfUnit c s = Some i ↔ ∃ a b, s = a ++ c :: b ∧ (c ∉ a) ∧ i = length a.
Proof.
  revert i. induction s as [|d s IH]; intros i; cbn [indexOfUnit].
  - split; [done |]. intros (a & b & H & _). by destruct a.
  - destruct (N.eqb_spec d c) as [->|Hd].
    + split.
      * intros [= <-]. exists [], s. split_and!; [done | apply not_elem_of_nil | done].
      * intros (a & b & H & Hc & ->). destruct a as [|x a]; [done |].
        injection H as -> _. exfalso. apply Hc. by left.
    + rewrite fmap_Some. split.
      * intros (j & (a & b & -> & Hc & ->)%IH & ->).
        exists (d :: a), b. split_and!; [done | | done].
        rewrite not_elem_of_cons. split; [congruence | done].
      * intros (a & b & H & Hc & ->). destruct a as [|x a]; [by injection H |].
        injection H as -> ->. apply not_elem_of_cons in Hc as [_ Hc].
        exists (length a). split; [|done]. apply IH. by exists a, b.
Qed.

Lemma lazyUntil_unfold pat s :
  lazyUntil pat s
  = if startsWith pat s then Some ([], drop (length pat) s)
    else match s with
         | [] => None
         | c :: s' => (λ '(a, r), (c :: a, r)) <$> lazyUntil pat s'
         end.
Proof. by destruct s. Qed.

Lemma lazyUntil_fresh pat a r :
  (∀ a1 a2, a = a1 ++ a2 → a2 ≠ [] → startsWith pat (a2 ++ pat ++ r) = false) →
  lazyUntil pat (a ++ pat ++ r) = Some (a, r).
Proof.
  induction a as [|c a IH]; intros Hfresh.
  - cbn [app]. rewrite lazyUntil_unfold, startsWith_app. by rewrite drop_app_length.
  - assert (Hc : startsWith pat ((c :: a) ++ pat ++ r) = false)
      by (by apply (Hfresh [] (c :: a))).
    rewrite lazyUntil_unfold, Hc. cbn [app]. rewrite IH; [done |].
    intros a1 a2 -> Hne. by apply (Hfresh (c :: a1) a2).
Qed.

Lemma expect_Some lit s r : expect lit s = Some r ↔ s = lit ++ r.
Proof.
  unfold expect. destruct (startsWith lit s) eqn:H.
  - apply startsWith_prefix in H as [r' ->]. rewrite drop_app_length. split.
    + by intros [= ->].
    + by intros ->%app_inv_head.
  - split; [done |]. intros ->. by rewrite startsWith_app in H.
Qed.

Lemma expect_length lit s r : expect lit s = Some r → (length r ≤ length s)%nat.
Proof. intros ->%expect_Some. rewrite length_app. lia. Qed.

(** ** Lines *)

Lemma splitLines_nonempty s : splitLines s ≠ [].
Proof.
  destruct s as [|c s]; [done |]. cbn [splitLines].
  destruct (c =? LF); [done |]. by destruct (splitLines s).
Qed.

Lemma splitLines_app_LF a r :
  splitLines (a ++ LF :: r) = splitLines a ++ splitLines r.
Proof.
  induction a as [|c a IH]; [done |].
  cbn [app splitLines]. rewrite IH.
  destruct (c =? LF); [done |].
  pose proof (splitLines_nonempty a). by destruct (splitLines a).
Qed.

Lemma splitLines_noLF l : LF ∉ l → splitLines l = [l].
Proof.
  induction l as [|c l IH]; [done |].
  rewrite not_elem_of_cons. intros [Hc Hl]. cbn [splitLines].
  rewrite (IH Hl). by rewrite (proj2 (N.eqb_neq c LF)).
Qed.

Lemma join_cons sep p q ps : join sep (p :: q :: ps) = p ++ sep ++ join sep (q :: ps).
Proof. done. Qed.

Lemma splitLines_join lines :
  lines ≠ [] → Forall (λ l, LF ∉ l) lines → splitLines (join [LF] lines) = lines.
Proof.
  induction lines as [|l lines IH]; [done |]. intros _ Hall.
  inversion_clear Hall as [|? ? Hl Hrest].
  destruct lines as [|l2 lines]; [by apply splitLines_noLF |].
  rewrite join_cons. cbn [app]. rewrite splitLines_app_LF, splitLines_noLF by done.
  by rewrite IH.
Qed.

Lemma splitLines_head_prefix p b :
  LF ∉ p → ∃ l ls, splitLines (p ++ b) = l :: ls ∧ startsWith p l = true.
Proof.
  induction p as [|c p IH].
  - intros _. pose proof (splitLines_nonempty b).
    destruct (splitLines b) as [|l ls] eqn:Hb; [done |]. by exists l, ls.
  - rewrite not_elem_of_cons. intros [Hc Hp].
    destruct (IH Hp) as (l & ls & Hl & Hs).
    exists (c :: l), ls. cbn [app splitLines]. rewrite Hl.
    rewrite (proj2 (N.eqb_neq c LF)) by done. split; [done |].
    cbn [startsWith]. by rewrite N.eqb_refl.
Qed.

Lemma splitLines_each_noLF s : Forall (λ l, LF ∉ l) (splitLines s).
Proof.
  induction s as [|c s IH]; cbn [splitLines].
  - constructor; [apply not_elem_of_nil | constructor].
  - destruct (N.eqb_spec c LF) as [->|Hc].
    + constructor; [apply not_elem_of_nil | done].
    + destruct (splitLines s) as [|l ls]; inversion_clear IH as [|? ? Hl Hls].
      * constructor; [|constructor]. rewrite not_elem_of_cons. split; [congruence | apply not_elem_of_nil].
      * constructor; [|done]. rewrite not_elem_of_cons. split; [congruence | done].
Qed.

Lemma join_splitLines s : join [LF] (splitLines s) = s.
Proof.
  induction s as [|c s IH]; [done |]. cbn [splitLines].
  pose proof (splitLines_nonempty s) as Hne.
  destruct (N.eqb_spec c LF) as [->|Hc].
  - destruct (splitLines s) as [|l ls] eqn:E; [done |].
    rewrite join_cons. cbn [app]. by rewrite IH.
  - destruct (splitLines s) as [|l [|l2 ls]] eqn:E; [done | |].
    + cbn [join] in *. by rewrite IH.
    + rewrite join_cons in *. by rewrite <- IH.
Qed.

(** ** Trimming *)

Lemma trimEnd_last s r c : trimEnd s = r ++ [c] → isSpace c = false.
Proof.
  unfold trimEnd. intros H. apply (f_equal reverse) in H.
  rewrite reverse_involutive, reverse_snoc in H.
  by apply dropWhile_head in H.
Qed.

Lemma trim_last s r c : trim s = r ++ [c] → isSpace c = false.
Proof. apply trimEnd_last. Qed.

Lemma trimStart_fixed t :
  (∀ c r, t = c :: r → isSpace c = false) → trimStart t = t.
Proof.
  destruct t as [|c r]; [done |]. intros H. unfold trimStart. cbn [dropWhile].
  by rewrite (H c r eq_refl).
Qed.

Lemma trimEnd_fixed t :
  (∀ r c, t = r ++ [c] → isSpace c = false) → trimEnd t = t.
Proof.
  intros H. unfold trimEnd.
  destruct t as [|c r] using rev_ind; [done |].
  rewrite reverse_snoc. cbn [dropWhile]. rewrite (H r c eq_refl).
  by rewrite reverse_cons, reverse_involutive.
Qed.

Lemma trim_fixed t :
  (∀ c r, t = c :: r → isSpace c = false) →
  (∀ r c, t = r ++ [c] → isSpace c = false) → trim t = t.
Proof. intros H1 H2. unfold trim. by rewrite trimStart_fixed, trimEnd_fixed. Qed.

Lemma trim_cons_space c t : isSpace c = true → trim (c :: t) = trim t.
Proof. intros H. unfold trim, trimStart. cbn [dropWhile]. by rewrite H. Qed.

Lemma trim_nonspace t : forallb (λ c, negb (isSpace c)) t = true → trim t = t.
Proof.
  intros H. rewrite forallb_forall in H. apply trim_fixed.
  - intros c r ->. apply negb_true_iff, H. by left.
  - intros r c ->. apply negb_true_iff, H, in_or_app. right. by left.
Qed.

Lemma trim_quoted s : trim (quoted s) = quoted s.
Proof.
  apply trim_fixed.
  - by intros c r [= <- _].
  - intros r c. unfold quoted. rewrite app_assoc. by intros [_ <-]%app_inj_tail.
Qed.

Lemma trim_trimmed_ends t :
  trim t = t → (∀ c r, t = c :: r → isSpace c = false).
Proof.
  intros Ht c r ->. unfold trim in Ht.
  destruct (isSpace c) eqn:Hc; [|done]. exfalso.
  assert (Hlen : (length (trimEnd (trimStart (c :: r))) ≤ length r)%nat).
  { unfold trimEnd. rewrite length_reverse.
    assert (∀ (f : N → bool) s, (length (dropWhile f s) ≤ length s)%nat) as Hdw.
    { intros f s. induction s as [|x s IH]; cbn; [lia |]. destruct (f x); cbn; lia. }
    etrans; [apply Hdw |]. rewrite length_reverse. unfold trimStart. cbn [dropWhile].
    rewrite Hc. apply Hdw. }
  rewrite Ht in Hlen. cbn in Hlen. lia.
Qed.

Lemma trim_decompose l :
  ∃ pre post, l = pre ++ trim l ++ post
    ∧ forallb isSpace pre = true ∧ forallb isSpace post = true.
Proof.
  exists (takeWhile isSpace l), (reverse (takeWhile isSpace (reverse (trimStart l)))).
  split_and!.
  - unfold trim, trimEnd.
    rewrite <- reverse_app, takeWhile_dropWhile, reverse_involutive.
    unfold trimStart. by rewrite takeWhile_dropWhile.
  - apply takeWhile_forallb.
  - rewrite forallb_reverse. apply takeWhile_forallb.
Qed.

Lemma trimEnd_app_all t post :
  forallb isSpace post = true → trimEnd (t ++ post) = trimEnd t.
Proof.
  intros H. unfold trimEnd. rewrite reverse_app, dropWhile_app_all; [done |].
  by rewrite forallb_reverse.
Qed.

(** A string that begins and ends with units that are not white space is
    what [trim] leaves of it, whatever white space surrounds it. *)
Lemma trim_sandwich pre t post :
  forallb isSpace pre = true → forallb isSpace post = true →
  (∀ c r, t = c :: r → isSpace c = false) →
  (∀ r c, t = r ++ [c] → isSpace c = false) →
  trim (pre ++ t ++ post) = t.
Proof.
  intros Hpre Hpost Hhead Hlast. unfold trim, trimStart.
  rewrite dropWhile_app_all by done.
  destruct t as [|c r].
  - cbn [app].
    assert (dropWhile isSpace post = []) as ->.
    { clear -Hpost. induction post as [|x post IH]; [done |]. cbn in *.
      apply andb_true_iff in Hpost as [-> H]. by apply IH. }
    done.
  - cbn [app dropWhile]. rewrite (Hhead c r eq_refl).
    change (c :: r ++ post) with ((c :: r) ++ post).
    rewrite trimEnd_app_all by done. by apply trimEnd_fixed.
Qed.

(** ** Filename safety *)

Lemma matchSafePattern_spec s :
  McpUtils.matchSafePattern s = true ↔ matchesMdxPattern s.
Proof.
  unfold matchesMdxPattern. change (js ".mdx") with McpUtils.dotMdx.
  induction s as [|c s IH]; simpl.
  - split; [done |]. intros (stem & Hne & _ & H). by destruct stem.
  - rewrite andb_true_iff, orb_true_iff, IH. unfold str_eqb.
    rewrite bool_decide_eq_true. split.
    + intros [Hc [-> | (stem & Hne & Hall & ->)]].
      * exists [c]. split_and!; [done | by constructor | done].
      * exists (c :: stem). split_and!; [done | by constructor | done].
    + intros (stem & Hne & Hall & H). destruct stem as [|d stem]; [done |].
      injection H as -> ->. inversion_clear Hall as [|? ? Hd Hall'].
      split; [done |]. destruct stem as [|e stem]; [by left | right].
      exists (e :: stem). by split_and!.
Qed.

(** C9: [isSafeFilename] holds exactly of the strings of the pattern
    [^[\w.-]+\.mdx$] that have no [..] inside; it accepts
    [2026-02-25-my-plan.mdx] and rejects [../secrets.mdx], [file.txt], the
    empty string and [subdir/file.mdx]. *)
Theorem isSafeFilename_spec :
  (∀ s, McpUtils.isSafeFilename s = true ↔ matchesMdxPattern s ∧ ¬ containsDotDot s)
  ∧ McpUtils.isSafeFilename (js "2026-02-25-my-plan.mdx") = true
  ∧ McpUtils.isSafeFilename (js "../secrets.mdx") = false
  ∧ McpUtils.isSafeFilename (js "file.txt") = false
  ∧ McpUtils.isSafeFilename (js "") = false
  ∧ McpUtils.isSafeFilename (js "subdir/file.mdx") = false.
Proof.
  split; [| by vm_compute].
  intros s. unfold McpUtils.isSafeFilename, containsDotDot.
  rewrite andb_true_iff, negb_true_iff, matchSafePattern_spec.
  by rewrite <- includes_spec, not_true_iff_false.
Qed.

(** ** The encoder *)

Lemma escapeString_units s : UpdatePlan.escapeString s = escapeUnits s.
Proof.
  unfold UpdatePlan.escapeString, escapeUnits.
  induction s as [|c s IH]; [done |].
  cbn [replaceAllUnit flat_map].
  destruct (c =? BACKSLASH) eqn:Hb.
  - apply N.eqb_eq in Hb as ->. cbn. by rewrite IH.
  - destruct (c =? DQUOTE) eqn:Hq; cbn [app replaceAllUnit orb]; rewrite Hq, IH;
      [apply N.eqb_eq in Hq as ->|]; done.
Qed.

Lemma buildLines_snoc data entry :
  UpdatePlan.buildLines (data ++ [entry])
  = (UpdatePlan.buildLines data ≫= λ lines, UpdatePlan.pushEntry lines entry).
Proof. unfold UpdatePlan.buildLines. by rewrite foldl_app. Qed.

Lemma pushEntry_append lines entry :
  UpdatePlan.pushEntry lines entry
  = ((lines ++.) <$> UpdatePlan.pushEntry [] entry).
Proof.
  unfold UpdatePlan.pushEntry. destruct entry as [key value].
  repeat case_match; cbn [fmap option_fmap option_map app]; rewrite ?app_nil_r; try done.
  by destruct (mapM _ _).
Qed.

Lemma buildLines_single entry :
  UpdatePlan.buildLines [entry] = UpdatePlan.pushEntry [] entry.
Proof. done. Qed.

Lemma buildLines_app d1 d2 :
  UpdatePlan.buildLines (d1 ++ d2)
  = appendLines (UpdatePlan.buildLines d1) (UpdatePlan.buildLines d2).
Proof.
  unfold appendLines.
  induction d2 as [|e d2 IH] using rev_ind.
  - rewrite app_nil_r. cbn. destruct (UpdatePlan.buildLines d1); cbn; [|done].
    by rewrite app_nil_r.
  - rewrite app_assoc, !buildLines_snoc, IH.
    destruct (UpdatePlan.buildLines d1) as [l1|]; cbn; [|done].
    destruct (UpdatePlan.buildLines d2) as [l2|]; cbn; [|done].
    rewrite (pushEntry_append (l1 ++ l2)), (pushEntry_append l2).
    destruct (UpdatePlan.pushEntry [] e) as [le|]; cbn; [|done].
    by rewrite app_assoc.
Qed.





(** ** Assembling a document *)

Lemma delimiter_fresh fm r a1 a2 :
  includes (js "\n---") fm = false →
  fm = a1 ++ a2 → a2 ≠ [] →
  startsWith (js "\n---") (a2 ++ js "\n---" ++ r) = false.
Proof.
  intros Hinc -> Hne. apply not_true_is_false. intros Hs.
  apply not_true_iff_false in Hinc. apply Hinc, includes_spec.
  apply startsWith_prefix in Hs as [r' Hr']. js_eval. js_eval_in Hr'.
  destruct a2 as [|c1 [|c2 [|c3 [|c4 a2]]]]; try done.
  injection Hr' as -> -> -> -> _. by exists a1, a2.
Qed.

Lemma milestoneLines_is_Some m :
  isNullish m = false → is_Some (UpdatePlan.milestoneLines m).
Proof. destruct m; by eauto. Qed.

Lemma mapM_milestoneLines_is_Some elems :
  forallb (λ m, negb (isNullish m)) elems = true →
  is_Some (mapM UpdatePlan.milestoneLines elems).
Proof.
  induction elems as [|m elems IH]; cbn [forallb mapM]; [by eauto |].
  rewrite andb_true_iff, negb_true_iff. intros [Hm Hrest].
  destruct (milestoneLines_is_Some m Hm) as [x ->].
  destruct (IH Hrest) as [y ->]. by eauto.
Qed.

Lemma encodable_buildLines data :
  encodable data = true → is_Some (UpdatePlan.buildLines data).
Proof.
  induction data as [|[key value] data IH]; [by eauto |].
  cbn [encodable forallb]. rewrite andb_true_iff. intros [He Hrest].
  change ((key, value) :: data) with ([(key, value)] ++ data).
  rewrite buildLines_app, buildLines_single.
  destruct (IH Hrest) as [l2 ->].
  unfold UpdatePlan.pushEntry.
  destruct (bool_decide (key = js "milestones") && isArray value).
  - destruct (mapM_milestoneLines_is_Some _ He) as [ms ->]. by eauto.
  - repeat case_match; by eauto.
Qed.




(** ** Decoding what the encoder wrote *)

Lemma join_no_delimiter lines :
  Forall (λ l, (LF ∉ l) ∧ startsWith (js "---") l = false) lines →
  includes (js "\n---") (join [LF] lines) = false.
Proof.
  intros Hall. apply not_true_is_false. intros Hinc.
  apply includes_spec in Hinc as (a & b & Heq).
  destruct lines as [|l0 lines]; [by destruct a |].
  assert (Hsplit : splitLines (join [LF] (l0 :: lines)) = l0 :: lines).
  { apply splitLines_join; [done |]. eapply Forall_impl; [exact Hall |]. by intros ? []. }
  rewrite Heq in Hsplit.
  change (js "\n---" ++ b) with (LF :: js "---" ++ b) in Hsplit.
  rewrite splitLines_app_LF in Hsplit.
  destruct (splitLines_head_prefix (js "---") b) as (l & ls & Hl & Hs).
  { apply (bool_decide_unpack _). by vm_compute. }
  rewrite Hl in Hsplit.
  assert (Hin : l ∈ l0 :: lines) by (rewrite <- Hsplit; set_solver).
  rewrite Forall_forall in Hall. destruct (Hall l Hin) as [_ Hno]. congruence.
Qed.

Lemma stripQuotes_quoted s :
  forallb isDot s = true → Decoder.stripQuotes (quoted s) = s.
Proof.
  intros Hs. unfold quoted, Decoder.stripQuotes. cbn [app].
  rewrite reverse_snoc. cbn [N.eqb andb].
  assert (forallb isDot (reverse s) = true) as ->.
  { apply forallb_forall. intros c Hc. rewrite forallb_forall in Hs.
    apply Hs. apply list_elem_of_In. apply list_elem_of_In in Hc.
    by apply elem_of_reverse. }
  by rewrite reverse_involutive.
Qed.

Lemma stripQuotes_unquoted t :
  (∀ r, t ≠ DQUOTE :: r) → Decoder.stripQuotes t = t.
Proof.
  intros H. destruct t as [|q rest]; [done |]. cbn [Decoder.stripQuotes].
  destruct (reverse rest); [done |].
  destruct (q =? DQUOTE) eqn:Hq; [|done].
  apply N.eqb_eq in Hq as ->. by destruct (H rest).
Qed.

Lemma digitUnits_digits u : forallb isDigit (digitUnits u) = true.
Proof. induction u; cbn [digitUnits forallb]; by rewrite ?IHu. Qed.

Lemma numberToString_units z :
  forallb (λ c, isDigit c || (c =? 45)) (numberToString z) = true.
Proof.
  assert (∀ u, forallb (λ c, isDigit c || (c =? 45)) (digitUnits u) = true) as Hd.
  { intros u. apply forallb_forall. intros c Hc.
    pose proof (digitUnits_digits u) as Hu. rewrite forallb_forall in Hu.
    by rewrite (Hu c Hc). }
  unfold numberToString. destruct (Z.to_int z); cbn [forallb]; by rewrite Hd.
Qed.

Lemma escapeUnits_plain s : forallb plainUnit s = true → escapeUnits s = s.
Proof.
  induction s as [|c s IH]; [done |]. cbn [forallb]. rewrite andb_true_iff.
  intros [Hc Hs]. unfold escapeUnits in *. cbn [flat_map]. rewrite (IH Hs).
  unfold plainUnit in Hc. rewrite !andb_true_iff, !negb_true_iff in Hc.
  destruct Hc as [[-> ->] _]. done.
Qed.

(** The text a plain scalar is written as, and what the decoder makes of it. *)
Lemma decode_value v :
  plainScalar v = true →
  Decoder.stripQuotes (trim (32 :: UpdatePlan.serializeYamlValue v)) = toString v
  ∧ LF ∉ UpdatePlan.serializeYamlValue v.
Proof.
  intros Hv. rewrite trim_cons_space by done.
  destruct v as [| |b|z|s| |]; try done; cbn [UpdatePlan.serializeYamlValue toString].
  - destruct b; split; try (by vm_compute); apply (bool_decide_unpack _); by vm_compute.
  - pose proof (numberToString_units z) as Hz. split.
    + rewrite trim_nonspace.
      * apply stripQuotes_unquoted. intros r Hr. rewrite Hr in Hz. done.
      * revert Hz. apply forallb_impl. intros c. unfold isDigit.
        rewrite orb_true_iff, andb_true_iff, N.eqb_eq, !N.leb_le.
        intros Hc. apply negb_true_iff.
        unfold isSpace. repeat (apply orb_false_intro); rewrite ?andb_false_iff, ?N.eqb_neq, ?N.leb_gt; lia.
    + intros Hin. rewrite forallb_forall in Hz.
      apply list_elem_of_In, Hz in Hin. done.
  - cbn [plainScalar] in Hv. rewrite escapeString_units, escapeUnits_plain by done.
    fold (quoted s). rewrite trim_quoted. split.
    + apply stripQuotes_quoted. revert Hv. apply forallb_impl. intros c.
      unfold plainUnit. rewrite !andb_true_iff. tauto.
    + unfold quoted. rewrite !elem_of_app, !list_elem_of_singleton.
      intros [|[Hin|]]; try done.
      rewrite forallb_forall in Hv. apply list_elem_of_In, Hv in Hin. done.
Qed.

Lemma plainKey_facts k :
  plainKey k = true →
  k ≠ [] ∧ trim k = k ∧ (58 ∉ k) ∧ (LF ∉ k) ∧ startsWith (js "---") k = false
  ∧ k ≠ js "__proto__".
Proof.
  unfold plainKey. rewrite !andb_true_iff, !negb_true_iff, !bool_decide_eq_false.
  rewrite bool_decide_eq_true. tauto.
Qed.

Lemma readLine_field fm e :
  plainField e = true →
  Decoder.readLine fm (fieldLine e) = <[e.1 := toString e.2]> fm.
Proof.
  destruct e as [k v]. unfold plainField, fieldLine. cbn [fst snd].
  rewrite andb_true_iff. intros [Hk Hv].
  apply plainKey_facts in Hk as (Hne & Htrim & Hcolon & _ & _ & Hproto).
  destruct (decode_value v Hv) as [Hval _].
  change (js ": " ++ ?x) with (58 :: 32 :: x).
  unfold Decoder.readLine. rewrite indexOfUnit_fresh by done.
  destruct k as [|c k'] eqn:Ek; [done |]. rewrite <- Ek in *.
  assert (Hc : isSpace c = false) by (apply (trim_trimmed_ends k Htrim c k'); by subst).
  assert (startsWith (js " ") (k ++ 58 :: 32 :: UpdatePlan.serializeYamlValue v) = false) as ->.
  { rewrite Ek. js_eval. cbn [app startsWith]. rewrite andb_true_r.
    destruct (N.eqb_spec 32 c) as [Heq|]; [|reflexivity].
    rewrite <- Heq in Hc. vm_compute in Hc. discriminate. }
  rewrite take_app_length.
  replace (drop (S (length k)) (k ++ 58 :: 32 :: UpdatePlan.serializeYamlValue v))
    with (32 :: UpdatePlan.serializeYamlValue v).
  2:{ rewrite (cons_middle 58), app_assoc, drop_app_length'; [done |].
      rewrite length_app. cbn. lia. }
  rewrite Htrim, Hval.
  rewrite bool_decide_eq_false_2 by done.
  unfold Decoder.assign. by rewrite bool_decide_eq_false_2.
Qed.

Lemma fieldLine_line e :
  plainField e = true → (LF ∉ fieldLine e) ∧ startsWith (js "---") (fieldLine e) = false.
Proof.
  destruct e as [k v]. unfold plainField, fieldLine. cbn [fst snd].
  rewrite andb_true_iff. intros [Hk Hv].
  apply plainKey_facts in Hk as (_ & _ & _ & Hlf & Hdash & _).
  destruct (decode_value v Hv) as [_ Hvlf]. split.
  - rewrite !not_elem_of_app. split_and!; [done | | done].
    apply (bool_decide_unpack _). by vm_compute.
  - revert Hdash. js_eval. generalize (UpdatePlan.serializeYamlValue v). intros t.
    destruct k as [|c1 [|c2 [|c3 k]]]; cbn [app startsWith];
      repeat (match goal with |- context [?a =? ?b] => destruct (N.eqb_spec a b); subst end;
              cbn [andb]; try done).
Qed.

Lemma buildLines_plain H :
  forallb plainField H = true → UpdatePlan.buildLines H = Some (map fieldLine H).
Proof.
  induction H as [|[k v] H IH]; [done |].
  cbn [forallb]. rewrite andb_true_iff. intros [He Hrest].
  change ((k, v) :: H) with ([(k, v)] ++ H).
  rewrite buildLines_app, buildLines_single, (IH Hrest).
  unfold plainField in He. cbn [fst snd] in He. apply andb_true_iff in He as [_ Hv].
  unfold UpdatePlan.pushEntry.
  destruct v; try done; cbn [isArray]; by rewrite !andb_false_r.
Qed.

Lemma readLines_plain H :
  NoDup H.*1 → forallb plainField H = true →
  foldl Decoder.readLine ∅ (map fieldLine H)
  = toString <$> (list_to_map H : gmap (list N) jsval).
Proof.
  induction H as [|[k v] H IH] using rev_ind; intros Hnd Hall.
  - cbn. by rewrite fmap_empty.
  - rewrite fmap_app in Hnd. apply NoDup_app in Hnd as (Hnd & Hfresh & _).
    rewrite forallb_app in Hall. apply andb_true_iff in Hall as [Hall He].
    cbn [forallb] in He. rewrite andb_true_r in He.
    rewrite map_app, foldl_app. cbn [map foldl].
    rewrite (IH Hnd Hall), readLine_field by done. cbn [fst snd].
    rewrite list_to_map_snoc, fmap_insert; [done |].
    intros Hin. apply (Hfresh k Hin). by apply list_elem_of_singleton.
Qed.

(** C1 (as amended): for a field map with distinct plain keys whose values
    are booleans, numbers, or strings free of backslashes, double quotes and
    line terminators, decoding the written document gives a map with the same
    keys, each bound to the text of its value (the string itself, or the bare
    text of the boolean or number). *)
Theorem decode_encode_scalars H B :
  NoDup H.*1 → forallb plainField H = true →
  ∃ doc, UpdatePlan.assembleDocument H B = Some doc
    ∧ Decoder.readFrontmatter doc = toString <$> (list_to_map H : gmap (list N) jsval).
Proof.
  intros Hnd Hall. unfold UpdatePlan.assembleDocument, UpdatePlan.buildFrontmatter.
  rewrite (buildLines_plain H Hall). cbn [fmap option_fmap option_map mbind option_bind].
  eexists; split; [done |].
  assert (Hlines : Forall (λ l, (LF ∉ l) ∧ startsWith (js "---") l = false) (map fieldLine H)).
  { apply Forall_forall. intros l [e [-> He]]%list_elem_of_fmap.
    apply fieldLine_line. rewrite forallb_forall in Hall. by apply Hall, list_elem_of_In. }
  unfold Decoder.readFrontmatter, Decoder.matchFrontmatter, UpdatePlan.documentText.
  rewrite startsWith_app.
  change (js "---\n" ++ ?x) with ([45; 45; 45; 10] ++ x).
  rewrite (drop_app_length [45; 45; 45; 10]).
  change (js "\n---\n\n") with (js "\n---" ++ js "\n\n"). rewrite <- (app_assoc (js "\n---")).
  rewrite lazyUntil_fresh.
  2:{ intros a1 a2. apply delimiter_fresh. by apply join_no_delimiter. }
  destruct H as [|e H].
  { change (list_to_map []) with (∅ : gmap (list N) jsval). by rewrite fmap_empty. }
  rewrite splitLines_join; [by apply readLines_plain | done |].
  eapply Forall_impl; [exact Hlines |]. by intros ? [].
Qed.

Lemma decode_encode_scalars_witness :
  NoDup [(js "title", JStr (js "My Plan")); (js "done", JBool true); (js "weeks", JNum 12)].*1
  ∧ forallb plainField
      [(js "title", JStr (js "My Plan")); (js "done", JBool true); (js "weeks", JNum 12)] = true
  ∧ ∃ doc,
      UpdatePlan.assembleDocument
        [(js "title", JStr (js "My Plan")); (js "done", JBool true); (js "weeks", JNum 12)]
        (js "body") = Some doc
      ∧ Decoder.readFrontmatter doc
        = toString <$> (list_to_map
            [(js "title", JStr (js "My Plan")); (js "done", JBool true); (js "weeks", JNum 12)]
            : gmap (list N) jsval).
Proof.
  assert (Hnd : NoDup [(js "title", JStr (js "My Plan")); (js "done", JBool true);
                       (js "weeks", JNum 12)].*1)
    by (apply (bool_decide_unpack _); by vm_compute).
  split_and!; [exact Hnd | by vm_compute |].
  apply decode_encode_scalars; [exact Hnd | by vm_compute].
Defined.

(** C1 as stated fails: the decoder does not undo the escaping of quotes. *)
Lemma quotes_not_unescaped :
  UpdatePlan.assembleDocument [(js "title", JStr (js "say \qhi\q"))] (js "")
  = Some (js "---\ntitle: \qsay \\\qhi\\\q\q\n---\n\n\n")
  ∧ Decoder.readFrontmatter (js "---\ntitle: \qsay \\\qhi\\\q\q\n---\n\n\n") !! js "title"
    = Some (js "say \\\qhi\\\q")
  ∧ Decoder.readFrontmatter (js "---\ntitle: \qsay \\\qhi\\\q\q\n---\n\n\n") !! js "title"
    ≠ Some (js "say \qhi\q").
Proof. split_and!; by vm_compute. Qed.

(** ** Chat messages *)

Lemma splitH2_nonempty bol s : ChatLog.splitH2 bol s ≠ [].
Proof.
  destruct s as [|c s]; [done |]. cbn [ChatLog.splitH2].
  destruct (bol && _).
  - by destruct s as [|? [|? ?]].
  - by destruct (ChatLog.splitH2 _ s).
Qed.

Lemma join_consHead sep c chunks :
  chunks ≠ [] → join sep (ChatLog.consHead c chunks) = c :: join sep chunks.
Proof. destruct chunks as [|l [|l2 ls]]; by try done. Qed.

Lemma join_nil_cons sep chunks :
  chunks ≠ [] → join sep ([] :: chunks) = sep ++ join sep chunks.
Proof. by destruct chunks. Qed.

Lemma join_splitH2 s : ∀ bol, join (js "## ") (ChatLog.splitH2 bol s) = s.
Proof.
  induction s as [s IH] using (induction_ltof1 _ (@length N)). unfold ltof in IH.
  intros bol. destruct s as [|c s]; [done |]. cbn [ChatLog.splitH2].
  destruct (bol && startsWith (js "## ") (c :: s)) eqn:Hm.
  - apply andb_true_iff in Hm as [_ Hs]. apply startsWith_prefix in Hs as [r Hr].
    js_eval_in Hr. injection Hr as -> ->.
    rewrite join_nil_cons by apply splitH2_nonempty.
    rewrite IH by (cbn; lia). done.
  - rewrite join_consHead by apply splitH2_nonempty.
    by rewrite IH by (cbn; lia).
Qed.

Lemma parseSection_spec chunk m :
  ChatLog.parseSection chunk = Some m ↔
  ∃ label rest, chunk = label ++ LF :: rest ∧ (LF ∉ label)
    ∧ toLowerCase (trim label) = roleName (ChatLog.role m)
    ∧ ChatLog.content m = trim rest ∧ trim rest ≠ [].
Proof.
  unfold ChatLog.parseSection. split.
  - destruct (indexOfUnit LF chunk) as [i|] eqn:Hi; [|done].
    apply indexOfUnit_Some in Hi as (label & rest & -> & Hlf & ->).
    rewrite take_app_length.
    rewrite (cons_middle LF), app_assoc, drop_app_length' by (rewrite length_app; cbn; lia).
    intros Hm. exists label, rest.
    repeat case_bool_decide; try done; injection Hm as <-; split_and!; try done;
      by rewrite <- app_assoc.
  - intros (label & rest & -> & Hlf & Hrole & Hcontent & Hne).
    rewrite indexOfUnit_fresh by done. rewrite take_app_length.
    rewrite (cons_middle LF), app_assoc, drop_app_length' by (rewrite length_app; cbn; lia).
    rewrite bool_decide_eq_false_2 by done. rewrite Hrole, <- Hcontent.
    destruct m as [[] content]; cbn [roleName ChatLog.role ChatLog.content].
    + by rewrite bool_decide_eq_true_2.
    + rewrite bool_decide_eq_false_2 by (by vm_compute). by rewrite bool_decide_eq_true_2.
Qed.

(** What holds of the chat parser: joining the chunks with the marker gives
    the body back (a level-3 marker does not cut); the messages are the
    chunks kept, in order, and a chunk is kept exactly when it has a first
    line that, trimmed and lowercased, is [user] or [ai], and the rest of the
    chunk, trimmed, is not empty; on the example of the specification
    exactly the two messages come out. *)
Lemma parseChatContent_spec :
  (∀ raw, join (js "## ") (ChatLog.splitH2 true raw) = raw)
  ∧ (∀ raw, ChatLog.parseChatContent raw
            = omap ChatLog.parseSection (ChatLog.splitH2 true raw))
  ∧ (∀ chunk m, ChatLog.parseSection chunk = Some m ↔
       ∃ label rest, chunk = label ++ LF :: rest ∧ (LF ∉ label)
         ∧ toLowerCase (trim label) = roleName (ChatLog.role m)
         ∧ ChatLog.content m = trim rest ∧ trim rest ≠ [])
  ∧ ChatLog.splitH2 true (js "### Deep\ntext") = [js "### Deep\ntext"]
  ∧ ChatLog.parseChatContent (js "## User\n\nhi\n\n## AI\n\nhello\n\n## Random\n\nignored")
    = [ChatLog.Message ChatLog.User (js "hi"); ChatLog.Message ChatLog.AI (js "hello")].
Proof.
  split_and!; [| | | by vm_compute | by vm_compute].
  - intros raw. apply join_splitH2.
  - intros raw. unfold ChatLog.parseChatContent. apply omap_filter_None.
    intros x Hx. apply dec_stable in Hx as ->. done.
  - apply parseSection_spec.
Qed.

(** C3: the text before the first level-2 marker is not discarded.  It is
    a chunk like the others, so a body that begins with the line [user] or
    [ai] gives a message that no heading introduces: the first input yields
    the preamble as a user message before the AI message, and a body
    without any heading yields a message as well. *)
Theorem parseChatContent_preamble_kept :
  ChatLog.parseChatContent (js "user\nhello\n## AI\n\nyo")
  = [ChatLog.Message ChatLog.User (js "hello"); ChatLog.Message ChatLog.AI (js "yo")]
  ∧ ChatLog.parseChatContent (js "AI\nnote") = [ChatLog.Message ChatLog.AI (js "note")].
Proof. split; by vm_compute. Qed.

(** ** Plan sections *)

Lemma foldl_step_no_heading lines st :
  Forall (λ line, PlanContent.matchHeading (js "## ") line = None
                  ∧ PlanContent.matchHeading (js "### ") line = None) lines →
  foldl PlanContent.step st lines
  = PlanContent.mkState (PlanContent.sections st) (PlanContent.current st)
      (PlanContent.contentLines st ++ lines).
Proof.
  intros Hall. revert st. induction Hall as [|line lines [H2 H3] _ IH]; intros st.
  - rewrite app_nil_r. by destruct st.
  - cbn [foldl]. rewrite IH. unfold PlanContent.step. rewrite H2, H3.
    cbn [PlanContent.sections PlanContent.current PlanContent.contentLines].
    by rewrite <- app_assoc.
Qed.

(** The part of C4 that holds: without heading lines there is no section,
    and the intro is the whole body, trimmed. *)
Lemma segment_no_heading body :
  Forall (λ line, PlanContent.matchHeading (js "## ") line = None
                  ∧ PlanContent.matchHeading (js "### ") line = None) (splitLines body) →
  Forall (λ line, PlanContent.isIntroEnd line = false) (splitLines body) →
  PlanContent.segment body = (trim body, []).
Proof.
  intros Hh Hi. unfold PlanContent.segment, PlanContent.intro, PlanContent.parseSections.
  rewrite foldl_step_no_heading by done. cbn.
  rewrite takeWhile_all; [by rewrite join_splitLines |].
  eapply Forall_impl; [exact Hi |]. intros l ->. done.
Qed.

(** C4: on a body with an intro, the lines before the first heading are
    also put into the content of the first section, and a level-3 heading
    does not end the intro. *)
Theorem segment_intro_leaks :
  PlanContent.segment (js "intro\n## A\ntext")
  = (js "intro", [PlanContent.mkSection 2 (js "A") (js "intro\ntext")])
  ∧ PlanContent.segment (js "intro\n### Sub\ntext")
    = (js "intro\n### Sub\ntext", [PlanContent.mkSection 3 (js "Sub") (js "intro\ntext")]).
Proof. split; by vm_compute. Qed.

(** ** The checklist toggle *)

Lemma isSpace_not_bracket c : isSpace c = true → (c =? 91) = false.
Proof.
  intros H. destruct (N.eqb_spec c 91) as [->|]; [|done]. by vm_compute in H.
Qed.

Lemma replaceFirstBox_skip a rest :
  (a =? 91) = false →
  EditablePlan.replaceFirstBox (a :: rest) = a :: EditablePlan.replaceFirstBox rest.
Proof. intros H. cbn [EditablePlan.replaceFirstBox]. rewrite H. by destruct rest as [|? [|? ?]]. Qed.

Lemma replaceFirst_skip pat repl a rest :
  startsWith pat (a :: rest) = false →
  EditablePlan.replaceFirst pat repl (a :: rest) = a :: EditablePlan.replaceFirst pat repl rest.
Proof. intros H. cbn [EditablePlan.replaceFirst]. by rewrite H. Qed.

Lemma replaceFirstBox_line pre m rest :
  forallb isSpace pre = true → isDot m = true →
  EditablePlan.replaceFirstBox (pre ++ [45; 32; 91; m; 93; 32] ++ rest)
  = pre ++ [45; 32; 91; 32; 93; 32] ++ rest.
Proof.
  intros Hpre Hm. induction pre as [|c pre IH].
  - cbn. by rewrite Hm.
  - cbn [forallb] in Hpre. apply andb_true_iff in Hpre as [Hc Hpre].
    rewrite <- app_comm_cons, replaceFirstBox_skip by by apply isSpace_not_bracket.
    by rewrite (IH Hpre).
Qed.

Lemma replaceFirst_line pre rest :
  forallb isSpace pre = true →
  EditablePlan.replaceFirst [91; 32; 93] [91; 120; 93] (pre ++ [45; 32; 91; 32; 93; 32] ++ rest)
  = pre ++ [45; 32; 91; 120; 93; 32] ++ rest.
Proof.
  intros Hpre. induction pre as [|c pre IH].
  - done.
  - cbn [forallb] in Hpre. apply andb_true_iff in Hpre as [Hc Hpre].
    rewrite <- app_comm_cons, replaceFirst_skip, (IH Hpre); [done |].
    cbn [startsWith]. by rewrite N.eqb_sym, (isSpace_not_bracket c Hc).
Qed.

Lemma checkLine_shape l mark text :
  trim l = checkLine mark text →
  ∃ pre post, l = pre ++ checkLine mark text ++ post
    ∧ forallb isSpace pre = true ∧ forallb isSpace post = true
    ∧ ∀ mark', trim (pre ++ checkLine mark' text ++ post) = checkLine mark' text.
Proof.
  intros Ht. destruct (trim_decompose l) as (pre & post & Hl & Hpre & Hpost).
  rewrite Ht in Hl. exists pre, post. split_and!; try done.
  intros mark'. apply trim_sandwich; try done.
  - by intros c r [= <- _].
  - intros r c Hr. unfold checkLine in *.
    destruct text as [|x text _] using rev_ind.
    + apply (trim_last l [45; 32; 91; mark; 93] 32) in Ht. by vm_compute in Ht.
    + rewrite app_assoc in Ht, Hr. apply app_inj_tail in Hr as [_ ->].
      by apply trim_last in Ht.
Qed.

Lemma checkLine_inj mark mark' text : checkLine mark text = checkLine mark' text → mark = mark'.
Proof. unfold checkLine. by intros [= ->]. Qed.

Lemma toggleLine_unchecked text l pre post :
  l = pre ++ checkLine 32 text ++ post → forallb isSpace pre = true →
  trim l = checkLine 32 text →
  EditablePlan.toggleLine text l = pre ++ checkLine 120 text ++ post.
Proof.
  intros -> Hpre Ht. unfold EditablePlan.toggleLine. js_eval.
  fold (checkLine 120 text) (checkLine 88 text) (checkLine 32 text). rewrite Ht.
  rewrite !bool_decide_eq_false_2 by (intros ?%checkLine_inj; done).
  rewrite bool_decide_eq_true_2 by done. cbn [orb].
  unfold checkLine. rewrite <- !app_assoc. by apply replaceFirst_line.
Qed.

Lemma toggleLine_checked text l pre post mark :
  mark = 120 ∨ mark = 88 →
  l = pre ++ checkLine mark text ++ post → forallb isSpace pre = true →
  trim l = checkLine mark text →
  EditablePlan.toggleLine text l = pre ++ checkLine 32 text ++ post.
Proof.
  intros Hmark -> Hpre Ht. unfold EditablePlan.toggleLine. js_eval.
  fold (checkLine 120 text) (checkLine 88 text) (checkLine 32 text). rewrite Ht.
  assert (bool_decide (checkLine mark text = checkLine 120 text)
          || bool_decide (checkLine mark text = checkLine 88 text) = true) as ->.
  { apply orb_true_iff. rewrite !bool_decide_eq_true.
    destruct Hmark as [-> | ->]; auto. }
  unfold checkLine. rewrite <- !app_assoc. apply replaceFirstBox_line; [done |].
  by destruct Hmark as [-> | ->].
Qed.

Lemma toggleLine_other text l :
  trim l ≠ checkLine 32 text → trim l ≠ checkLine 120 text → trim l ≠ checkLine 88 text →
  EditablePlan.toggleLine text l = l.
Proof.
  intros H1 H2 H3. unfold EditablePlan.toggleLine. js_eval.
  fold (checkLine 120 text) (checkLine 88 text) (checkLine 32 text).
  by rewrite !bool_decide_eq_false_2.
Qed.

Lemma checkLine_noLF pre mark mark' text post :
  mark' ≠ LF →
  LF ∉ pre ++ checkLine mark text ++ post → LF ∉ pre ++ checkLine mark' text ++ post.
Proof.
  intros Hm. unfold checkLine. rewrite !not_elem_of_app, !not_elem_of_cons.
  intros H. destruct_and!. by split_and!.
Qed.

(** What a click does to one line. *)
Lemma toggleLine_spec text l :
  (trim l = checkLine 32 text → trim (EditablePlan.toggleLine text l) = checkLine 120 text)
  ∧ (trim l = checkLine 120 text ∨ trim l = checkLine 88 text →
     trim (EditablePlan.toggleLine text l) = checkLine 32 text)
  ∧ (trim l ≠ checkLine 32 text → trim l ≠ checkLine 120 text →
     trim l ≠ checkLine 88 text → EditablePlan.toggleLine text l = l)
  ∧ (trim l ≠ checkLine 88 text →
     EditablePlan.toggleLine text (EditablePlan.toggleLine text l) = l)
  ∧ ((LF ∉ l) → LF ∉ EditablePlan.toggleLine text l).
Proof.
  destruct (decide (trim l = checkLine 32 text)) as [H32|H32].
  { destruct (checkLine_shape l 32 text H32) as (pre & post & Hl & Hpre & Hpost & Htrim).
    pose proof (toggleLine_unchecked text l pre post Hl Hpre H32) as Ht.
    rewrite Ht. split_and!.
    - intros _. apply Htrim.
    - intros [H | H]; rewrite H32 in H; by apply checkLine_inj in H.
    - done.
    - intros _. rewrite (toggleLine_checked text _ pre post 120); try done; auto.
    - rewrite Hl. by apply checkLine_noLF. }
  destruct (decide (trim l = checkLine 120 text ∨ trim l = checkLine 88 text)) as [Hx|Hx].
  { assert (∃ mark, (mark = 120 ∨ mark = 88) ∧ trim l = checkLine mark text)
      as (mark & Hmark & Hm) by (destruct Hx; eauto).
    destruct (checkLine_shape l mark text Hm) as (pre & post & Hl & Hpre & Hpost & Htrim).
    pose proof (toggleLine_checked text l pre post mark Hmark Hl Hpre Hm) as Ht.
    rewrite Ht. split_and!.
    - done.
    - intros _. apply Htrim.
    - intros _ H120 H88. destruct Hmark as [-> | ->]; done.
    - intros H88. destruct Hmark as [-> | ->]; [|done].
      by rewrite (toggleLine_unchecked text _ pre post).
    - rewrite Hl. by apply checkLine_noLF. }
  assert (H120 : trim l ≠ checkLine 120 text) by (intros H; apply Hx; by left).
  assert (H88 : trim l ≠ checkLine 88 text) by (intros H; apply Hx; by right).
  rewrite (toggleLine_other text l) by done.
  split_and!; try done. intros _. by apply toggleLine_other.
Qed.

Lemma splitLines_toggleChecklist content text :
  splitLines (EditablePlan.toggleChecklist content text)
  = map (EditablePlan.toggleLine text) (splitLines content).
Proof.
  unfold EditablePlan.toggleChecklist. apply splitLines_join.
  - pose proof (splitLines_nonempty content). by destruct (splitLines content).
  - apply Forall_fmap. eapply Forall_impl; [apply splitLines_each_noLF |].
    intros l Hl. by apply toggleLine_spec.
Qed.

(** C8 (as amended): a click on the item with text [text] rewrites the
    content line by line; a line whose trimmed text is the unchecked form
    [- [ ] text] becomes the checked form [- [x] text], a line whose trimmed
    text is a checked form, [- [x] text] or [- [X] text], becomes the
    unchecked form, whichever of them was clicked, and every other line is
    left as it is; when no line has the capital form, a second click gives
    the original content back. *)
Theorem toggleChecklist_spec content text :
  splitLines (EditablePlan.toggleChecklist content text)
  = map (EditablePlan.toggleLine text) (splitLines content)
  ∧ (∀ l, trim l = checkLine 32 text →
          trim (EditablePlan.toggleLine text l) = checkLine 120 text)
  ∧ (∀ l, trim l = checkLine 120 text ∨ trim l = checkLine 88 text →
          trim (EditablePlan.toggleLine text l) = checkLine 32 text)
  ∧ (∀ l, trim l ≠ checkLine 32 text → trim l ≠ checkLine 120 text →
          trim l ≠ checkLine 88 text → EditablePlan.toggleLine text l = l)
  ∧ (Forall (λ l, trim l ≠ checkLine 88 text) (splitLines content) →
     EditablePlan.toggleChecklist (EditablePlan.toggleChecklist content text) text = content).
Proof.
  split_and!; try (intros l; by apply toggleLine_spec).
  - apply splitLines_toggleChecklist.
  - intros Hcap. unfold EditablePlan.toggleChecklist at 1.
    rewrite splitLines_toggleChecklist, map_map.
    rewrite <- (join_splitLines content) at 2. f_equal.
    rewrite <- (map_id (splitLines content)) at 2. apply map_ext_Forall.
    eapply Forall_impl; [exact Hcap |]. intros l Hl. by apply toggleLine_spec.
Qed.

Lemma toggleChecklist_spec_witness :
  Forall (λ l, trim l ≠ checkLine 88 (js "Buy milk"))
    (splitLines (js "Shopping\n- [ ] Buy milk\n  - [x] Buy milk"))
  ∧ EditablePlan.toggleChecklist
      (EditablePlan.toggleChecklist (js "Shopping\n- [ ] Buy milk\n  - [x] Buy milk")
         (js "Buy milk")) (js "Buy milk")
    = js "Shopping\n- [ ] Buy milk\n  - [x] Buy milk".
Proof.
  assert (H : Forall (λ l, trim l ≠ checkLine 88 (js "Buy milk"))
                (splitLines (js "Shopping\n- [ ] Buy milk\n  - [x] Buy milk"))).
  { apply (bool_decide_unpack _). by vm_compute. }
  split; [exact H |].
  by apply (toggleChecklist_spec (js "Shopping\n- [ ] Buy milk\n  - [x] Buy milk") (js "Buy milk")).
Defined.

(** The example of the specification. *)
Lemma toggle_buy_milk :
  EditablePlan.toggleChecklist (js "- [ ] Buy milk") (js "Buy milk") = js "- [x] Buy milk"
  ∧ EditablePlan.toggleChecklist (js "- [x] Buy milk") (js "Buy milk") = js "- [ ] Buy milk".
Proof. split; by vm_compute. Qed.

(** C8 as stated fails: a capital mark does not come back after two clicks,
    and a click on an unchecked item also flips a checked line with the same
    item text. *)
Lemma toggle_not_involutive :
  EditablePlan.toggleChecklist (EditablePlan.toggleChecklist (js "- [X] a") (js "a")) (js "a")
  = js "- [x] a"
  ∧ EditablePlan.toggleChecklist (EditablePlan.toggleChecklist (js "- [X] a") (js "a")) (js "a")
    ≠ js "- [X] a"
  ∧ EditablePlan.toggleChecklist (js "- [ ] a\n- [x] a") (js "a") = js "- [x] a\n- [ ] a".
Proof. split_and!; by vm_compute. Qed.

(** ** The scanning loops end within their fuel *)

Lemma lazyPlus_length {A} (size : A → nat) (k : list N → option A) s inner a :
  (∀ r x, k r = Some x → (size x ≤ length r)%nat) →
  lazyPlus k s = Some (inner, a) → (size a < length s)%nat.
Proof.
  intros Hk. revert inner. induction s as [|c s IH]; intros inner; cbn [lazyPlus]; [done |].
  destruct (isDot c); [|done]. destruct (k s) as [x|] eqn:Hx.
  - intros [= _ <-]. apply Hk in Hx. cbn. lia.
  - destruct (lazyPlus k s) as [[inner' a']|]; [|done].
    intros [= _ <-]. specialize (IH inner' eq_refl). cbn. lia.
Qed.

Lemma lazyPlus_expect_length lit s inner rest :
  lazyPlus (expect lit) s = Some (inner, rest) → (length rest < length s)%nat.
Proof. apply (lazyPlus_length length). intros r x. apply expect_length. Qed.

Lemma matchInlineAt_length s span rest :
  matchInlineAt s = Some (span, rest) → (length rest < length s)%nat.
Proof.
  unfold matchInlineAt.
  assert (Hsimple : ∀ lit x r, expect lit s ≫= lazyPlus (expect lit) = Some (x, r) →
                               (length r < length s)%nat).
  { intros lit x r. destruct (expect lit s) as [s1|] eqn:E; [|done]. cbn.
    intros H%lazyPlus_expect_length. apply expect_length in E. lia. }
  destruct (expect (js "**") s ≫= _) as [[x r]|] eqn:E1.
  { intros [= _ <-]. by apply Hsimple in E1. }
  destruct (expect [96] s ≫= _) as [[x r]|] eqn:E2.
  { intros [= _ <-]. by apply Hsimple in E2. }
  destruct (expect (js "[") s ≫= _) as [[text [href r]]|] eqn:E3.
  { intros [= _ <-]. destruct (expect (js "[") s) as [s1|] eqn:E; [|done]. cbn in E3.
    apply (lazyPlus_length (λ p, length p.2)) in E3.
    - apply expect_length in E. cbn in E3. lia.
    - intros r0 [h r1]. destruct (expect (js "](") r0) as [r2|] eqn:E'; [|done]. cbn.
      intros H%lazyPlus_expect_length. apply expect_length in E'. lia. }
  destruct (expect (js "*") s ≫= _) as [[x r]|] eqn:E4; [|done].
  intros [= _ <-]. by apply Hsimple in E4.
Qed.

Lemma execInline_length s before span rest :
  execInline s = Some (before, span, rest) → (length rest < length s)%nat.
Proof.
  revert before span rest. induction s as [|c s IH]; intros before span rest; cbn [execInline].
  - destruct (matchInlineAt []) as [[sp r]|] eqn:E; [|done].
    intros [= _ _ <-]. by apply matchInlineAt_length in E.
  - destruct (matchInlineAt (c :: s)) as [[sp r]|] eqn:E.
    + intros [= _ _ <-]. by apply matchInlineAt_length in E.
    + destruct (execInline s) as [[[b sp] r]|]; [|done].
      intros [= _ _ <-]. specialize (IH b sp r eq_refl). cbn. lia.
Qed.

Lemma inlineLoop_fuel n m text :
  (length text < n)%nat → (length text < m)%nat → inlineLoop n text = inlineLoop m text.
Proof.
  revert m text. induction n as [|n IH]; intros m text Hn Hm; [lia |].
  destruct m as [|m]; [lia |]. cbn [inlineLoop].
  destruct (execInline text) as [[[before span] rest]|] eqn:E; [|done].
  apply execInline_length in E. by rewrite (IH m rest) by lia.
Qed.

Lemma matchFenceAt_length s lang code rest :
  ChatLog.matchFenceAt s = Some (lang, code, rest) → (length rest < length s)%nat.
Proof.
  unfold ChatLog.matchFenceAt.
  destruct (expect (js "```") s) as [r|] eqn:E1; [|done]. cbn.
  destruct (expect [LF] (dropWhile isWord r)) as [r'|] eqn:E2; [|done]. cbn.
  destruct (lazyUntil (js "```") r') as [[c rest']|] eqn:E3; [|done]. cbn.
  intros [= _ _ <-].
  apply expect_Some in E1 as ->. apply expect_length in E2.
  assert (length (dropWhile isWord r) ≤ length r)%nat.
  { rewrite <- (takeWhile_dropWhile isWord r) at 2. rewrite length_app. lia. }
  assert (length rest' ≤ length r')%nat; [|js_eval; rewrite length_app; cbn; lia].
  clear -E3. revert c E3. induction r' as [|x r' IH]; intros c; rewrite lazyUntil_unfold.
  - destruct (startsWith _ _); [|done]. by intros [= _ <-].
  - destruct (startsWith _ _).
    + intros [= _ <-]. rewrite length_drop. cbn [length]. lia.
    + destruct (lazyUntil _ r') as [[a b]|]; [|done]. intros [= _ <-].
      specialize (IH a eq_refl). cbn. lia.
Qed.

Lemma execFence_length s before lang code rest :
  ChatLog.execFence s = Some (before, lang, code, rest) → (length rest < length s)%nat.
Proof.
  revert before lang code rest.
  induction s as [|c s IH]; intros before lang code rest; cbn [ChatLog.execFence].
  - destruct (ChatLog.matchFenceAt []) as [[[l cd] r]|] eqn:E; [|done].
    intros [= _ _ _ <-]. by apply matchFenceAt_length in E.
  - destruct (ChatLog.matchFenceAt (c :: s)) as [[[l cd] r]|] eqn:E.
    + intros [= _ _ _ <-]. by apply matchFenceAt_length in E.
    + destruct (ChatLog.execFence s) as [[[[b l] cd] r]|]; [|done].
      intros [= _ _ _ <-]. specialize (IH b l cd r eq_refl). cbn. lia.
Qed.

Lemma parseBlocksLoop_fuel n m content :
  (length content < n)%nat → (length content < m)%nat →
  ChatLog.parseBlocksLoop n content = ChatLog.parseBlocksLoop m content.
Proof.
  revert m content. induction n as [|n IH]; intros m content Hn Hm; [lia |].
  destruct m as [|m]; [lia |]. cbn [ChatLog.parseBlocksLoop].
  destruct (ChatLog.execFence content) as [[[[before lang] code] rest]|] eqn:E; [|done].
  apply execFence_length in E. by rewrite (IH m rest) by lia.
Qed.

(** ** Fenced code in a chat message *)

Lemma fence_close_fresh code rest a1 a2 :
  includes (js "```") code = false → last code ≠ Some 96 →
  code = a1 ++ a2 → a2 ≠ [] →
  startsWith (js "```") (a2 ++ js "```" ++ rest) = false.
Proof.
  intros Hinc Hlast -> Hne. apply not_true_is_false. intros Hs.
  apply not_true_iff_false in Hinc.
  apply startsWith_prefix in Hs as [r' Hr']. js_eval_in Hr'.
  destruct a2 as [|c1 [|c2 [|c3 a2]]]; try done.
  - injection Hr' as -> _. apply Hlast. by rewrite last_app.
  - injection Hr' as -> -> _. apply Hlast. by rewrite last_app.
  - injection Hr' as -> -> -> _. apply Hinc, includes_spec. by exists a1, a2.
Qed.

Lemma matchFenceAt_here lang code rest :
  forallb isWord lang = true →
  includes (js "```") code = false → last code ≠ Some 96 →
  ChatLog.matchFenceAt (js "```" ++ lang ++ [LF] ++ code ++ js "```" ++ rest)
  = Some (lang, code, rest).
Proof.
  intros Hlang Hinc Hlast. unfold ChatLog.matchFenceAt.
  rewrite (proj2 (expect_Some _ _ _) eq_refl). cbn [mbind option_bind app].
  rewrite dropWhile_app_stop, takeWhile_app_stop by done.
  rewrite (proj2 (expect_Some [LF] (LF :: code ++ js "```" ++ rest) _) eq_refl).
  cbn [mbind option_bind]. rewrite lazyUntil_fresh; [done |].
  intros a1 a2. by apply fence_close_fresh.
Qed.

Lemma matchFenceAt_before pre p1 p2 tail :
  includes (js "```") pre = false → pre = p1 ++ p2 → p2 ≠ [] →
  ChatLog.matchFenceAt (p2 ++ js "```" ++ tail) = None.
Proof.
  intros Hinc -> Hne. apply not_true_iff_false in Hinc.
  unfold ChatLog.matchFenceAt, expect. js_eval.
  destruct p2 as [|c1 [|c2 [|c3 p2]]]; [done | | |]; cbn [app startsWith length drop].
  - by destruct (96 =? c1).
  - by destruct (96 =? c1), (96 =? c2).
  - destruct (N.eqb_spec 96 c1) as [<-|]; cbn [andb]; [|done].
    destruct (N.eqb_spec 96 c2) as [<-|]; cbn [andb]; [|done].
    destruct (N.eqb_spec 96 c3) as [<-|]; cbn [andb]; [|done].
    exfalso. apply Hinc, includes_spec. by exists p1, p2.
Qed.

Lemma execFence_unfold s :
  ChatLog.execFence s
  = match ChatLog.matchFenceAt s with
    | Some (lang, code, rest) => Some ([], lang, code, rest)
    | None =>
        match s with
        | [] => None
        | c :: s' =>
            (λ '(before, lang, code, rest), (c :: before, lang, code, rest))
              <$> ChatLog.execFence s'
        end
    end.
Proof. by destruct s. Qed.

Lemma execFence_first pre lang code rest :
  includes (js "```") pre = false → forallb isWord lang = true →
  includes (js "```") code = false → last code ≠ Some 96 →
  ChatLog.execFence (pre ++ js "```" ++ lang ++ [LF] ++ code ++ js "```" ++ rest)
  = Some (pre, lang, code, rest).
Proof.
  intros Hpre Hlang Hcode Hlast.
  assert (Hbefore : ∀ p1 p2, pre = p1 ++ p2 → p2 ≠ [] →
            ChatLog.matchFenceAt (p2 ++ js "```" ++ lang ++ [LF] ++ code ++ js "```" ++ rest)
            = None) by (intros p1 p2; by apply matchFenceAt_before).
  clear Hpre. induction pre as [|c pre IH].
  - rewrite app_nil_l, execFence_unfold. by rewrite matchFenceAt_here.
  - rewrite execFence_unfold, (Hbefore [] (c :: pre)) by done.
    rewrite <- app_comm_cons, IH; [done |].
    intros p1 p2 -> Hne. by apply (Hbefore (c :: p1) p2).
Qed.

(** C5 (as amended): in a chat message made of a text without triple
    backtick, an opening fence (three backticks, a possibly empty run of word
    characters, a newline), a code text that holds no triple backtick and
    does not end with a backtick, and a closing triple backtick, the code is
    carried as one code block, with its trailing white space removed and the
    language [text] when the tag is empty; it is handed to the code
    component and not to the line classifier, and what follows the closing
    fence is treated as a message content of its own. *)
Theorem fenced_code_verbatim pre lang code rest :
  includes (js "```") pre = false → forallb isWord lang = true →
  includes (js "```") code = false → last code ≠ Some 96 →
  ChatLog.parseBlocks (pre ++ js "```" ++ lang ++ [LF] ++ code ++ js "```" ++ rest)
  = ChatLog.textBlock pre
    ++ [ChatLog.CodeBlock (if bool_decide (lang = []) then js "text" else lang) (trimEnd code)]
    ++ ChatLog.parseBlocks rest
  ∧ ChatLog.renderMessage (pre ++ js "```" ++ lang ++ [LF] ++ code ++ js "```" ++ rest)
    = map ChatLog.renderPart (ChatLog.textBlock pre)
      ++ [ChatLog.CodePart (if bool_decide (lang = []) then js "text" else lang) (trimEnd code)]
      ++ ChatLog.renderMessage rest.
Proof.
  intros Hpre Hlang Hcode Hlast.
  assert (Hparse :
    ChatLog.parseBlocks (pre ++ js "```" ++ lang ++ [LF] ++ code ++ js "```" ++ rest)
    = ChatLog.textBlock pre
      ++ [ChatLog.CodeBlock (if bool_decide (lang = []) then js "text" else lang) (trimEnd code)]
      ++ ChatLog.parseBlocks rest).
  { unfold ChatLog.parseBlocks at 1. cbn [ChatLog.parseBlocksLoop].
    rewrite execFence_first by done. do 2 f_equal.
    apply parseBlocksLoop_fuel; [|lia].
    pose proof (execFence_length _ _ _ _ _ (execFence_first pre lang code rest Hpre Hlang Hcode Hlast)).
    lia. }
  split; [done |]. unfold ChatLog.renderMessage. by rewrite Hparse, !map_app.
Qed.

Lemma fenced_code_verbatim_witness :
  includes (js "```") (js "intro\n") = false ∧ forallb isWord (js "js") = true
  ∧ includes (js "```") (js "- item\n> quote\n") = false
  ∧ last (js "- item\n> quote\n") ≠ Some 96
  ∧ ChatLog.renderMessage
      (js "intro\n" ++ js "```" ++ js "js" ++ [LF] ++ js "- item\n> quote\n" ++ js "```"
       ++ js "\nafter")
    = map ChatLog.renderPart (ChatLog.textBlock (js "intro\n"))
      ++ [ChatLog.CodePart (if bool_decide (js "js" = []) then js "text" else js "js")
            (trimEnd (js "- item\n> quote\n"))]
      ++ ChatLog.renderMessage (js "\nafter").
Proof.
  split_and!; [by vm_compute | by vm_compute | by vm_compute | by vm_compute |].
  apply (fenced_code_verbatim (js "intro\n") (js "js") (js "- item\n> quote\n") (js "\nafter"));
    by vm_compute.
Defined.

(** C5 as stated fails: the section renderer of a plan knows no fence, and
    classifies the line inside it as a list item; in a chat message a fence
    whose tag is not made of word characters is not recognised either. *)
Lemma fence_lines_classified :
  PlanContent.renderBlock (js "```\n- item\n```")
  = Some [P [ICode (js "`")]; Ul [LiText [IText (js "item")]]; P [ICode (js "`")]]
  ∧ ChatLog.renderMessage (js "```c++\n- item\n```")
    = [ChatLog.TextPart
         [P [ICode (js "`"); IText (js "c++")]; Ul [LiText [IText (js "item")]];
          P [ICode (js "`")]]].
Proof. split; by vm_compute. Qed.

(** ** The three block renderers on their common lines *)

Lemma renderInline_same text :
  ChatLog.renderInlineMarkdown text = PlanContent.renderInline text
  ∧ PlanContent.renderInline text = EditablePlan.renderInline text.
Proof. done. Qed.

Lemma plan_flushUl c : PlanContent.flushUl (toPlan c) = toPlan (ChatLog.flushUl c).
Proof. by destruct c as [els [|li lis] ol]. Qed.

Lemma plan_flushOl c : PlanContent.flushOl (toPlan c) = toPlan (ChatLog.flushOl c).
Proof. by destruct c as [els lis [|o ol]]. Qed.

Lemma plan_flushChecklist c : PlanContent.flushChecklist (toPlan c) = toPlan c.
Proof. done. Qed.

Lemma plan_flushAll c :
  PlanContent.flushAll (toPlan c) = toPlan (ChatLog.flushOl (ChatLog.flushUl c)).
Proof.
  unfold PlanContent.flushAll. by rewrite plan_flushUl, plan_flushOl, plan_flushChecklist.
Qed.

Lemma plan_push e c : PlanContent.push e (toPlan c) = toPlan (ChatLog.push e c).
Proof. done. Qed.

Lemma commonLine_facts line :
  commonLine line = true →
  PlanContent.checkMatch (trim line) = None ∧ isRule (trim line) = false
  ∧ (startsWith (js ">") (trim line) = true →
     matchCallout PlanContent.isEmoji (quoteText (trim line)) = None).
Proof.
  unfold commonLine. rewrite !andb_true_iff, orb_true_iff, !negb_true_iff.
  rewrite !bool_decide_eq_true. intros [[H1 H2] H3]. split_and!; [done | done |].
  intros Hq. destruct H3 as [H3|H3]; congruence.
Qed.

Lemma plan_step c line :
  commonLine line = true →
  PlanContent.rstep (toPlan c) line = toPlan (ChatLog.step c line).
Proof.
  intros (Hcheck & Hrule & Hcall)%commonLine_facts.
  unfold PlanContent.rstep, ChatLog.step. cbn zeta.
  rewrite Hcheck, Hrule.
  case_bool_decide; [apply plan_flushAll |].
  destruct (isBullet (trim line)).
  { by rewrite plan_flushOl, plan_flushChecklist. }
  destruct (orderedItem (trim line)) as [item|].
  { by rewrite plan_flushUl, plan_flushChecklist. }
  destruct (startsWith (js ">") (trim line)) eqn:Hq.
  - rewrite (Hcall eq_refl). by rewrite plan_flushAll, plan_push.
  - by rewrite plan_flushAll, plan_push.
Qed.

Lemma plan_foldl lines c :
  Forall (λ l, commonLine l = true) lines →
  foldl PlanContent.rstep (toPlan c) lines = toPlan (foldl ChatLog.step c lines).
Proof.
  intros Hall. revert c. induction Hall as [|l lines Hl _ IH]; intros c; [done |].
  cbn [foldl]. by rewrite plan_step, IH.
Qed.

Lemma edit_flushUl c :
  plainItems c → EditablePlan.flushUl (toEdit c) = toEdit (ChatLog.flushUl c).
Proof.
  destruct c as [els [|li lis] ol]; [done |]. intros Hall.
  unfold plainItems, EditablePlan.flushUl, ChatLog.flushUl, toEdit in *.
  cbn [ChatLog.listItems ChatLog.elements ChatLog.olItems
       EditablePlan.ulBuf EditablePlan.elements EditablePlan.olBuf] in *.
  do 4 f_equal. apply map_ext_Forall.
  eapply Forall_impl; [exact Hall |]. intros x Hx. unfold EditablePlan.renderItem.
  by rewrite Hx.
Qed.

Lemma edit_flushOl c : EditablePlan.flushOl (toEdit c) = toEdit (ChatLog.flushOl c).
Proof. by destruct c as [els lis [|o ol]]. Qed.

Lemma plainItems_flushUl c : plainItems (ChatLog.flushUl c).
Proof. destruct c as [els [|li lis] ol]; by constructor. Qed.

Lemma plainItems_flushOl c : plainItems c → plainItems (ChatLog.flushOl c).
Proof. by destruct c as [els lis [|o ol]]. Qed.

Lemma isEmoji_subclass cp : EditablePlan.isEmoji cp = true → PlanContent.isEmoji cp = true.
Proof.
  unfold EditablePlan.isEmoji, PlanContent.isEmoji. rewrite !orb_true_iff. tauto.
Qed.

Lemma matchCallout_subclass q :
  matchCallout PlanContent.isEmoji q = None → matchCallout EditablePlan.isEmoji q = None.
Proof.
  unfold matchCallout. destruct (firstCodePoint q) as [[[cp icon] rest]|]; [|done].
  destruct (EditablePlan.isEmoji cp) eqn:He; [|done].
  by rewrite (isEmoji_subclass cp He).
Qed.

Lemma checkItem_bullet trimmed :
  isBullet trimmed = true → PlanContent.checkMatch trimmed = None →
  EditablePlan.checkItem (drop 2 trimmed) = None.
Proof.
  destruct trimmed as [|a [|b [|c [|d [|e [|f rest]]]]]]; try done.
  cbn [isBullet PlanContent.checkMatch EditablePlan.checkItem drop].
  intros ->. cbn [andb]. destruct (c =? 91); [|done]. cbn [andb].
  destruct ((d =? 32) || (d =? 120) || (d =? 88)); [|done]. cbn [andb].
  destruct (e =? 93); [|done]. cbn [andb].
  destruct (N.eqb_spec f 32) as [->|]; [|done]. cbn. by destruct (dotPlus rest).
Qed.

Lemma edit_step c line :
  commonLine line = true → plainItems c →
  EditablePlan.cstep (toEdit c) line = toEdit (ChatLog.step c line)
  ∧ plainItems (ChatLog.step c line).
Proof.
  intros (Hcheck & Hrule & Hcall)%commonLine_facts Hplain.
  unfold EditablePlan.cstep, ChatLog.step. cbn zeta. rewrite Hrule.
  case_bool_decide.
  { rewrite edit_flushUl, edit_flushOl by done.
    split; [done |]. apply plainItems_flushOl, plainItems_flushUl. }
  destruct (isBullet (trim line)) eqn:Hb.
  { rewrite edit_flushOl. split; [done |].
    apply plainItems_flushOl in Hplain. unfold plainItems in *. cbn.
    apply Forall_app. split; [done |]. constructor; [|done]. by apply checkItem_bullet. }
  destruct (orderedItem (trim line)) as [item|].
  { rewrite edit_flushUl by done. split; [done |].
    pose proof (plainItems_flushUl c). by unfold plainItems in *. }
  assert (plainItems (ChatLog.flushOl (ChatLog.flushUl c)))
    by apply plainItems_flushOl, plainItems_flushUl.
  destruct (startsWith (js ">") (trim line)) eqn:Hq.
  - rewrite (matchCallout_subclass _ (Hcall eq_refl)).
    by rewrite edit_flushUl, edit_flushOl.
  - by rewrite edit_flushUl, edit_flushOl.
Qed.

Lemma edit_foldl lines c :
  Forall (λ l, commonLine l = true) lines → plainItems c →
  foldl EditablePlan.cstep (toEdit c) lines = toEdit (foldl ChatLog.step c lines)
  ∧ plainItems (foldl ChatLog.step c lines).
Proof.
  intros Hall. revert c. induction Hall as [|l lines Hl _ IH]; intros c Hc; [done |].
  cbn [foldl]. destruct (edit_step c l Hl Hc) as [-> Hc']. by apply IH.
Qed.

(** C6 (as amended): the chat renderer and the two section renderers are
    separate functions.  Their inline parsers are the same function.  On a
    non-empty content none of whose lines is a checklist item, a horizontal
    rule or an emoji callout, the three block renderers build the same
    elements. *)
Theorem renderers_agree_on_common_lines :
  (∀ text, ChatLog.renderInlineMarkdown text = PlanContent.renderInline text
           ∧ PlanContent.renderInline text = EditablePlan.renderInline text)
  ∧ ∀ content,
      content ≠ [] → Forall (λ l, commonLine l = true) (splitLines content) →
      PlanContent.renderBlock content = Some (ChatLog.renderTextBlock content)
      ∧ EditablePlan.ContentRenderer content = ChatLog.renderTextBlock content.
Proof.
  split; [apply renderInline_same |]. intros content Hne Hall. split.
  - unfold PlanContent.renderBlock, ChatLog.renderTextBlock.
    rewrite bool_decide_eq_false_2 by done.
    change (PlanContent.mkRState [] [] [] []) with (toPlan (ChatLog.mkState [] [] [])).
    by rewrite plan_foldl, plan_flushAll.
  - unfold EditablePlan.ContentRenderer, ChatLog.renderTextBlock.
    change (EditablePlan.mkCState [] [] []) with (toEdit (ChatLog.mkState [] [] [])).
    destruct (edit_foldl (splitLines content) (ChatLog.mkState [] [] []) Hall) as [-> Hplain];
      [by constructor |].
    by rewrite edit_flushUl, edit_flushOl.
Qed.

Lemma renderers_agree_witness :
  js "Intro **bold**\n- a\n- b\n\n1. one\n> quote" ≠ []
  ∧ Forall (λ l, commonLine l = true) (splitLines (js "Intro **bold**\n- a\n- b\n\n1. one\n> quote"))
  ∧ PlanContent.renderBlock (js "Intro **bold**\n- a\n- b\n\n1. one\n> quote")
    = Some (ChatLog.renderTextBlock (js "Intro **bold**\n- a\n- b\n\n1. one\n> quote"))
  ∧ EditablePlan.ContentRenderer (js "Intro **bold**\n- a\n- b\n\n1. one\n> quote")
    = ChatLog.renderTextBlock (js "Intro **bold**\n- a\n- b\n\n1. one\n> quote").
Proof.
  assert (H1 : js "Intro **bold**\n- a\n- b\n\n1. one\n> quote" ≠ []) by by vm_compute.
  assert (H2 : Forall (λ l, commonLine l = true)
                 (splitLines (js "Intro **bold**\n- a\n- b\n\n1. one\n> quote")))
    by (apply (bool_decide_unpack _); by vm_compute).
  split_and!; [exact H1 | exact H2 | |];
    by apply (proj2 renderers_agree_on_common_lines _ H1 H2).
Defined.

(** C6 as stated fails: a line of three hyphens is a paragraph in a chat
    message and a rule in a plan section; a checklist line is a plain bullet
    in a chat message, a checklist in the plan view and a checkbox item in
    the editable plan. *)
Lemma renderers_differ :
  ChatLog.renderTextBlock (js "---") = [P [IText (js "---")]]
  ∧ PlanContent.renderBlock (js "---") = Some [Hr]
  ∧ PlanContent.renderBlock (js "---") ≠ Some (ChatLog.renderTextBlock (js "---"))
  ∧ ChatLog.renderTextBlock (js "- [ ] a") = [Ul [LiText [IText (js "[ ] a")]]]
  ∧ PlanContent.renderBlock (js "- [ ] a") = Some [Checklist [(false, [IText (js "a")])]]
  ∧ EditablePlan.ContentRenderer (js "- [ ] a") = [Ul [LiCheck false [IText (js "a")]]].
Proof. split_and!; by vm_compute. Qed.

(** ** The frontmatter update tool *)

(** C10: the block is put back with a replacement text in which a doubled
    dollar sign stands for a single one, so a line that no field names is
    changed: updating [title] also rewrites the [note] line, and an update
    with no field at all rewrites it as well. *)
Theorem update_frontmatter_dollar :
  McpServer.update_frontmatter
    (Some (js "---\ntitle: \qA\q\nnote: \qUS$$\q\n---\n\nBody\n")) (js "plan.mdx")
    [(js "title", JStr (js "B"))]
  = McpServer.Updated (js "---\ntitle: \qB\q\nnote: \qUS$\q\n---\n\nBody\n") [js "title"]
  ∧ McpServer.update_frontmatter
      (Some (js "---\ntitle: \qA\q\nnote: \qUS$$\q\n---\n\nBody\n")) (js "plan.mdx") []
    = McpServer.Updated (js "---\ntitle: \qA\q\nnote: \qUS$\q\n---\n\nBody\n") [].
Proof. split; by vm_compute. Qed.

(** * Further properties of the code *)

(** ** The encoder of the write endpoint: when it throws *)

Lemma milestoneLines_nullish m :
  isNullish m = true → UpdatePlan.milestoneLines m = None.
Proof. by destruct m. Qed.

Lemma mapM_milestoneLines_nullish elems :
  forallb (λ m, negb (isNullish m)) elems = false →
  mapM UpdatePlan.milestoneLines elems = None.
Proof.
  induction elems as [|m elems IH]; cbn [forallb mapM]; [done |].
  rewrite andb_false_iff, negb_false_iff. intros [Hm | Hrest].
  - by rewrite milestoneLines_nullish.
  - rewrite (IH Hrest). by destruct (UpdatePlan.milestoneLines m).
Qed.

Lemma buildLines_not_encodable data :
  encodable data = false → UpdatePlan.buildLines data = None.
Proof.
  induction data as [|[key value] data IH]; [done |].
  change ((key, value) :: data) with ([(key, value)] ++ data).
  rewrite buildLines_app, buildLines_single. cbn [encodable forallb app].
  rewrite andb_false_iff. intros [He | Hrest].
  - unfold UpdatePlan.pushEntry.
    destruct (bool_decide (key = js "milestones") && isArray value); [|done].
    by rewrite (mapM_milestoneLines_nullish _ He).
  - rewrite (IH Hrest). unfold appendLines. by destruct (UpdatePlan.pushEntry _ _).
Qed.

(** X1: for a field map in which no object has an own property named
    [toString] (so that no conversion to a string throws),
    [buildFrontmatter] throws exactly when the array under the key
    [milestones] holds a [null] or [undefined] element. *)
Theorem buildFrontmatter_throws_iff data :
  forallb (λ e, printable e.2) data = true →
  (UpdatePlan.buildFrontmatter data = None ↔ encodable data = false).
Proof.
  intros _. unfold UpdatePlan.buildFrontmatter. split.
  - intros H. destruct (encodable data) eqn:He; [|done].
    destruct (encodable_buildLines data He) as [l Hl]. by rewrite Hl in H.
  - intros H. by rewrite (buildLines_not_encodable data H).
Qed.

Lemma buildFrontmatter_throws_iff_witness :
  forallb (λ e, printable e.2)
    [(js "title", JObj [(js "a", JNum 1)]); (js "milestones", JArr [JStr (js "m"); JNull])] = true
  ∧ (UpdatePlan.buildFrontmatter
       [(js "title", JObj [(js "a", JNum 1)]); (js "milestones", JArr [JStr (js "m"); JNull])]
     = None
     ↔ encodable
         [(js "title", JObj [(js "a", JNum 1)]); (js "milestones", JArr [JStr (js "m"); JNull])]
       = false).
Proof.
  split; [by vm_compute |].
  apply (buildFrontmatter_throws_iff
           [(js "title", JObj [(js "a", JNum 1)]); (js "milestones", JArr [JStr (js "m"); JNull])]).
  by vm_compute.
Defined.

(** ** Trimming, again *)

Lemma trimEnd_prefix t : ∃ post, t = trimEnd t ++ post ∧ forallb isSpace post = true.
Proof.
  exists (reverse (takeWhile isSpace (reverse t))). split.
  - unfold trimEnd. by rewrite <- reverse_app, takeWhile_dropWhile, reverse_involutive.
  - rewrite forallb_reverse. apply takeWhile_forallb.
Qed.

Lemma trim_head s c r : trim s = c :: r → isSpace c = false.
Proof.
  unfold trim. intros H.
  destruct (trimEnd_prefix (trimStart s)) as (post & Hpost & _).
  rewrite H in Hpost. cbn in Hpost. by apply dropWhile_head in Hpost.
Qed.

Lemma trim_idem s : trim (trim s) = trim s.
Proof. apply trim_fixed; intros ? ? H; [by eapply trim_head | by eapply trim_last]. Qed.

Lemma trim_trimmed_last t : trim t = t → ∀ r c, t = r ++ [c] → isSpace c = false.
Proof. intros Ht r c E. rewrite E in Ht. by eapply trim_last. Qed.

Lemma trim_app_spaces s w : forallb isSpace w = true → trim (s ++ w) = trim s.
Proof.
  intros Hw. destruct (trim_decompose s) as (pre & post & Hs & Hpre & Hpost).
  rewrite Hs at 1. rewrite <- !app_assoc.
  apply trim_sandwich; [done | | |].
  - by rewrite forallb_app, Hpost, Hw.
  - intros c r. apply trim_head.
  - intros r c. apply trim_last.
Qed.

Lemma trim_spaces w : forallb isSpace w = true → trim w = [].
Proof. intros Hw. by rewrite <- (app_nil_l w), trim_app_spaces. Qed.

Lemma allLF_spaces w : forallb (N.eqb LF) w = true → forallb isSpace w = true.
Proof. apply forallb_impl. by intros c <-%N.eqb_eq. Qed.

Lemma indexOfUnit_None c s : indexOfUnit c s = None ↔ c ∉ s.
Proof.
  induction s as [|d s IH]; cbn [indexOfUnit].
  - split; [intros _; apply not_elem_of_nil | done].
  - rewrite not_elem_of_cons. destruct (N.eqb_spec d c) as [->|Hd].
    + split; [done | by intros [? _]].
    + rewrite fmap_None, IH. split; [intros ?; split; congruence | by intros [_ ?]].
Qed.

Lemma parseSection_app_LF chunk w :
  forallb (N.eqb LF) w = true → ChatLog.parseSection (chunk ++ w) = ChatLog.parseSection chunk.
Proof.
  intros Hw. destruct w as [|x w]; [by rewrite app_nil_r |].
  unfold ChatLog.parseSection.
  destruct (indexOfUnit LF chunk) as [i|] eqn:Hi.
  - apply indexOfUnit_Some in Hi as (label & rest & -> & Hlf & ->).
    rewrite <- app_assoc, <- app_comm_cons, indexOfUnit_fresh by done.
    rewrite !take_app_length.
    replace (label ++ LF :: rest ++ x :: w) with ((label ++ [LF]) ++ rest ++ x :: w)
      by by rewrite <- app_assoc.
    replace (label ++ LF :: rest) with ((label ++ [LF]) ++ rest) by by rewrite <- app_assoc.
    rewrite !drop_app_length' by (rewrite length_app; cbn; lia).
    by rewrite (trim_app_spaces rest) by by apply allLF_spaces.
  - apply indexOfUnit_None in Hi. cbn [forallb] in Hw.
    apply andb_true_iff in Hw as [<-%N.eqb_eq Hw].
    rewrite indexOfUnit_fresh by done.
    rewrite (cons_middle LF), app_assoc, drop_app_length' by (rewrite length_app; cbn; lia).
    rewrite trim_spaces by by apply allLF_spaces. done.
Qed.

(** ** Chat messages: what the parser gives, and what the tools write *)

Lemma parseChatContent_omap raw :
  ChatLog.parseChatContent raw = omap ChatLog.parseSection (ChatLog.splitH2 true raw).
Proof.
  unfold ChatLog.parseChatContent. apply omap_filter_None.
  intros x Hx. apply dec_stable in Hx as ->. done.
Qed.

(** X2: every message the chat parser returns has a content that is not
    empty and carries no white space at either end. *)
Theorem parseChatContent_contents raw m :
  m ∈ ChatLog.parseChatContent raw →
  ChatLog.content m ≠ [] ∧ trim (ChatLog.content m) = ChatLog.content m.
Proof.
  rewrite parseChatContent_omap, list_elem_of_omap.
  intros (chunk & _ & Hm).
  apply parseSection_spec in Hm as (label & rest & _ & _ & _ & -> & Hne).
  split; [done | apply trim_idem].
Qed.

Lemma parseChatContent_contents_witness :
  ChatLog.Message ChatLog.AI (js "hello") ∈ ChatLog.parseChatContent (js "## AI\n\n  hello \n")
  ∧ js "hello" ≠ [] ∧ trim (js "hello") = js "hello".
Proof.
  assert (H : ChatLog.Message ChatLog.AI (js "hello")
              ∈ ChatLog.parseChatContent (js "## AI\n\n  hello \n")).
  { vm_compute. by left. }
  split; [exact H |].
  exact (parseChatContent_contents (js "## AI\n\n  hello \n")
           (ChatLog.Message ChatLog.AI (js "hello")) H).
Defined.

(** The marker is not completed by what follows a string that is empty or
    ends with a line feed. *)
Lemma startsWith_marker_app s y :
  (∀ r c, s = r ++ [c] → c = LF) →
  s ≠ [] →
  startsWith (js "## ") (s ++ y) = startsWith (js "## ") s.
Proof.
  intros Hlast Hne. js_eval.
  destruct s as [|a [|b [|c s]]]; [done | | |].
  - rewrite (Hlast [] a eq_refl). done.
  - rewrite (Hlast [a] b eq_refl). cbn. by rewrite andb_false_r.
  - cbn. done.
Qed.

Lemma consHead_app c A B : A ≠ [] → ChatLog.consHead c (A ++ B) = ChatLog.consHead c A ++ B.
Proof. by destruct A. Qed.

Lemma splitH2_at_marker s : ∀ bol y,
  (∀ r c, s = r ++ [c] → c = LF) → (s = [] → bol = true) →
  ChatLog.splitH2 bol (s ++ js "## " ++ y) = ChatLog.splitH2 bol s ++ ChatLog.splitH2 false y.
Proof.
  induction s as [s IH] using (induction_ltof1 _ (@length N)). unfold ltof in IH.
  intros bol y Hlast Hbol. destruct s as [|c s].
  - rewrite Hbol by done. done.
  - rewrite <- app_comm_cons. cbn [ChatLog.splitH2].
    rewrite (app_comm_cons s), startsWith_marker_app by done.
    destruct (bol && startsWith (js "## ") (c :: s)) eqn:Hm.
    + apply andb_true_iff in Hm as [_ Hs]. apply startsWith_prefix in Hs as [r Hr].
      js_eval_in Hr. injection Hr as -> ->. cbn [app].
      rewrite IH; [done | cbn; lia | |].
      * intros r' c' ->. apply (Hlast ([35; 35; 32] ++ r') c'). done.
      * intros ->. by specialize (Hlast [35; 35] 32 eq_refl).
    + rewrite IH; [| cbn; lia | |].
      * rewrite consHead_app by apply splitH2_nonempty. done.
      * intros r' c' ->. apply (Hlast (c :: r') c'). done.
      * intros ->. by rewrite (Hlast [] c eq_refl).
Qed.

Lemma splitH2_markerFree s : ∀ bol, markerFree bol s = true → ChatLog.splitH2 bol s = [s].
Proof.
  induction s as [|c s IH]; intros bol; [done |].
  cbn [markerFree ChatLog.splitH2]. rewrite andb_true_iff, negb_true_iff.
  intros [-> Hrest]. by rewrite (IH _ Hrest).
Qed.

Lemma startsWith_marker_LF s w :
  forallb (N.eqb LF) w = true →
  startsWith (js "## ") (s ++ w) = startsWith (js "## ") s.
Proof.
  intros Hw. js_eval.
  destruct s as [|a [|b [|c s]]]; [| | | done].
  all: destruct w as [|x w]; [by rewrite ?app_nil_r |].
  all: cbn [forallb] in Hw; apply andb_true_iff in Hw as [<-%N.eqb_eq _].
  all: cbn; by rewrite ?andb_false_r.
Qed.

Lemma splitH2_app_LF s : ∀ bol w,
  forallb (N.eqb LF) w = true →
  ∃ chunks c, ChatLog.splitH2 bol s = chunks ++ [c]
    ∧ ChatLog.splitH2 bol (s ++ w) = chunks ++ [c ++ w].
Proof.
  induction s as [s IH] using (induction_ltof1 _ (@length N)). unfold ltof in IH.
  intros bol w Hw. destruct s as [|c s].
  - exists [], []. split; [done |]. cbn [app]. apply splitH2_markerFree.
    clear IH. revert bol. induction w as [|x w IHw]; intros bol; [done |].
    cbn [forallb] in Hw. apply andb_true_iff in Hw as [<-%N.eqb_eq Hw].
    cbn [markerFree]. rewrite (IHw Hw). js_eval. cbn. by rewrite andb_false_r.
  - rewrite <- app_comm_cons. cbn [ChatLog.splitH2].
    rewrite (app_comm_cons s), startsWith_marker_LF by done.
    destruct (bol && startsWith (js "## ") (c :: s)) eqn:Hm.
    + apply andb_true_iff in Hm as [_ Hs]. apply startsWith_prefix in Hs as [r Hr].
      js_eval_in Hr. injection Hr as -> ->. cbn [app].
      destruct (IH r ltac:(cbn; lia) false w Hw) as (chunks & c & -> & ->).
      by exists ([] :: chunks), c.
    + destruct (IH s ltac:(cbn; lia) (isLineTerminator c) w Hw) as (chunks & c0 & -> & ->).
      destruct chunks as [|h t].
      * by exists [], (c :: c0).
      * by exists ((c :: h) :: t), c0.
Qed.

Lemma parseChatContent_app_LF s w :
  forallb (N.eqb LF) w = true →
  ChatLog.parseChatContent (s ++ w) = ChatLog.parseChatContent s.
Proof.
  intros Hw. rewrite !parseChatContent_omap.
  destruct (splitH2_app_LF s true w Hw) as (chunks & c & -> & ->).
  rewrite !omap_app. cbn [omap list_omap]. by rewrite parseSection_app_LF.
Qed.

Lemma parseChatContent_at_marker s y :
  (∀ r c, s = r ++ [c] → c = LF) →
  ChatLog.parseChatContent (s ++ js "## " ++ y)
  = ChatLog.parseChatContent s ++ omap ChatLog.parseSection (ChatLog.splitH2 false y).
Proof.
  intros Hs. rewrite !parseChatContent_omap.
  by rewrite splitH2_at_marker, omap_app.
Qed.

Lemma headingOf_roleName r : toLowerCase (trim (McpChat.headingOf r)) = roleName r.
Proof. by destruct r; vm_compute. Qed.

Lemma parseSection_message r content :
  markerFree true content = true → trim content ≠ [] →
  omap ChatLog.parseSection
    (ChatLog.splitH2 false (McpChat.headingOf r ++ js "\n\n" ++ content))
  = [ChatLog.Message r (trim content)].
Proof.
  intros Hfree Hne. rewrite splitH2_markerFree.
  - cbn [omap list_omap].
    assert (ChatLog.parseSection (McpChat.headingOf r ++ js "\n\n" ++ content)
            = Some (ChatLog.Message r (trim content))) as ->; [|done].
    apply parseSection_spec. exists (McpChat.headingOf r), (LF :: content).
    cbn [ChatLog.role ChatLog.content]. rewrite trim_cons_space by done.
    split_and!; [done | | apply headingOf_roleName | done | done].
    destruct r; apply (bool_decide_unpack _); by vm_compute.
  - destruct r; unfold McpChat.headingOf; js_eval; cbn; by rewrite Hfree.
Qed.

(** The text before the first marker is read by the rule of every chunk. *)
Lemma parseChatContent_preamble p y :
  markerFree true p = true → (∀ r c, p = r ++ [c] → c = LF) →
  ChatLog.parseChatContent (p ++ js "## " ++ y)
  = option_list (ChatLog.parseSection p)
    ++ omap ChatLog.parseSection (ChatLog.splitH2 false y).
Proof.
  intros Hfree Hlast. rewrite parseChatContent_at_marker by done. f_equal.
  rewrite parseChatContent_omap, splitH2_markerFree by done. cbn [omap list_omap].
  by destruct (ChatLog.parseSection p).
Qed.

Lemma readable_facts content :
  readable content = true ↔ markerFree true content = true ∧ trim content ≠ [].
Proof.
  unfold readable. rewrite andb_true_iff, negb_true_iff, bool_decide_eq_false. done.
Qed.

Lemma parseChatContent_addition body r content :
  readable content = true →
  ChatLog.parseChatContent (body ++ McpChat.addition r content)
  = ChatLog.parseChatContent body ++ [ChatLog.Message r (trim content)].
Proof.
  intros [Hfree Hne]%readable_facts. unfold McpChat.addition.
  replace (body ++ js "\n\n## " ++ McpChat.headingOf r ++ js "\n\n" ++ content)
    with ((body ++ [LF; LF]) ++ js "## " ++ McpChat.headingOf r ++ js "\n\n" ++ content)
    by (js_eval; by rewrite <- !app_assoc).
  rewrite parseChatContent_at_marker.
  - by rewrite parseChatContent_app_LF, parseSection_message.
  - intros r' c. change [LF; LF] with ([LF] ++ [LF]). rewrite (app_assoc body).
    by intros [_ ->]%app_inj_tail.
Qed.

(** X3: appending a message with [add_message] adds exactly one message
    at the end of what the chat view shows: for a text with no level-2
    marker at the start of a line and more than white space, the parse of
    the lengthened body is the parse of the body followed by the new
    message, its text trimmed. *)
Theorem add_message_appends body r content :
  readable content = true →
  ChatLog.parseChatContent (body ++ McpChat.addition r content)
  = ChatLog.parseChatContent body ++ [ChatLog.Message r (trim content)].
Proof. apply parseChatContent_addition. Qed.

Lemma add_message_appends_witness :
  readable (js "What about `## x`?\n") = true
  ∧ ChatLog.parseChatContent
      (js "## User\n\nhi\n\n## AI\n\nhello\n" ++ McpChat.addition ChatLog.User (js "What about `## x`?\n"))
    = ChatLog.parseChatContent (js "## User\n\nhi\n\n## AI\n\nhello\n")
      ++ [ChatLog.Message ChatLog.User (trim (js "What about `## x`?\n"))].
Proof.
  split; [by vm_compute |].
  apply (add_message_appends (js "## User\n\nhi\n\n## AI\n\nhello\n") ChatLog.User
           (js "What about `## x`?\n")).
  by vm_compute.
Defined.

Lemma join_snoc sep parts x :
  parts ≠ [] → join sep (parts ++ [x]) = join sep parts ++ sep ++ x.
Proof.
  induction parts as [|p [|q parts] IH]; [done | done |]. intros _.
  change ((p :: q :: parts) ++ [x]) with (p :: q :: (parts ++ [x])).
  rewrite !join_cons. change (q :: parts ++ [x]) with ((q :: parts) ++ [x]).
  rewrite IH by done. by rewrite <- !app_assoc.
Qed.

Lemma chatBody_snoc msgs m :
  msgs ≠ [] →
  McpChat.chatBody (msgs ++ [m])
  = McpChat.chatBody msgs ++ McpChat.addition (ChatLog.role m) (ChatLog.content m).
Proof.
  intros Hne. unfold McpChat.chatBody.
  destruct msgs as [|m0 msgs]; [done |].
  change (join (js "\n\n") (map McpChat.messageText ((m0 :: msgs) ++ [m]))
          = join (js "\n\n") (map McpChat.messageText (m0 :: msgs))
            ++ McpChat.addition (ChatLog.role m) (ChatLog.content m)).
  rewrite map_app. change (map McpChat.messageText [m]) with [McpChat.messageText m].
  rewrite join_snoc by done. unfold McpChat.addition, McpChat.messageText.
  by js_eval.
Qed.

(** X4: the body [create_chat] writes for a non-empty list of messages is
    read back by the chat view as these messages, in order, each text
    trimmed, whatever line feeds surround the body, provided each text has
    no level-2 marker at the start of a line and more than white space. *)
Theorem create_chat_round_trip pre post msgs :
  forallb (N.eqb LF) pre = true → forallb (N.eqb LF) post = true →
  msgs ≠ [] → forallb (λ m, readable (ChatLog.content m)) msgs = true →
  ChatLog.parseChatContent (pre ++ McpChat.chatBody msgs ++ post) = map trimmedMessage msgs.
Proof.
  intros Hpre Hpost. revert post Hpost.
  induction msgs as [|m msgs IH] using rev_ind; [done |].
  intros post Hpost _. rewrite forallb_app, andb_true_iff. cbn [forallb].
  rewrite andb_true_r. intros [Hmsgs Hm].
  rewrite map_app. cbn [map]. rewrite (app_assoc pre), parseChatContent_app_LF by done.
  destruct msgs as [|m0 msgs].
  - cbn [app map]. change (McpChat.chatBody [m]) with (McpChat.messageText m).
    unfold McpChat.messageText.
    rewrite parseChatContent_at_marker.
    + rewrite <- (app_nil_l pre), parseChatContent_app_LF by done.
      apply readable_facts in Hm as [Hfree Hne].
      by rewrite parseSection_message.
    + intros r c ->. rewrite forallb_app in Hpre. cbn [forallb] in Hpre.
      apply andb_true_iff in Hpre as [_ Hc]. rewrite andb_true_r in Hc.
      by apply N.eqb_eq in Hc.
  - rewrite chatBody_snoc by done. rewrite app_assoc, parseChatContent_addition by done.
    rewrite <- (app_nil_r (McpChat.chatBody _)), IH by done. done.
Qed.

Lemma create_chat_round_trip_witness :
  forallb (N.eqb LF) [LF] = true ∧ forallb (N.eqb LF) [LF] = true
  ∧ [ChatLog.Message ChatLog.User (js "hi"); ChatLog.Message ChatLog.AI (js " - a\n### b ")] ≠ []
  ∧ forallb (λ m, readable (ChatLog.content m))
      [ChatLog.Message ChatLog.User (js "hi"); ChatLog.Message ChatLog.AI (js " - a\n### b ")]
    = true
  ∧ ChatLog.parseChatContent
      ([LF] ++ McpChat.chatBody
         [ChatLog.Message ChatLog.User (js "hi"); ChatLog.Message ChatLog.AI (js " - a\n### b ")]
       ++ [LF])
    = map trimmedMessage
        [ChatLog.Message ChatLog.User (js "hi"); ChatLog.Message ChatLog.AI (js " - a\n### b ")].
Proof.
  split_and!; [by vm_compute | by vm_compute | done | by vm_compute |].
  apply (create_chat_round_trip [LF] [LF]
           [ChatLog.Message ChatLog.User (js "hi"); ChatLog.Message ChatLog.AI (js " - a\n### b ")]);
    by vm_compute.
Defined.

(** ** Slugs and the file names made of them *)

Lemma stripEnds_alt s : Slug.stripEnds s = reverse (stripHead (reverse (stripHead s))).
Proof.
  unfold Slug.stripEnds. fold (stripHead s).
  destruct (reverse (stripHead s)) as [|c r] eqn:Hr; [done |]. cbn [stripHead].
  destruct (c =? 45); [done |]. by rewrite <- Hr, reverse_involutive.
Qed.

Lemma noDouble_cons c s : noDouble (c :: s) → noDouble s.
Proof. unfold noDouble. cbn [includes]. by intros [_ ?]%orb_false_iff. Qed.

Lemma noDouble_reverse s : noDouble s → noDouble (reverse s).
Proof.
  unfold noDouble. rewrite <- !not_true_iff_false, !includes_spec.
  intros H (a & b & E). apply H. exists (reverse b), (reverse a).
  apply (f_equal reverse) in E. rewrite reverse_involutive in E.
  rewrite E, !reverse_app. by rewrite <- app_assoc.
Qed.

Lemma stripHead_noDouble s : noDouble s → noDouble (stripHead s).
Proof.
  destruct s as [|c r]; [done |]. cbn [stripHead]. destruct (c =? 45); [|done].
  apply noDouble_cons.
Qed.

Lemma stripHead_head s c r : noDouble s → stripHead s = c :: r → c ≠ 45.
Proof.
  destruct s as [|x s]; [done |]. cbn [stripHead]. destruct (N.eqb_spec x 45) as [->|Hx].
  - intros Hs -> ->. by vm_compute in Hs.
  - by intros _ [= <- _].
Qed.

Lemma stripHead_units s :
  forallb isSlugOrHyphen s = true → forallb isSlugOrHyphen (stripHead s) = true.
Proof.
  destruct s as [|c r]; [done |]. cbn [stripHead]. destruct (c =? 45); [|done].
  cbn [forallb]. by intros [_ ?]%andb_true_iff.
Qed.

Lemma collapse_units s : ∀ b, forallb isSlugOrHyphen (Slug.collapse b s) = true.
Proof.
  induction s as [|c s IH]; intros b; [done |]. cbn [Slug.collapse].
  destruct (Slug.isSlugUnit c) eqn:Hc; [|destruct b]; cbn [forallb]; rewrite ?IH; try done.
  unfold isSlugOrHyphen. by rewrite Hc.
Qed.

Lemma collapse_noDouble s : ∀ b,
  noDouble (Slug.collapse b s)
  ∧ (b = true → ∀ r, Slug.collapse b s ≠ 45 :: r).
Proof.
  induction s as [|c s IH]; intros b; [done |]. cbn [Slug.collapse].
  destruct (Slug.isSlugUnit c) eqn:Hc; [|destruct b].
  - destruct (IH false) as [Hnd _]. split.
    + unfold noDouble in *. cbn [includes]. rewrite Hnd, orb_false_r.
      cbn [startsWith]. destruct (N.eqb_spec 45 c) as [<-|]; [by vm_compute in Hc | done].
    + intros _ r [= -> _]. done.
  - apply IH.
  - destruct (IH true) as [Hnd Hhead]. split; [|done].
    unfold noDouble in *. cbn [includes]. rewrite Hnd, orb_false_r.
    destruct (Slug.collapse true s) as [|x r] eqn:E; [done |].
    cbn [startsWith]. rewrite N.eqb_refl.
    destruct (N.eqb_spec 45 x) as [<-|]; [|done]. by destruct (Hhead eq_refl r).
Qed.

Lemma slugify_decompose lower text :
  ∃ s1, noDouble s1 ∧ forallb isSlugOrHyphen s1 = true ∧ (∀ r, s1 ≠ 45 :: r)
    ∧ Slug.slugify lower text = reverse (stripHead (reverse s1)).
Proof.
  exists (stripHead (Slug.collapse false (lower text))).
  destruct (collapse_noDouble (lower text) false) as [Hnd _].
  split_and!.
  - by apply stripHead_noDouble.
  - apply stripHead_units, collapse_units.
  - intros r Hr. by apply (stripHead_head _ _ _ Hnd Hr).
  - apply stripEnds_alt.
Qed.

Lemma slugify_units lower text :
  forallb isSlugOrHyphen (Slug.slugify lower text) = true.
Proof.
  destruct (slugify_decompose lower text) as (s1 & _ & Hunits & _ & ->).
  rewrite forallb_reverse. apply stripHead_units. by rewrite forallb_reverse.
Qed.

Lemma slugify_facts lower text :
  forallb isSlugOrHyphen (Slug.slugify lower text) = true
  ∧ includes (js "--") (Slug.slugify lower text) = false
  ∧ (∀ r, Slug.slugify lower text ≠ 45 :: r)
  ∧ (∀ r, Slug.slugify lower text ≠ r ++ [45]).
Proof.
  destruct (slugify_decompose lower text) as (s1 & Hnd & Hunits & Hhead & ->).
  split_and!.
  - rewrite forallb_reverse. apply stripHead_units. by rewrite forallb_reverse.
  - by apply noDouble_reverse, stripHead_noDouble, noDouble_reverse.
  - intros r Hr. destruct (reverse s1) as [|c r'] eqn:E.
    + done.
    + apply (f_equal reverse) in E. rewrite reverse_involutive, reverse_cons in E.
      cbn [stripHead] in Hr. destruct (c =? 45).
      * rewrite Hr in E. by apply (Hhead (r ++ [c])).
      * rewrite reverse_cons, <- E in Hr. by apply (Hhead r).
  - intros r Hr. apply (f_equal reverse) in Hr.
    rewrite reverse_involutive, reverse_snoc in Hr.
    by apply (stripHead_head _ _ _ (noDouble_reverse _ Hnd) Hr).
Qed.

(** X5: whatever the title, and whatever [toLowerCase] returns, a slug is
    made of lower case letters, digits and hyphens only, has no two hyphens
    in a row, and neither begins nor ends with a hyphen. *)
Theorem slugify_shape lower text :
  forallb isSlugOrHyphen (Slug.slugify lower text) = true
  ∧ includes (js "--") (Slug.slugify lower text) = false
  ∧ (∀ r, Slug.slugify lower text ≠ 45 :: r)
  ∧ (∀ r, Slug.slugify lower text ≠ r ++ [45]).
Proof. apply slugify_facts. Qed.

Lemma slugUnit_nameUnit c :
  isSlugOrHyphen c = true → McpUtils.isNameUnit c && negb (c =? 46) = true.
Proof.
  unfold isSlugOrHyphen, Slug.isSlugUnit, McpUtils.isNameUnit, isWord, isDigit.
  destruct (N.eqb_spec c 46) as [->|_]; [by vm_compute |].
  destruct (97 <=? c), (c <=? 122), (48 <=? c), (c <=? 57), (c =? 45); try done.
  all: cbn; by rewrite ?orb_true_r.
Qed.

Lemma dateUnit_nameUnit c :
  isDateUnit c = true → McpUtils.isNameUnit c && negb (c =? 46) = true.
Proof.
  unfold isDateUnit, McpUtils.isNameUnit, isWord, isDigit.
  destruct (N.eqb_spec c 46) as [->|_]; [by vm_compute |].
  destruct (48 <=? c), (c <=? 57), (c =? 45); try done.
  all: cbn; by rewrite ?orb_true_r.
Qed.

Lemma safe_stem stem :
  stem ≠ [] → forallb (λ c, McpUtils.isNameUnit c && negb (c =? 46)) stem = true →
  McpUtils.isSafeFilename (stem ++ js ".mdx") = true.
Proof.
  intros Hne Hunits. unfold McpUtils.isSafeFilename. apply andb_true_iff. split.
  - apply matchSafePattern_spec. exists stem. split_and!; [done | | done].
    apply Forall_forall. intros c Hc%list_elem_of_In.
    rewrite forallb_forall in Hunits. by destruct (andb_prop _ _ (Hunits c Hc)).
  - apply negb_true_iff. clear Hne. induction stem as [|c stem IH]; [by vm_compute |].
    cbn [forallb] in Hunits. apply andb_true_iff in Hunits as [Hc Hrest].
    apply andb_true_iff in Hc as [_ Hc%negb_true_iff].
    rewrite <- app_comm_cons. cbn [includes]. rewrite (IH Hrest), orb_false_r.
    js_eval. cbn [startsWith]. by rewrite N.eqb_sym, Hc.
Qed.

(** X6: the file name [create_plan] derives from a title passes
    [isSafeFilename] exactly when the slug of the title is not empty; a
    title without a letter or digit gives the name [.mdx], which the tools
    that read or delete an entry refuse. *)
Theorem planFilename_safe_iff lower title :
  McpUtils.isSafeFilename (Slug.planFilename lower title) = true
  ↔ Slug.slugify lower title ≠ [].
Proof.
  unfold Slug.planFilename. split.
  - intros H E. rewrite E in H. by vm_compute in H.
  - intros Hne. apply safe_stem; [done |].
    eapply forallb_impl; [apply slugUnit_nameUnit | apply slugify_units].
Qed.

(** X7: the file name [create_chat] derives from a date made of digits
    and hyphens and any title passes [isSafeFilename], also when the slug of
    the title is empty. *)
Theorem chatFilename_safe lower date title :
  forallb isDateUnit date = true →
  McpUtils.isSafeFilename (Slug.chatFilename lower date title) = true.
Proof.
  intros Hdate. unfold Slug.chatFilename. rewrite !app_assoc. apply safe_stem.
  - js_eval. by destruct date.
  - rewrite !forallb_app, !andb_true_iff. split_and!.
    + by eapply forallb_impl; [apply dateUnit_nameUnit |].
    + by vm_compute.
    + eapply forallb_impl; [apply slugUnit_nameUnit | apply slugify_units].
Qed.

Lemma chatFilename_safe_witness :
  forallb isDateUnit (js "2026-02-25") = true
  ∧ McpUtils.isSafeFilename (Slug.chatFilename toLowerCase (js "2026-02-25") (js "!?")) = true.
Proof.
  split; [by vm_compute |].
  apply (chatFilename_safe toLowerCase (js "2026-02-25") (js "!?")). by vm_compute.
Defined.

Lemma collapse_fixed s : ∀ b,
  forallb isSlugOrHyphen s = true → noDouble s → (b = true → ∀ r, s ≠ 45 :: r) →
  Slug.collapse b s = s.
Proof.
  induction s as [|c s IH]; intros b Hunits Hnd Hhead; [done |].
  cbn [forallb] in Hunits. apply andb_true_iff in Hunits as [Hc Hrest].
  cbn [Slug.collapse]. unfold isSlugOrHyphen in Hc.
  destruct (Slug.isSlugUnit c) eqn:Hslug.
  - f_equal. apply IH; [done | by eapply noDouble_cons | done].
  - cbn [orb] in Hc. apply N.eqb_eq in Hc as ->.
    destruct b; [by destruct (Hhead eq_refl s) |].
    f_equal. apply IH; [done | by eapply noDouble_cons |].
    intros _ r ->. by vm_compute in Hnd.
Qed.

Lemma stripHead_fixed s : (∀ r, s ≠ 45 :: r) → stripHead s = s.
Proof.
  destruct s as [|c r]; [done |]. intros H. cbn [stripHead].
  destruct (N.eqb_spec c 45) as [->|]; [by destruct (H r) | done].
Qed.

Lemma stripEnds_fixed s :
  (∀ r, s ≠ 45 :: r) → (∀ r, s ≠ r ++ [45]) → Slug.stripEnds s = s.
Proof.
  intros Hhead Hlast. rewrite stripEnds_alt, (stripHead_fixed s) by done.
  rewrite stripHead_fixed; [apply reverse_involutive |].
  intros r Hr. apply (Hlast (reverse r)).
  by rewrite <- (reverse_involutive s), Hr, reverse_cons.
Qed.

(** X8: the slug of a slug is the slug itself, given that [toLowerCase]
    leaves lower case letters, digits and hyphens alone. *)
Theorem slugify_idempotent lower text :
  (∀ s, forallb isSlugOrHyphen s = true → lower s = s) →
  Slug.slugify lower (Slug.slugify lower text) = Slug.slugify lower text.
Proof.
  intros Hlower.
  destruct (slugify_facts lower text) as (Hunits & Hnd & Hhead & Hlast).
  unfold Slug.slugify at 1. rewrite (Hlower _ Hunits).
  rewrite collapse_fixed by done. by apply stripEnds_fixed.
Qed.

Lemma toLowerCase_slug s : forallb isSlugOrHyphen s = true → toLowerCase s = s.
Proof.
  unfold toLowerCase. intros H. rewrite <- (map_id s) at 2. apply map_ext_in.
  intros c Hc. rewrite forallb_forall in H. specialize (H c Hc).
  unfold isSlugOrHyphen, Slug.isSlugUnit, isDigit in H.
  destruct (N.leb_spec 65 c), (N.leb_spec c 90); try done. cbn [andb].
  exfalso. revert H.
  destruct (N.leb_spec 97 c), (N.leb_spec c 122), (N.leb_spec 48 c), (N.leb_spec c 57),
    (N.eqb_spec c 45); cbn; try done; lia.
Qed.

Lemma slugify_idempotent_witness :
  (∀ s, forallb isSlugOrHyphen s = true → toLowerCase s = s)
  ∧ Slug.slugify toLowerCase (Slug.slugify toLowerCase (js "  Hello, World!  "))
    = Slug.slugify toLowerCase (js "  Hello, World!  ").
Proof.
  split; [apply toLowerCase_slug |].
  apply (slugify_idempotent toLowerCase (js "  Hello, World!  ")), toLowerCase_slug.
Defined.

(** ** The two header readers *)

Lemma splitOn_nonempty c s : Cli.splitOn c s ≠ [].
Proof.
  destruct s as [|d s]; [done |]. cbn [Cli.splitOn].
  destruct (d =? c); [done |]. by destruct (Cli.splitOn c s).
Qed.

Lemma splitOn_index c s :
  Cli.splitOn c s
  = match indexOfUnit c s with
    | None => [s]
    | Some i => take i s :: Cli.splitOn c (drop (S i) s)
    end.
Proof.
  induction s as [|d s IH]; [done |]. cbn [Cli.splitOn indexOfUnit].
  destruct (d =? c); [done |]. rewrite IH.
  by destruct (indexOfUnit c s) as [i|].
Qed.

Lemma join_splitOn c s : join [c] (Cli.splitOn c s) = s.
Proof.
  induction s as [|d s IH]; [done |]. cbn [Cli.splitOn].
  destruct (N.eqb_spec d c) as [->|Hd].
  - pose proof (splitOn_nonempty c s) as Hne.
    destruct (Cli.splitOn c s) as [|p ps] eqn:E; [done |].
    rewrite join_cons, IH. done.
  - destruct (Cli.splitOn c s) as [|p ps] eqn:E; [by destruct (splitOn_nonempty c s) |].
    destruct ps as [|q ps].
    + cbn in *. by rewrite IH.
    + rewrite join_cons in *. rewrite <- IH. done.
Qed.

Lemma assign_agree key val fm1 fm2 :
  agree fm1 fm2 → agree (Decoder.assign key val fm1) (Decoder.assign key val fm2).
Proof.
  intros H k Hk. unfold Decoder.assign. case_bool_decide; [by apply H |].
  destruct (decide (key = k)) as [->|Hne].
  - by rewrite !lookup_insert_eq.
  - rewrite !lookup_insert_ne by done. by apply H.
Qed.

Lemma assign_empty_key val fm1 fm2 :
  agree fm1 fm2 → agree (Decoder.assign [] val fm1) fm2.
Proof.
  intros H k Hk. unfold Decoder.assign. rewrite bool_decide_eq_false_2 by done.
  rewrite lookup_insert_ne by done. by apply H.
Qed.

Lemma readLine_agree fm1 fm2 line :
  agree fm1 fm2 → agree (Cli.readLine fm1 line) (Decoder.readLine fm2 line).
Proof.
  intros H. unfold Cli.readLine, Decoder.readLine. rewrite splitOn_index.
  destruct (indexOfUnit 58 line) as [i|] eqn:Hi.
  - apply indexOfUnit_Some in Hi as (k & rest & -> & Hk & ->).
    rewrite take_app_length.
    assert (drop (S (length k)) (k ++ 58 :: rest) = rest) as Hdrop.
    { rewrite (cons_middle 58), app_assoc.
      apply drop_app_length'. rewrite length_app. cbn. lia. }
    rewrite !Hdrop.
    rewrite join_splitOn.
    rewrite (bool_decide_eq_false_2 (Cli.splitOn 58 rest = [])) by apply splitOn_nonempty.
    cbn [negb andb]. rewrite andb_true_r.
    destruct k as [|c k].
    + rewrite bool_decide_eq_true_2 by done. cbn [negb andb app].
      js_eval. cbn [startsWith]. destruct (32 =? 58) eqn:E; [done |]. cbn [andb].
      by rewrite bool_decide_eq_true_2.
    + rewrite bool_decide_eq_false_2 by done. cbn [negb andb]. js_eval.
      cbn [startsWith app]. destruct (32 =? c); cbn [andb negb]; [done |].
      case_bool_decide as Hkey.
      * rewrite Hkey. by apply assign_empty_key.
      * by apply assign_agree.
  - cbn [negb andb]. rewrite (bool_decide_eq_true_2 ([] = [])) by done.
    cbn [negb]. rewrite andb_false_r. done.
Qed.

(** X9: the reader of the command line script and [readFrontmatter] of
    the shared utilities give the same value, or both none, for every key
    that is not the empty string. *)
Theorem readFM_agrees raw key :
  key ≠ [] → Cli.readFM raw !! key = Decoder.readFrontmatter raw !! key.
Proof.
  intros Hkey. unfold Cli.readFM, Decoder.readFrontmatter.
  destruct (Decoder.matchFrontmatter raw) as [[block rest]|]; [|done].
  assert (∀ lines fm1 fm2, agree fm1 fm2 →
            agree (foldl Cli.readLine fm1 lines) (foldl Decoder.readLine fm2 lines)) as Hfold.
  { induction lines as [|l lines IH]; intros fm1 fm2 H; [done |].
    cbn [foldl]. by apply IH, readLine_agree. }
  by apply Hfold.
Qed.

Lemma readFM_agrees_witness :
  js "title" ≠ []
  ∧ Cli.readFM (js "---\ntitle: \qA: b\q\n\t: x\n---\n") !! js "title"
    = Decoder.readFrontmatter (js "---\ntitle: \qA: b\q\n\t: x\n---\n") !! js "title".
Proof.
  split; [done |].
  by apply (readFM_agrees (js "---\ntitle: \qA: b\q\n\t: x\n---\n") (js "title")).
Defined.

(** The two readers differ on the empty key: a line whose key is a tab. *)
Lemma readFM_empty_key :
  Cli.readFM (js "---\n\t: x\n---\n") !! [] = Some (js "x")
  ∧ Decoder.readFrontmatter (js "---\n\t: x\n---\n") !! [] = None.
Proof. split; by vm_compute. Qed.

Lemma trim_elem x s : x ∈ trim s → x ∈ s.
Proof.
  destruct (trim_decompose s) as (pre & post & Hs & _). intros H.
  rewrite Hs, !elem_of_app. by right; left.
Qed.

Lemma stripQuotes_elem x v : x ∈ Decoder.stripQuotes v → x ∈ v.
Proof.
  unfold Decoder.stripQuotes. destruct v as [|q rest]; [done |].
  destruct (reverse rest) as [|q' inner] eqn:E; [done |].
  destruct (_ && _); [|done].
  apply (f_equal reverse) in E. rewrite reverse_involutive, reverse_cons in E.
  rewrite E. intros H. rewrite elem_of_cons, elem_of_app. by right; left.
Qed.

Lemma readLine_entries fm line :
  (LF ∉ line) → map_Forall headerEntry fm → map_Forall headerEntry (Decoder.readLine fm line).
Proof.
  intros Hline Hfm. unfold Decoder.readLine.
  destruct (indexOfUnit 58 line) as [i|] eqn:Hi; [|done].
  destruct (startsWith _ line); [done |]. case_bool_decide as Hkey; [done |].
  unfold Decoder.assign. case_bool_decide as Hproto; [done |].
  apply map_Forall_insert_2; [|done].
  apply indexOfUnit_Some in Hi as (k & rest & -> & Hk & ->).
  rewrite take_app_length in *. rewrite not_elem_of_app in Hline. destruct Hline as [Hk' Hrest].
  split_and!; [done | apply trim_idem | | | done |].
  - intros H%trim_elem. done.
  - intros H%trim_elem. done.
  - intros H%stripQuotes_elem%trim_elem. apply Hrest.
    rewrite (cons_middle 58), app_assoc, drop_app_length' in H by (rewrite length_app; cbn; lia).
    by right.
Qed.

(** X10: every entry of a header read by [readFrontmatter] has a key that
    is not empty, is trimmed, holds neither a colon nor a line feed and is
    not [__proto__], and a value without a line feed. *)
Theorem readFrontmatter_entries raw key val :
  Decoder.readFrontmatter raw !! key = Some val →
  key ≠ [] ∧ trim key = key ∧ (58 ∉ key) ∧ (LF ∉ key) ∧ key ≠ js "__proto__" ∧ (LF ∉ val).
Proof.
  unfold Decoder.readFrontmatter.
  destruct (Decoder.matchFrontmatter raw) as [[block rest]|]; [|done].
  assert (∀ lines fm, Forall (λ l, LF ∉ l) lines → map_Forall headerEntry fm →
            map_Forall headerEntry (foldl Decoder.readLine fm lines)) as Hfold.
  { induction lines as [|l lines IH]; intros fm Hlines Hfm; [done |].
    inversion_clear Hlines. cbn [foldl]. apply IH; [done |]. by apply readLine_entries. }
  intros H. eapply (Hfold _ ∅ (splitLines_each_noLF block)); [apply map_Forall_empty | exact H].
Qed.

Lemma readFrontmatter_entries_witness :
  Decoder.readFrontmatter (js "---\ntitle : \q a \q \n---\n") !! js "title" = Some (js " a ")
  ∧ js "title" ≠ [] ∧ trim (js "title") = js "title" ∧ (58 ∉ js "title") ∧ (LF ∉ js "title")
    ∧ js "title" ≠ js "__proto__" ∧ (LF ∉ js " a ").
Proof.
  assert (H : Decoder.readFrontmatter (js "---\ntitle : \q a \q \n---\n") !! js "title"
              = Some (js " a ")) by by vm_compute.
  split; [exact H |].
  exact (readFrontmatter_entries _ _ _ H).
Defined.

(** ** Inline markup *)

Lemma lazyPlus_source {A} (src : A → list N) (k : list N → option A) s inner a :
  (∀ r x, k r = Some x → r = src x) →
  lazyPlus k s = Some (inner, a) → s = inner ++ src a.
Proof.
  intros Hk. revert inner. induction s as [|c s IH]; intros inner; cbn [lazyPlus]; [done |].
  destruct (isDot c); [|done]. destruct (k s) as [x|] eqn:Hx.
  - intros [= <- <-]. by rewrite (Hk _ _ Hx).
  - destruct (lazyPlus k s) as [[inner' a']|]; [|done].
    intros [= <- <-]. by rewrite (IH inner' eq_refl).
Qed.

Lemma delimited_source lit s x rest :
  expect lit s ≫= lazyPlus (expect lit) = Some (x, rest) → s = lit ++ x ++ lit ++ rest.
Proof.
  destruct (expect lit s) as [s1|] eqn:E; [|done]. cbn.
  intros H%(lazyPlus_source (λ r, lit ++ r)).
  - apply expect_Some in E. by rewrite E, H.
  - intros r y. apply expect_Some.
Qed.

Lemma matchInlineAt_source s span rest :
  matchInlineAt s = Some (span, rest) → s = inlineSource span ++ rest.
Proof.
  unfold matchInlineAt.
  destruct (expect (js "**") s ≫= _) as [[x r]|] eqn:E1.
  { intros [= <- <-]. apply delimited_source in E1. cbn [inlineSource]. by rewrite <- !app_assoc. }
  destruct (expect [96] s ≫= _) as [[x r]|] eqn:E2.
  { intros [= <- <-]. apply delimited_source in E2. cbn [inlineSource]. by rewrite <- !app_assoc. }
  destruct (expect (js "[") s ≫= _) as [[text [href r]]|] eqn:E3.
  { intros [= <- <-]. destruct (expect (js "[") s) as [s1|] eqn:E; [|done]. cbn in E3.
    apply (lazyPlus_source (λ p, js "](" ++ p.1 ++ js ")" ++ p.2)) in E3.
    - apply expect_Some in E. cbn [inlineSource]. rewrite E, E3. cbn [fst snd].
      by rewrite <- !app_assoc.
    - intros r0 [h r1]. destruct (expect (js "](") r0) as [r2|] eqn:E'; [|done]. cbn.
      intros H%(lazyPlus_source (λ r, js ")" ++ r)).
      + apply expect_Some in E'. by rewrite E', H.
      + intros r3 y. apply expect_Some. }
  destruct (expect (js "*") s ≫= _) as [[x r]|] eqn:E4; [|done].
  intros [= <- <-]. apply delimited_source in E4. cbn [inlineSource]. by rewrite <- !app_assoc.
Qed.

Lemma execInline_source s : ∀ before span rest,
  execInline s = Some (before, span, rest) → s = before ++ inlineSource span ++ rest.
Proof.
  induction s as [|c s IH]; intros before span rest; cbn [execInline].
  - destruct (matchInlineAt []) as [[sp r]|] eqn:E; [|done].
    intros [= <- <- <-]. by apply matchInlineAt_source in E.
  - destruct (matchInlineAt (c :: s)) as [[sp r]|] eqn:E.
    + intros [= <- <- <-]. by apply matchInlineAt_source in E.
    + destruct (execInline s) as [[[b sp] r]|] eqn:E'; [|done].
      intros [= <- <- <-]. by rewrite (IH b sp r eq_refl).
Qed.

Lemma inlineLoop_source n : ∀ text,
  (length text < n)%nat → concat (map inlineSource (inlineLoop n text)) = text.
Proof.
  induction n as [|n IH]; intros text Hn; [lia |]. cbn [inlineLoop].
  destruct (execInline text) as [[[before span] rest]|] eqn:E.
  - pose proof (execInline_length _ _ _ _ E) as Hlen.
    apply execInline_source in E.
    case_bool_decide as Hb; cbn [app map concat]; rewrite IH by lia; [by rewrite E, Hb | done].
  - case_bool_decide as Ht; [done |]. cbn. by rewrite app_nil_r.
Qed.

(** X11: the three inline renderers lose nothing: writing each span back
    as the markup it was read from (the text of a text span, [**x**],
    a text between backticks, [[text](url)], [*x*]) and concatenating gives
    the rendered text again. *)
Theorem renderInline_source text :
  concat (map inlineSource (ChatLog.renderInlineMarkdown text)) = text
  ∧ concat (map inlineSource (PlanContent.renderInline text)) = text
  ∧ concat (map inlineSource (EditablePlan.renderInline text)) = text.
Proof. split_and!; apply inlineLoop_source; lia. Qed.

Lemma matchInlineAt_plain c s : isMarkupUnit c = false → matchInlineAt (c :: s) = None.
Proof.
  unfold isMarkupUnit. rewrite !orb_false_iff. intros [[H1 H2] H3].
  unfold matchInlineAt, expect. js_eval. cbn [startsWith].
  by rewrite (N.eqb_sym 42), (N.eqb_sym 96), (N.eqb_sym 91), H1, H2, H3.
Qed.

Lemma execInline_plain s :
  forallb (λ c, negb (isMarkupUnit c)) s = true → execInline s = None.
Proof.
  induction s as [|c s IH]; [done |]. cbn [forallb execInline].
  rewrite andb_true_iff, negb_true_iff. intros [Hc Hs].
  by rewrite matchInlineAt_plain, IH.
Qed.

(** X12: a text that is not empty and holds no star, backtick or opening
    bracket is rendered by each inline renderer as one text span holding
    the text unchanged. *)
Theorem renderInline_plain text :
  forallb (λ c, negb (isMarkupUnit c)) text = true → text ≠ [] →
  ChatLog.renderInlineMarkdown text = [IText text]
  ∧ PlanContent.renderInline text = [IText text]
  ∧ EditablePlan.renderInline text = [IText text].
Proof.
  intros Hplain Hne.
  unfold ChatLog.renderInlineMarkdown, PlanContent.renderInline, EditablePlan.renderInline.
  cbn [inlineLoop]. rewrite execInline_plain by done.
  by rewrite bool_decide_eq_false_2.
Qed.

Lemma renderInline_plain_witness :
  forallb (λ c, negb (isMarkupUnit c)) (js "a_b] (c) #1") = true ∧ js "a_b] (c) #1" ≠ []
  ∧ ChatLog.renderInlineMarkdown (js "a_b] (c) #1") = [IText (js "a_b] (c) #1")]
  ∧ PlanContent.renderInline (js "a_b] (c) #1") = [IText (js "a_b] (c) #1")]
  ∧ EditablePlan.renderInline (js "a_b] (c) #1") = [IText (js "a_b] (c) #1")].
Proof.
  split_and!; [by vm_compute | done | | |].
  all: apply (renderInline_plain (js "a_b] (c) #1")); by vm_compute.
Defined.

(** ** The sections of a plan and the text the editor saves *)

Lemma heads_flush st :
  map (λ s, (PlanContent.level s, PlanContent.title s)) (PlanContent.sections (PlanContent.flush st))
  = heads st.
Proof.
  unfold heads, PlanContent.flush. destruct (PlanContent.current st) as [[lv t]|].
  - cbn. by rewrite map_app.
  - by rewrite app_nil_r.
Qed.

Lemma heads_step st line :
  heads (PlanContent.step st line)
  = heads st ++ match headingOf line with Some h => [h] | None => [] end.
Proof.
  unfold PlanContent.step, headingOf.
  destruct (PlanContent.matchHeading (js "## ") line) as [text|].
  - unfold heads at 1. cbn [PlanContent.sections PlanContent.current]. by rewrite heads_flush.
  - destruct (PlanContent.matchHeading (js "### ") line) as [text|].
    + unfold heads at 1. cbn [PlanContent.sections PlanContent.current]. by rewrite heads_flush.
    + by rewrite app_nil_r.
Qed.

Lemma heads_foldl lines : ∀ st,
  heads (foldl PlanContent.step st lines) = heads st ++ omap headingOf lines.
Proof.
  induction lines as [|l lines IH]; intros st; [by rewrite app_nil_r |].
  cbn [foldl omap list_omap]. rewrite IH, heads_step, <- app_assoc.
  by destruct (headingOf l).
Qed.

(** X13: the sections [parseSections] returns are, one for one and in
    order, the heading lines of the text: a line with the level-2 or level-3
    marker, a space and a text gives a section of that level whose title is
    the text trimmed, and no other line gives a section. *)
Theorem parseSections_headings raw :
  map (λ s, (PlanContent.level s, PlanContent.title s)) (PlanContent.parseSections raw)
  = omap headingOf (splitLines raw).
Proof. unfold PlanContent.parseSections. by rewrite heads_flush, heads_foldl. Qed.

Lemma join_app sep A B :
  A ≠ [] → B ≠ [] → join sep (A ++ B) = join sep A ++ sep ++ join sep B.
Proof.
  intros HA HB. induction A as [|p [|q A] IH]; [done | |].
  - destruct B as [|b B]; [done |]. done.
  - change ((p :: q :: A) ++ B) with (p :: q :: (A ++ B)).
    rewrite !join_cons. change (q :: A ++ B) with ((q :: A) ++ B).
    rewrite IH by done. by rewrite <- !app_assoc.
Qed.

Lemma splitLines_join_parts p parts :
  splitLines (join (js "\n\n") (p :: parts)) = splitLines p ++ gapLines parts.
Proof.
  revert p. induction parts as [|q parts IH]; intros p.
  - unfold gapLines. cbn. by rewrite app_nil_r.
  - rewrite join_cons.
    change (js "\n\n" ++ ?x) with (LF :: [] ++ LF :: x).
    rewrite !splitLines_app_LF, IH. done.
Qed.

Lemma gapLines_app A B : gapLines (A ++ B) = gapLines A ++ gapLines B.
Proof. unfold gapLines. by rewrite map_app, concat_app. Qed.

Lemma forallb_isDot_noLF s : forallb isDot s = true → LF ∉ s.
Proof.
  intros H Hin%list_elem_of_In. rewrite forallb_forall in H. by specialize (H _ Hin).
Qed.

Lemma takeWhile_forallb_all {A} (f : A → bool) l : forallb f l = true → takeWhile f l = l.
Proof.
  intros H. apply takeWhile_all, Forall_forall. intros x Hx%list_elem_of_In.
  rewrite forallb_forall in H. by apply H.
Qed.

Lemma wellFormedSection_facts s :
  wellFormedSection s = true →
  (PlanContent.level s = 2%nat ∨ PlanContent.level s = 3%nat)
  ∧ PlanContent.title s ≠ [] ∧ trim (PlanContent.title s) = PlanContent.title s
  ∧ forallb isDot (PlanContent.title s) = true
  ∧ trim (PlanContent.content s) = PlanContent.content s
  ∧ forallb (λ l, negb (isHeading l)) (splitLines (PlanContent.content s)) = true.
Proof.
  unfold wellFormedSection. rewrite !andb_true_iff, orb_true_iff, negb_true_iff.
  rewrite !bool_decide_eq_true, bool_decide_eq_false. tauto.
Qed.

Lemma headingOf_headingLine s :
  wellFormedSection s = true →
  headingOf (PlanEditor.headingLine s) = Some (PlanContent.level s, PlanContent.title s).
Proof.
  intros (Hlv & Hne & Htrim & Hdot & _)%wellFormedSection_facts.
  unfold headingOf, PlanEditor.headingLine, PlanContent.matchHeading.
  destruct Hlv as [-> | ->].
  - change (replicate 2 35 ++ js " " ++ PlanContent.title s)
      with (js "## " ++ PlanContent.title s).
    rewrite startsWith_app, drop_app_length' by by vm_compute.
    rewrite takeWhile_forallb_all by done.
    destruct (PlanContent.title s) as [|c t]; [done |]. by rewrite Htrim.
  - change (replicate 3 35 ++ js " " ++ PlanContent.title s)
      with (js "### " ++ PlanContent.title s).
    assert (startsWith (js "## ") (js "### " ++ PlanContent.title s) = false) as -> by done.
    rewrite startsWith_app, drop_app_length' by by vm_compute.
    rewrite takeWhile_forallb_all by done.
    destruct (PlanContent.title s) as [|c t]; [done |]. by rewrite Htrim.
Qed.

Lemma headingLine_noLF s :
  wellFormedSection s = true → splitLines (PlanEditor.headingLine s) = [PlanEditor.headingLine s].
Proof.
  intros (Hlv & _ & _ & Hdot & _)%wellFormedSection_facts. apply splitLines_noLF.
  unfold PlanEditor.headingLine. rewrite !not_elem_of_app. split_and!.
  - destruct Hlv as [-> | ->]; apply (bool_decide_unpack _); by vm_compute.
  - apply (bool_decide_unpack _). by vm_compute.
  - by apply forallb_isDot_noLF.
Qed.

Lemma step_heading st line lv t :
  headingOf line = Some (lv, t) →
  PlanContent.step st line
  = PlanContent.mkState (PlanContent.sections (PlanContent.flush st)) (Some (lv, t))
      (PlanContent.contentLines (PlanContent.flush st)).
Proof.
  unfold headingOf, PlanContent.step.
  destruct (PlanContent.matchHeading (js "## ") line); [by intros [= <- <-] |].
  destruct (PlanContent.matchHeading (js "### ") line); [by intros [= <- <-] | done].
Qed.

Lemma foldl_step_other lines st :
  forallb (λ l, negb (isHeading l)) lines = true →
  foldl PlanContent.step st lines
  = PlanContent.mkState (PlanContent.sections st) (PlanContent.current st)
      (PlanContent.contentLines st ++ lines).
Proof.
  intros H. apply foldl_step_no_heading. apply Forall_forall.
  intros l Hl%list_elem_of_In. rewrite forallb_forall in H. specialize (H l Hl).
  unfold isHeading, headingOf in H.
  destruct (PlanContent.matchHeading (js "## ") l); [done |].
  by destruct (PlanContent.matchHeading (js "### ") l).
Qed.

Lemma clines_other c :
  forallb (λ l, negb (isHeading l)) (splitLines c) = true →
  forallb (λ l, negb (isHeading l)) (clines c) = true.
Proof. unfold clines. case_bool_decide; [done |]. cbn [forallb]. by intros ->. Qed.

Lemma trim_join_clines c : trim c = c → trim (join [LF] (clines c)) = c.
Proof.
  intros Hc. unfold clines. case_bool_decide as E; [by rewrite E |].
  rewrite join_nil_cons by apply splitLines_nonempty.
  rewrite join_splitLines. cbn [app]. by rewrite trim_cons_space.
Qed.

Lemma trim_join_blank buf : trim (join [LF] (buf ++ [[]])) = trim (join [LF] buf).
Proof.
  destruct buf as [|l buf]; [done |].
  rewrite join_snoc by done. by rewrite trim_app_spaces.
Qed.

Lemma gapLines_sectionParts s :
  wellFormedSection s = true →
  gapLines (PlanEditor.sectionParts s)
  = [] :: PlanEditor.headingLine s :: clines (PlanContent.content s).
Proof.
  intros Hs. unfold PlanEditor.sectionParts, clines, gapLines.
  cbn [map concat app]. rewrite headingLine_noLF by done.
  case_bool_decide; cbn; by rewrite ?app_nil_r.
Qed.

Lemma step_other st line :
  isHeading line = false →
  PlanContent.step st line
  = PlanContent.mkState (PlanContent.sections st) (PlanContent.current st)
      (PlanContent.contentLines st ++ [line]).
Proof. intros H. apply (foldl_step_other [line]). cbn. by rewrite H. Qed.

Lemma tail_sections rest : ∀ acc lv t buf,
  forallb wellFormedSection rest = true →
  PlanContent.sections
    (PlanContent.flush
       (foldl PlanContent.step (PlanContent.mkState acc (Some (lv, t)) buf)
          (gapLines (concat (map PlanEditor.sectionParts rest)))))
  = acc ++ [PlanContent.mkSection lv t (trim (join [LF] buf))] ++ rest.
Proof.
  induction rest as [|s rest IH]; intros acc lv t buf; [done |].
  cbn [forallb map concat]. rewrite andb_true_iff. intros [Hs Hrest].
  rewrite gapLines_app, gapLines_sectionParts by done.
  destruct (wellFormedSection_facts s Hs) as (_ & _ & _ & _ & Hc & Hlines).
  cbn [app foldl].
  rewrite (step_other _ []) by done.
  rewrite (step_heading _ _ _ _ (headingOf_headingLine s Hs)).
  rewrite foldl_app, (foldl_step_other (clines _)) by by apply clines_other.
  cbn [PlanContent.flush PlanContent.sections PlanContent.current PlanContent.contentLines app].
  rewrite IH by done. rewrite trim_join_blank, trim_join_clines by done.
  rewrite <- !app_assoc. by destruct s.
Qed.

(** X14: without an intro, the text the editor saves is read back as the
    sections it was made of: for sections of level 2 or 3 whose title is
    trimmed, not empty and on one line, and whose content is trimmed and has
    no heading line, [parseSections (sectionsToBody '' sections)] is
    [sections]. *)
Theorem sectionsToBody_round_trip sections :
  forallb wellFormedSection sections = true →
  PlanEditor.parseSections (PlanEditor.sectionsToBody [] sections) = sections.
Proof.
  unfold PlanEditor.parseSections, PlanContent.parseSections, PlanEditor.sectionsToBody.
  rewrite bool_decide_eq_true_2 by done. cbn [app].
  destruct sections as [|s rest]; [done |].
  cbn [forallb map concat]. rewrite andb_true_iff. intros [Hs Hrest].
  destruct (wellFormedSection_facts s Hs) as (_ & _ & _ & _ & Hc & Hlines).
  unfold PlanEditor.sectionParts at 1. rewrite <- app_comm_cons.
  rewrite splitLines_join_parts, headingLine_noLF by done.
  rewrite gapLines_app. cbn [app foldl].
  rewrite (step_heading _ _ _ _ (headingOf_headingLine s Hs)).
  rewrite foldl_app.
  assert (gapLines (if bool_decide (PlanContent.content s = []) then []
                    else [PlanContent.content s]) = clines (PlanContent.content s)) as ->.
  { unfold clines, gapLines. case_bool_decide; cbn; by rewrite ?app_nil_r. }
  rewrite (foldl_step_other (clines _)) by by apply clines_other.
  cbn [PlanContent.flush PlanContent.sections PlanContent.current PlanContent.contentLines app].
  rewrite tail_sections by done. rewrite trim_join_clines by done. by destruct s.
Qed.

Lemma sectionsToBody_round_trip_witness :
  forallb wellFormedSection
    [PlanContent.mkSection 2 (js "Goals") (js "- [ ] one\n\n#### deep");
     PlanContent.mkSection 3 (js "Later") []] = true
  ∧ PlanEditor.parseSections
      (PlanEditor.sectionsToBody []
         [PlanContent.mkSection 2 (js "Goals") (js "- [ ] one\n\n#### deep");
          PlanContent.mkSection 3 (js "Later") []])
    = [PlanContent.mkSection 2 (js "Goals") (js "- [ ] one\n\n#### deep");
       PlanContent.mkSection 3 (js "Later") []].
Proof.
  split; [by vm_compute |].
  apply (sectionsToBody_round_trip
           [PlanContent.mkSection 2 (js "Goals") (js "- [ ] one\n\n#### deep");
            PlanContent.mkSection 3 (js "Later") []]).
  by vm_compute.
Defined.

(** X15: with an intro the round trip fails in one way only: for an
    intro that is more than white space and, trimmed, has no heading line,
    and for sections that are well formed as in X14 (level 2 or 3, a title
    trimmed, not empty and on one line, a content trimmed and without
    heading line), the text saved is read back as the same sections, except
    that the content of the first one is the trimmed intro, two blank lines
    and the content it had, trimmed. *)
Theorem sectionsToBody_intro_leaks intro s rest :
  trim intro ≠ [] →
  forallb (λ l, negb (isHeading l)) (splitLines (trim intro)) = true →
  forallb wellFormedSection (s :: rest) = true →
  PlanEditor.parseSections (PlanEditor.sectionsToBody intro (s :: rest))
  = PlanContent.mkSection (PlanContent.level s) (PlanContent.title s)
      (trim (trim intro ++ js "\n\n\n" ++ PlanContent.content s)) :: rest.
Proof.
  intros Hintro Hilines.
  unfold PlanEditor.parseSections, PlanContent.parseSections, PlanEditor.sectionsToBody.
  rewrite bool_decide_eq_false_2 by done.
  cbn [forallb map concat app]. rewrite andb_true_iff. intros [Hs Hrest].
  destruct (wellFormedSection_facts s Hs) as (_ & _ & _ & _ & Hc & Hlines).
  rewrite splitLines_join_parts, gapLines_app, gapLines_sectionParts by done.
  rewrite foldl_app, (foldl_step_other (splitLines (trim intro))) by done.
  cbn [app foldl PlanContent.sections PlanContent.current PlanContent.contentLines].
  rewrite (step_other _ []) by done.
  rewrite (step_heading _ _ _ _ (headingOf_headingLine s Hs)).
  rewrite foldl_app, (foldl_step_other (clines _)) by by apply clines_other.
  cbn [PlanContent.flush PlanContent.sections PlanContent.current PlanContent.contentLines app].
  rewrite tail_sections by done. cbn [app]. f_equal. f_equal.
  unfold clines. case_bool_decide as E.
  - rewrite E, !app_nil_r. rewrite join_snoc by apply splitLines_nonempty.
    rewrite join_splitLines. by rewrite !trim_app_spaces.
  - rewrite <- app_assoc. rewrite join_app by (apply splitLines_nonempty || done).
    rewrite join_splitLines. f_equal. f_equal. cbn [app].
    rewrite !join_nil_cons by (apply splitLines_nonempty || done).
    by rewrite join_splitLines.
Qed.

Lemma sectionsToBody_intro_leaks_witness :
  trim (js "Welcome\n") ≠ []
  ∧ forallb (λ l, negb (isHeading l)) (splitLines (trim (js "Welcome\n"))) = true
  ∧ forallb wellFormedSection
      [PlanContent.mkSection 2 (js "Goals") (js "text"); PlanContent.mkSection 3 (js "Later") []]
    = true
  ∧ PlanEditor.parseSections
      (PlanEditor.sectionsToBody (js "Welcome\n")
         [PlanContent.mkSection 2 (js "Goals") (js "text"); PlanContent.mkSection 3 (js "Later") []])
    = [PlanContent.mkSection 2 (js "Goals") (trim (trim (js "Welcome\n") ++ js "\n\n\n" ++ js "text"));
       PlanContent.mkSection 3 (js "Later") []].
Proof.
  split_and!; [by vm_compute | by vm_compute | by vm_compute |].
  apply (sectionsToBody_intro_leaks (js "Welcome\n")
           (PlanContent.mkSection 2 (js "Goals") (js "text"))
           [PlanContent.mkSection 3 (js "Later") []]); by vm_compute.
Defined.

(** ** The milestone editor *)

Lemma updateStatus_insert i status ms m :
  ms !! i = Some m →
  PlanEditor.updateStatus i status ms = <[i := Milestone (m_title m) (m_weeks m) status]> ms.
Proof.
  intros Hi. apply list_eq. intros j. unfold PlanEditor.updateStatus.
  rewrite list_lookup_imap. destruct (decide (j = i)) as [->|Hj].
  - rewrite list_lookup_insert_eq by by eapply lookup_lt_Some.
    rewrite Hi. cbn. by rewrite bool_decide_eq_true_2.
  - rewrite list_lookup_insert_ne by done. destruct (ms !! j) as [x|]; [|done].
    cbn. by rewrite bool_decide_eq_false_2.
Qed.

Lemma nextStatus_thrice status :
  status ∈ PlanEditor.STATUS_CYCLE →
  PlanEditor.nextStatus (PlanEditor.nextStatus (PlanEditor.nextStatus status)) = status.
Proof.
  unfold PlanEditor.STATUS_CYCLE. rewrite !elem_of_cons, elem_of_nil.
  intros [-> | [-> | [-> | []]]]; by vm_compute.
Qed.

Lemma cycleStatus_insert i ms m :
  ms !! i = Some m →
  PlanEditor.cycleStatus i ms
  = Some (<[i := Milestone (m_title m) (m_weeks m) (PlanEditor.nextStatus (m_status m))]> ms).
Proof.
  intros Hi. unfold PlanEditor.cycleStatus. rewrite Hi. cbn.
  by rewrite (updateStatus_insert _ _ _ _ Hi).
Qed.

(** X16: a click on the status dot of milestone [i] replaces that
    milestone by one with the same title and weeks and the next status, and
    leaves the list otherwise as it is; a status outside the cycle is
    followed by [not-started]; for a status of the cycle, three clicks give
    the list back. *)
Theorem cycleStatus_spec i ms m :
  ms !! i = Some m →
  PlanEditor.cycleStatus i ms
  = Some (<[i := Milestone (m_title m) (m_weeks m) (PlanEditor.nextStatus (m_status m))]> ms)
  ∧ (m_status m ∉ PlanEditor.STATUS_CYCLE → PlanEditor.nextStatus (m_status m) = js "not-started")
  ∧ (m_status m ∈ PlanEditor.STATUS_CYCLE →
     (ms1 ← PlanEditor.cycleStatus i ms; ms2 ← PlanEditor.cycleStatus i ms1;
      PlanEditor.cycleStatus i ms2) = Some ms).
Proof.
  intros Hi. split_and!.
  - by apply cycleStatus_insert.
  - intros Hno. unfold PlanEditor.nextStatus.
    assert (PlanEditor.indexOf (m_status m) PlanEditor.STATUS_CYCLE = None) as ->; [|done].
    unfold PlanEditor.STATUS_CYCLE in *. rewrite !not_elem_of_cons in Hno.
    destruct Hno as (H1 & H2 & H3 & _). cbn [PlanEditor.indexOf].
    by rewrite !bool_decide_eq_false_2 by done.
  - intros Hin. pose proof (lookup_lt_Some _ _ _ Hi) as Hlt.
    rewrite (cycleStatus_insert _ _ _ Hi). cbn [mbind option_bind].
    erewrite cycleStatus_insert by by apply list_lookup_insert_eq.
    cbn [mbind option_bind m_title m_weeks m_status].
    erewrite cycleStatus_insert by (apply list_lookup_insert_eq; by rewrite length_insert).
    cbn [m_title m_weeks m_status]. rewrite !list_insert_insert_eq.
    rewrite nextStatus_thrice by done. f_equal.
    destruct m. by apply list_insert_id.
Qed.

Lemma cycleStatus_spec_witness :
  [Milestone (js "a") (js "w1") (js "complete"); Milestone (js "b") (js "w2") (js "in-progress")]
    !! 1%nat = Some (Milestone (js "b") (js "w2") (js "in-progress"))
  ∧ PlanEditor.cycleStatus 1
      [Milestone (js "a") (js "w1") (js "complete"); Milestone (js "b") (js "w2") (js "in-progress")]
    = Some (<[1%nat := Milestone (js "b") (js "w2") (PlanEditor.nextStatus (js "in-progress"))]>
              [Milestone (js "a") (js "w1") (js "complete");
               Milestone (js "b") (js "w2") (js "in-progress")]).
Proof.
  split; [done |].
  by apply (cycleStatus_spec 1
              [Milestone (js "a") (js "w1") (js "complete");
               Milestone (js "b") (js "w2") (js "in-progress")]
              (Milestone (js "b") (js "w2") (js "in-progress"))).
Defined.

(** ** The frontmatter update tool, without dollar signs *)

Lemma lazyUntil_first pat a' : ∀ s r',
  s = a' ++ pat ++ r' →
  ∃ a r, lazyUntil pat s = Some (a, r) ∧ s = a ++ pat ++ r ∧ (length a ≤ length a')%nat.
Proof.
  induction a' as [|c a' IH]; intros s r' ->.
  - exists [], r'. rewrite lazyUntil_unfold. cbn [app]. rewrite startsWith_app.
    rewrite drop_app_length. done.
  - rewrite lazyUntil_unfold.
    destruct (startsWith pat ((c :: a') ++ pat ++ r')) eqn:Hs.
    + apply startsWith_prefix in Hs as [r Hr]. exists [], r. rewrite Hr at 1.
      rewrite drop_app_length. split_and!; [done | done | cbn; lia].
    + cbn [app]. destruct (IH (a' ++ pat ++ r') r' eq_refl) as (a & r & -> & E & Hlen).
      exists (c :: a), r. cbn [fmap option_fmap option_map]. split_and!; [done | | cbn; lia].
      cbn [app]. by rewrite <- E.
Qed.

Lemma lazyUntil_Some pat s a r : lazyUntil pat s = Some (a, r) → s = a ++ pat ++ r.
Proof.
  revert a. induction s as [|c s IH]; intros a; rewrite lazyUntil_unfold.
  - destruct (startsWith pat []) eqn:Hs; [|done].
    intros [= <- <-]. apply startsWith_prefix in Hs as [r Hr].
    symmetry in Hr. by apply app_eq_nil in Hr as [-> ->].
  - destruct (startsWith pat (c :: s)) eqn:Hs.
    + intros [= <- <-]. apply startsWith_prefix in Hs as [r Hr]. rewrite Hr.
      by rewrite drop_app_length.
    + destruct (lazyUntil pat s) as [[a0 r0]|]; [|done]. intros [= <- <-].
      by rewrite (IH a0 eq_refl).
Qed.

Lemma expandReplacement_plain matched before after repl :
  36 ∉ repl → McpServer.expandReplacement matched before after repl = repl.
Proof.
  induction repl as [|c repl IH]; [done |]. rewrite not_elem_of_cons. intros [Hc Hrest].
  cbn [McpServer.expandReplacement]. rewrite (proj2 (N.eqb_neq c 36)) by done.
  by rewrite IH.
Qed.

Lemma findKeyLine_colon key s : ∀ bol x, McpServer.findKeyLine key bol s = Some x → 58 ∈ s.
Proof.
  induction s as [|c s IH]; intros bol x.
  - cbn [McpServer.findKeyLine].
    destruct (bol && startsWith (key ++ [58]) []) eqn:Hs; [|done].
    apply andb_true_iff in Hs as [_ [r Hr]%startsWith_prefix]. by destruct key.
  - cbn [McpServer.findKeyLine].
    destruct (bol && startsWith (key ++ [58]) (c :: s)) eqn:Hs.
    + intros _. apply andb_true_iff in Hs as [_ [r Hr]%startsWith_prefix].
      rewrite Hr, !elem_of_app, list_elem_of_singleton. by left; right.
    + destruct (McpServer.findKeyLine key _ s) as [y|] eqn:E; [|done].
      intros _. right. by eapply IH.
Qed.

Lemma updateField_no_colon block fields : ∀ updated,
  (58 ∉ block) → foldl McpServer.updateField (block, updated) fields = (block, updated).
Proof.
  intros updated Hb. induction fields as [|[key value] fields IH]; [done |].
  cbn [foldl McpServer.updateField].
  destruct (McpServer.findKeyLine key true block) as [x|] eqn:E; [|done].
  by apply findKeyLine_colon in E.
Qed.

Lemma overlap_units (p : list N) n : ∀ block X Y,
  (length block ≤ n)%nat → p ≠ [] → block ++ Y = p ++ block ++ X → ∀ c, c ∈ block → c ∈ p.
Proof.
  induction n as [|n IH]; intros block X Y Hlen Hp E c Hc.
  - destruct block; [by apply elem_of_nil in Hc | cbn in Hlen; lia].
  - apply app_eq_inv in E as [(k & Hb & Hk) | (k & Hpk & _)].
    + rewrite Hb in Hc. apply elem_of_app in Hc as [Hc | Hc]; [done |].
      apply (IH k X Y); [| done | | done].
      * rewrite Hb, length_app in Hlen. destruct p; [done |]. cbn in Hlen. lia.
      * rewrite <- Hk, Hb. by rewrite <- app_assoc.
    + rewrite Hpk, elem_of_app. by left.
Qed.

Lemma matchFrontmatter_Some raw block rest :
  Decoder.matchFrontmatter raw = Some (block, rest) →
  raw = js "---\n" ++ block ++ js "\n---" ++ rest.
Proof.
  unfold Decoder.matchFrontmatter.
  destruct (startsWith (js "---\n") raw) eqn:Hs; [|done].
  apply startsWith_prefix in Hs as [r ->].
  rewrite drop_app_length' by by vm_compute.
  by intros ->%lazyUntil_Some.
Qed.

Lemma replaceString_block block fmBlock rest :
  (36 ∉ fmBlock) → (58 ∉ block → fmBlock = block) →
  McpServer.replaceString block fmBlock (js "---\n" ++ block ++ js "\n---" ++ rest)
  = js "---\n" ++ fmBlock ++ js "\n---" ++ rest.
Proof.
  intros Hdollar Hsame. unfold McpServer.replaceString.
  destruct (lazyUntil_first block (js "---\n") _ (js "\n---" ++ rest) eq_refl)
    as (a & r & -> & E & Hlen).
  rewrite expandReplacement_plain by done.
  apply app_eq_inv in E as [(k & Ha & Hk) | (k & Ha & Hk)].
  - destruct k as [|c k].
    + rewrite app_nil_r in Ha. cbn [app] in Hk. rewrite <- Ha.
      apply app_inv_head in Hk. by rewrite Hk.
    + rewrite Hsame.
      * rewrite Ha, <- app_assoc, <- Hk. done.
      * intros Hcolon. apply (overlap_units (c :: k) _ _ _ _ (le_n _) ltac:(done) Hk) in Hcolon.
        assert (58 ∉ js "---\n") as Hno by (apply (bool_decide_unpack _); by vm_compute).
        apply Hno. rewrite Ha, elem_of_app. by right.
  - destruct k as [|c k].
    + rewrite app_nil_r in Ha. cbn [app] in Hk. rewrite Ha.
      apply app_inv_head in Hk. by rewrite <- Hk.
    + exfalso. rewrite Ha, length_app in Hlen. cbn in Hlen. lia.
Qed.

(** X17: when the header block, after the fields have been applied to
    it, holds no dollar sign, [update_frontmatter] writes the file with the
    block replaced by the updated block and nothing else changed: the two
    delimiters and all the text after the header stay as they were, also
    when the text of the block occurs elsewhere in the file. *)
Theorem update_frontmatter_frame raw filename fields block rest :
  McpUtils.isSafeFilename filename = true →
  Decoder.matchFrontmatter raw = Some (block, rest) →
  forallb (λ f, McpServer.literalKey f.1) fields = true →
  (36 ∉ (foldl McpServer.updateField (block, []) fields).1) →
  McpServer.update_frontmatter (Some raw) filename fields
  = McpServer.Updated
      (js "---\n" ++ (foldl McpServer.updateField (block, []) fields).1 ++ js "\n---" ++ rest)
      (foldl McpServer.updateField (block, []) fields).2.
Proof.
  intros Hsafe Hmatch Hkeys Hdollar. unfold McpServer.update_frontmatter.
  rewrite Hsafe, Hmatch, Hkeys. cbn [negb].
  pose proof (updateField_no_colon block fields []) as Hsame.
  destruct (foldl McpServer.updateField (block, []) fields) as [fmBlock updated].
  cbn [fst snd] in *. f_equal.
  rewrite (matchFrontmatter_Some _ _ _ Hmatch). apply replaceString_block; [done |].
  intros Hno. specialize (Hsame Hno). by injection Hsame as <- _.
Qed.

Lemma update_frontmatter_frame_witness :
  McpUtils.isSafeFilename (js "plan.mdx") = true
  ∧ Decoder.matchFrontmatter (js "---\ntitle: \qA\q\ntags: []\n---\n\ntitle: \qA\q\ntags: []\n")
    = Some (js "title: \qA\q\ntags: []", js "\n\ntitle: \qA\q\ntags: []\n")
  ∧ McpServer.update_frontmatter
      (Some (js "---\ntitle: \qA\q\ntags: []\n---\n\ntitle: \qA\q\ntags: []\n")) (js "plan.mdx")
      [(js "title", JStr (js "B")); (js "missing", JBool true)]
    = McpServer.Updated
        (js "---\n"
         ++ (foldl McpServer.updateField (js "title: \qA\q\ntags: []", [])
               [(js "title", JStr (js "B")); (js "missing", JBool true)]).1
         ++ js "\n---" ++ js "\n\ntitle: \qA\q\ntags: []\n")
        (foldl McpServer.updateField (js "title: \qA\q\ntags: []", [])
           [(js "title", JStr (js "B")); (js "missing", JBool true)]).2.
Proof.
  split_and!; [by vm_compute | by vm_compute |].
  apply (update_frontmatter_frame
           (js "---\ntitle: \qA\q\ntags: []\n---\n\ntitle: \qA\q\ntags: []\n") (js "plan.mdx")
           [(js "title", JStr (js "B")); (js "missing", JBool true)]
           (js "title: \qA\q\ntags: []") (js "\n\ntitle: \qA\q\ntags: []\n"));
    [by vm_compute | by vm_compute | by vm_compute |].
  apply (bool_decide_unpack _). by vm_compute.
Defined.

(** ** Lists in a chat message *)

Lemma itemText_facts item :
  itemText item = true → item ≠ [] ∧ trim item = item ∧ (LF ∉ item).
Proof.
  unfold itemText. rewrite !andb_true_iff, negb_true_iff, bool_decide_eq_false.
  rewrite !bool_decide_eq_true. tauto.
Qed.

Lemma trim_bulletLine item : itemText item = true → trim (bulletLine item) = bulletLine item.
Proof.
  intros (Hne & Htrim & _)%itemText_facts. apply trim_fixed.
  - by intros c r [= <- _].
  - intros r c. unfold bulletLine. destruct item as [|x item] using rev_ind; [done |].
    rewrite app_assoc. intros [_ <-]%app_inj_tail.
    by apply (trim_trimmed_last _ Htrim item x).
Qed.

Lemma step_bulletLine st item :
  itemText item = true → ChatLog.olItems st = [] →
  ChatLog.step st (bulletLine item)
  = ChatLog.mkState (ChatLog.elements st) (ChatLog.listItems st ++ [item]) [].
Proof.
  intros Hitem Hol. unfold ChatLog.step. rewrite trim_bulletLine by done.
  rewrite bool_decide_eq_false_2 by done.
  change (isBullet (bulletLine item)) with true. cbn match.
  unfold ChatLog.flushOl. rewrite Hol. cbn. by rewrite Hol.
Qed.

Lemma foldl_bulletLines items : ∀ st,
  forallb itemText items = true → ChatLog.olItems st = [] →
  foldl ChatLog.step st (map bulletLine items)
  = ChatLog.mkState (ChatLog.elements st) (ChatLog.listItems st ++ items) [].
Proof.
  induction items as [|item items IH]; intros st Hitems Hol.
  - rewrite app_nil_r. destruct st. cbn in *. by rewrite Hol.
  - cbn [forallb] in Hitems. apply andb_true_iff in Hitems as [Hitem Hitems].
    cbn [map foldl]. rewrite step_bulletLine by done. rewrite IH by done.
    cbn. by rewrite <- app_assoc.
Qed.

(** X18: in a chat message, consecutive bullet lines make one list: the
    text made of the lines [- item], one per item, for items that are not
    empty, trimmed and on one line, is rendered as a single unordered list
    with one entry per item, in order, each holding the inline rendering of
    the item. *)
Theorem renderTextBlock_bullets items :
  items ≠ [] → forallb itemText items = true →
  ChatLog.renderTextBlock (join [LF] (map bulletLine items))
  = [Ul (map (λ item, LiText (ChatLog.renderInlineMarkdown item)) items)].
Proof.
  intros Hne Hitems. unfold ChatLog.renderTextBlock.
  rewrite splitLines_join.
  - rewrite foldl_bulletLines by done. cbn. by destruct items.
  - by destruct items.
  - apply Forall_forall. intros l (item & -> & Hin)%list_elem_of_fmap.
    rewrite forallb_forall in Hitems. apply list_elem_of_In in Hin.
    destruct (itemText_facts item (Hitems item Hin)) as (_ & _ & Hlf).
    unfold bulletLine. rewrite not_elem_of_app. split; [|done].
    apply (bool_decide_unpack _). by vm_compute.
Qed.

Lemma renderTextBlock_bullets_witness :
  [js "one"; js "**two** x"] ≠ [] ∧ forallb itemText [js "one"; js "**two** x"] = true
  ∧ ChatLog.renderTextBlock (join [LF] (map bulletLine [js "one"; js "**two** x"]))
    = [Ul (map (λ item, LiText (ChatLog.renderInlineMarkdown item)) [js "one"; js "**two** x"])].
Proof.
  split_and!; [done | by vm_compute |].
  apply (renderTextBlock_bullets [js "one"; js "**two** x"]); [done | by vm_compute].
Defined.

(** ** The blocks of a chat message *)








(** ** The names the write endpoint accepts *)

Lemma nameUnit_no_separator c : McpUtils.isNameUnit c = true → c ≠ 47 ∧ c ≠ 92.
Proof. intros H. split; intros ->; by vm_compute in H. Qed.

Lemma matchSafePattern_no_separator s :
  McpUtils.matchSafePattern s = true →
  (47 ∉ s) ∧ (92 ∉ s) ∧ ∃ stem, stem ≠ [] ∧ s = stem ++ js ".mdx".
Proof.
  intros (stem & Hne & Hall & ->)%matchSafePattern_spec.
  assert (∀ c, c ∈ stem ++ js ".mdx" → c ≠ 47 ∧ c ≠ 92) as Hunits.
  { intros c [Hc | Hc]%elem_of_app.
    - rewrite Forall_forall in Hall. by apply nameUnit_no_separator, Hall.
    - apply nameUnit_no_separator. revert c Hc. apply Forall_forall.
      apply (bool_decide_unpack _). by vm_compute. }
  split_and!.
  - intros H. by destruct (Hunits _ H).
  - intros H. by destruct (Hunits _ H).
  - by exists stem.
Qed.

(** X20: a file name for which the write endpoint does not answer 400
    holds no slash and no backslash and is a stem that is not empty followed
    by [.mdx]; the endpoint makes no test for two dots in a row, which
    [isSafeFilename] does. *)
Theorem POST_accepted_names fileExists filename frontmatter mdxBody :
  UpdatePlan.POST fileExists filename frontmatter mdxBody ≠ UpdatePlan.BadRequest →
  (47 ∉ filename) ∧ (92 ∉ filename) ∧ ∃ stem, stem ≠ [] ∧ filename = stem ++ js ".mdx".
Proof.
  unfold UpdatePlan.POST. destruct (McpUtils.matchSafePattern filename) eqn:E; [|done].
  intros _. by apply matchSafePattern_no_separator.
Qed.

Lemma POST_accepted_names_witness :
  UpdatePlan.POST false (js "a..b.mdx") [] [] ≠ UpdatePlan.BadRequest
  ∧ (47 ∉ js "a..b.mdx") ∧ (92 ∉ js "a..b.mdx")
    ∧ ∃ stem, stem ≠ [] ∧ js "a..b.mdx" = stem ++ js ".mdx".
Proof.
  assert (H : UpdatePlan.POST false (js "a..b.mdx") [] [] ≠ UpdatePlan.BadRequest)
    by by vm_compute.
  split; [exact H |].
  exact (POST_accepted_names false (js "a..b.mdx") [] [] H).
Defined.

(** ** The escaping of strings *)

Lemma escapeUnits_inj s1 : ∀ s2, escapeUnits s1 = escapeUnits s2 → s1 = s2.
Proof.
  unfold escapeUnits.
  induction s1 as [|c1 r1 IH]; intros [|c2 r2]; cbn [flat_map].
  - done.
  - by destruct ((c2 =? BACKSLASH) || (c2 =? DQUOTE)).
  - by destruct ((c1 =? BACKSLASH) || (c1 =? DQUOTE)).
  - destruct ((c1 =? BACKSLASH) || (c1 =? DQUOTE)) eqn:H1,
      ((c2 =? BACKSLASH) || (c2 =? DQUOTE)) eqn:H2; cbn [app].
    + intros [= -> E]. by rewrite (IH _ E).
    + intros [= <- _]. by vm_compute in H2.
    + intros [= -> _]. by vm_compute in H1.
    + intros [= -> E]. by rewrite (IH _ E).
Qed.

(** X21: the encoding of a string by [serializeYamlValue] loses nothing:
    two strings with the same encoding are the same string. *)
Theorem serializeYamlValue_inj s1 s2 :
  UpdatePlan.serializeYamlValue (JStr s1) = UpdatePlan.serializeYamlValue (JStr s2) → s1 = s2.
Proof.
  cbn [UpdatePlan.serializeYamlValue]. rewrite !escapeString_units.
  intros [= E]. apply app_inj_tail in E as [E _]. by apply escapeUnits_inj.
Qed.

Lemma serializeYamlValue_inj_witness :
  UpdatePlan.serializeYamlValue (JStr (js "a\qb\\"))
  = UpdatePlan.serializeYamlValue (JStr (js "a\qb\\"))
  ∧ js "a\qb\\" = js "a\qb\\".
Proof.
  split; [done |]. by apply (serializeYamlValue_inj (js "a\qb\\") (js "a\qb\\")).
Defined.

(** ** The header of a new chat, read back *)

Lemma readFrontmatter_lines lines rest :
  lines ≠ [] → Forall (λ l, (LF ∉ l) ∧ startsWith (js "---") l = false) lines →
  Decoder.readFrontmatter (js "---\n" ++ join [LF] lines ++ js "\n---" ++ rest)
  = foldl Decoder.readLine ∅ lines.
Proof.
  intros Hne Hlines. unfold Decoder.readFrontmatter, Decoder.matchFrontmatter.
  rewrite startsWith_app, drop_app_length' by by vm_compute.
  rewrite lazyUntil_fresh.
  - rewrite splitLines_join; [done | done |].
    eapply Forall_impl; [exact Hlines |]. by intros l [? _].
  - intros a1 a2 E Ha2. eapply delimiter_fresh; [|exact E | exact Ha2].
    by apply join_no_delimiter.
Qed.

Lemma readLine_key key rest fm :
  plainKey key = true →
  Decoder.readLine fm (key ++ 58 :: rest) = <[key := Decoder.stripQuotes (trim rest)]> fm.
Proof.
  intros (Hne & Htrim & Hcolon & _ & _ & Hproto)%plainKey_facts.
  unfold Decoder.readLine. rewrite indexOfUnit_fresh by done.
  destruct key as [|c k'] eqn:Ek; [done |]. rewrite <- Ek in *.
  assert (Hc : isSpace c = false) by (apply (trim_trimmed_ends key Htrim c k'); by subst).
  assert (startsWith (js " ") (key ++ 58 :: rest) = false) as ->.
  { rewrite Ek. js_eval. cbn [app startsWith]. rewrite andb_true_r.
    destruct (N.eqb_spec 32 c) as [Heq|]; [|reflexivity].
    rewrite <- Heq in Hc. vm_compute in Hc. discriminate. }
  rewrite take_app_length.
  rewrite (cons_middle 58), app_assoc, drop_app_length' by (rewrite length_app; cbn; lia).
  rewrite Htrim. rewrite bool_decide_eq_false_2 by done.
  unfold Decoder.assign. by rewrite bool_decide_eq_false_2.
Qed.

Lemma readLine_indented fm l : startsWith (js " ") l = true → Decoder.readLine fm l = fm.
Proof. intros H. unfold Decoder.readLine. rewrite H. by destruct (indexOfUnit 58 l). Qed.

Lemma foldl_readLine_indented lines fm :
  Forall (λ l, startsWith (js " ") l = true) lines → foldl Decoder.readLine fm lines = fm.
Proof.
  induction 1 as [|l lines Hl _ IH]; [done |]. cbn [foldl]. by rewrite readLine_indented.
Qed.

Lemma join_actionItems items :
  items ≠ [] →
  join [LF] (map McpChat.actionItemText items) = join [LF] (concat (map actionItemLines items)).
Proof.
  induction items as [|a [|b items] IH]; [done | |]; intros _.
  - cbn. unfold McpChat.actionItemText. js_eval. by rewrite <- !app_assoc.
  - cbn [map] in *. rewrite join_cons, IH by done. cbn [concat].
    rewrite (join_app [LF] (actionItemLines a)); [| done | done].
    unfold McpChat.actionItemText, actionItemLines. js_eval. cbn [join]. by rewrite <- !app_assoc.
Qed.

Lemma chatContent_lines date title tags tldr items messages :
  McpChat.chatContent date title tags tldr items messages
  = js "---\n" ++ join [LF] (chatHeaderLines date title tags tldr items)
    ++ js "\n---" ++ js "\n\n" ++ McpChat.chatBody messages ++ js "\n".
Proof.
  unfold McpChat.chatContent, chatHeaderLines.
  rewrite join_app; [| done | destruct items; by cbn].
  assert (McpChat.aiStr items
          = join [LF] match items with
                      | [] => [js "  - task: \q\q"; js "    done: false"]
                      | _ :: _ => concat (map actionItemLines items)
                      end) as ->.
  { destruct items as [|a items]; [by vm_compute |].
    exact (join_actionItems (a :: items) ltac:(done)). }
  cbn [join]. unfold quoted. js_eval. cbn [app]. repeat (rewrite <- !app_assoc; cbn [app]). reflexivity.
Qed.

Lemma value_quoted s :
  forallb isDot s = true → Decoder.stripQuotes (trim (js " " ++ quoted s)) = s.
Proof.
  intros Hs. js_eval. cbn [app]. rewrite trim_cons_space by done.
  by rewrite trim_quoted, stripQuotes_quoted.
Qed.

Lemma value_bare s :
  s ≠ [] → (∀ c r, s = c :: r → isSpace c = false ∧ c ≠ DQUOTE) →
  (∀ r c, s = r ++ [c] → isSpace c = false) →
  Decoder.stripQuotes (trim (js " " ++ s)) = s.
Proof.
  intros Hne Hhead Hlast. js_eval. cbn [app]. rewrite trim_cons_space by done.
  rewrite trim_fixed; [| intros c r E; by destruct (Hhead c r E) | done].
  apply stripQuotes_unquoted. intros r E. by destruct (Hhead _ _ E).
Qed.

Lemma dateUnit_plain c : isDateUnit c = true → isSpace c = false ∧ c ≠ DQUOTE.
Proof.
  unfold isDateUnit, isDigit. intros H.
  assert (c = 45 ∨ c = 48 ∨ c = 49 ∨ c = 50 ∨ c = 51 ∨ c = 52 ∨ c = 53 ∨ c = 54
          ∨ c = 55 ∨ c = 56 ∨ c = 57) as Hc.
  { apply orb_true_iff in H as [[H1%N.leb_le H2%N.leb_le]%andb_true_iff | H%N.eqb_eq]; lia. }
  repeat (destruct Hc as [-> | Hc]; [by vm_compute |]). subst c. by vm_compute.
Qed.

Lemma value_date date :
  forallb isDateUnit date = true → Decoder.stripQuotes (trim (js " " ++ date)) = date.
Proof.
  intros Hd. destruct date as [|c d]; [done |]. rewrite forallb_forall in Hd.
  apply value_bare; [done | |].
  - intros c' r [= <- <-]. apply dateUnit_plain, Hd. by left.
  - intros r c' E. apply dateUnit_plain, Hd, list_elem_of_In.
    rewrite E, elem_of_app, list_elem_of_singleton. by right.
Qed.

Lemma join_noLF sep parts :
  (LF ∉ sep) → Forall (λ p, LF ∉ p) parts → LF ∉ join sep parts.
Proof.
  intros Hsep. induction 1 as [|p [|q parts] Hp Hrest IH]; [apply not_elem_of_nil | done |].
  rewrite join_cons, !not_elem_of_app. by split_and!.
Qed.

Lemma tagStr_noLF tags : Forall (λ t, LF ∉ t) tags → LF ∉ McpChat.tagStr tags.
Proof.
  intros Htags. unfold McpChat.tagStr.
  assert ((LF ∉ js "[") ∧ (LF ∉ js "]") ∧ (LF ∉ js ", ") ∧ (LF ∉ js "[]")) as (H1 & H2 & H3 & H4)
    by (split_and!; apply (bool_decide_unpack _); by vm_compute).
  destruct tags as [|t tags]; [done |].
  rewrite !not_elem_of_app. split_and!; [done | | done].
  apply join_noLF; [done |]. apply Forall_fmap. eapply Forall_impl; [exact Htags |].
  intros x Hx. unfold compose, quoted.
  rewrite !not_elem_of_app, !list_elem_of_singleton. by split_and!.
Qed.

Lemma tagStr_value tags :
  Decoder.stripQuotes (trim (js " " ++ McpChat.tagStr tags)) = McpChat.tagStr tags.
Proof.
  apply value_bare.
  - unfold McpChat.tagStr. by destruct tags.
  - unfold McpChat.tagStr. intros c r. destruct tags; by intros [= <- _].
  - unfold McpChat.tagStr. intros r c. destruct tags.
    + by intros [_ <-]%(app_inj_tail [91]).
    + rewrite app_assoc. by intros [_ <-]%app_inj_tail.
Qed.

Lemma chatHeaderLines_lines date title tags tldr items :
  forallb isDot title = true → forallb isDateUnit date = true →
  Forall (λ t, LF ∉ t) tags → forallb isDot tldr = true →
  Forall (λ a, LF ∉ a.1) items →
  Forall (λ l, (LF ∉ l) ∧ startsWith (js "---") l = false)
    (chatHeaderLines date title tags tldr items).
Proof.
  intros Ht Hd Htags Htl Hitems. unfold chatHeaderLines.
  assert (LF ∉ date) as Hdate.
  { intros Hin%list_elem_of_In. rewrite forallb_forall in Hd.
    by destruct (dateUnit_plain _ (Hd _ Hin)). }
  pose proof (forallb_isDot_noLF _ Ht). pose proof (forallb_isDot_noLF _ Htl).
  pose proof (tagStr_noLF _ Htags).
  assert (∀ s, bool_decide (LF ∉ js s) = true → LF ∉ js s) as Hlit
    by (intros s; apply bool_decide_eq_true).
  apply Forall_app. split.
  - unfold quoted. repeat (apply List.Forall_cons; [split; [| js_eval; reflexivity] |]);
      [.. | apply List.Forall_nil].
    all: rewrite ?not_elem_of_app, ?not_elem_of_cons, ?not_elem_of_app; split_and?; try done.
    all: try (apply Hlit; by vm_compute).
    all: try (apply (bool_decide_unpack _); by vm_compute).
  - destruct items as [|a items].
    + repeat (apply List.Forall_cons; [split; [apply Hlit; by vm_compute | js_eval; reflexivity] |]).
      apply List.Forall_nil.
    + apply Forall_concat, Forall_fmap. eapply Forall_impl; [exact Hitems |].
      intros [task b] Htask. cbn [fst] in Htask. unfold compose, actionItemLines. cbn [fst snd].
      repeat (apply List.Forall_cons; [split; [| js_eval; reflexivity] |]); [.. | apply List.Forall_nil].
      * rewrite !not_elem_of_app. split_and!; [| done |]; apply Hlit; by vm_compute.
      * rewrite !not_elem_of_app. split; [|destruct b]; apply Hlit; by vm_compute.
Qed.

(** X22: the header of a chat written by [create_chat] is read back by
    [readFrontmatter] as exactly five entries: the title and the summary as
    given (double quotes, colons and backslashes included), the date, the
    bracketed list of tags, and an empty value for [action_items]; this
    holds for a title and a summary without line terminator, a date made of
    digits and hyphens, and tags and tasks without line feed. *)
Theorem create_chat_header date title tags tldr items messages :
  forallb isDot title = true → forallb isDateUnit date = true →
  Forall (λ t, LF ∉ t) tags → forallb isDot tldr = true →
  Forall (λ a, LF ∉ a.1) items →
  Decoder.readFrontmatter (McpChat.chatContent date title tags tldr items messages)
  = <[js "action_items" := []]> (<[js "tldr" := tldr]> (<[js "tags" := McpChat.tagStr tags]>
      (<[js "date" := date]> (<[js "title" := title]> ∅)))).
Proof.
  intros Ht Hd Htags Htl Hitems.
  rewrite chatContent_lines, readFrontmatter_lines;
    [| unfold chatHeaderLines; cbn [app]; done | by apply chatHeaderLines_lines].
  unfold chatHeaderLines. rewrite foldl_app. cbn [foldl].
  rewrite (readLine_key (js "title")), (readLine_key (js "date")), (readLine_key (js "tags")),
    (readLine_key (js "tldr")), (readLine_key (js "action_items")) by by vm_compute.
  rewrite (value_quoted title), (value_quoted tldr), (value_date date), tagStr_value by done.
  change (Decoder.stripQuotes (trim [])) with (@nil N).
  apply foldl_readLine_indented.
  destruct items as [|a items].
  - by repeat constructor.
  - apply Forall_concat, Forall_fmap, Forall_forall. intros [task b] _.
    unfold actionItemLines. by repeat constructor.
Qed.

Lemma create_chat_header_witness :
  forallb isDot (js "Say \qhi\q: now") = true ∧ forallb isDateUnit (js "2026-02-25") = true
  ∧ Forall (λ t, LF ∉ t) [js "a b"; js "c"] ∧ forallb isDot (js "short") = true
  ∧ Forall (λ a : list N * bool, LF ∉ a.1) [(js "x", true)]
  ∧ Decoder.readFrontmatter
      (McpChat.chatContent (js "2026-02-25") (js "Say \qhi\q: now") [js "a b"; js "c"] (js "short")
         [(js "x", true)] [])
    = <[js "action_items" := []]> (<[js "tldr" := js "short"]>
        (<[js "tags" := McpChat.tagStr [js "a b"; js "c"]]>
          (<[js "date" := js "2026-02-25"]> (<[js "title" := js "Say \qhi\q: now"]> ∅)))).
Proof.
  assert (H1 : Forall (λ t, LF ∉ t) [js "a b"; js "c"])
    by (apply (bool_decide_unpack _); by vm_compute).
  assert (H2 : Forall (λ a : list N * bool, LF ∉ a.1) [(js "x", true)])
    by (apply (bool_decide_unpack _); by vm_compute).
  split_and!; [by vm_compute | by vm_compute | exact H1 | by vm_compute | exact H2 |].
  apply (create_chat_header (js "2026-02-25") (js "Say \qhi\q: now") [js "a b"; js "c"] (js "short")
           [(js "x", true)] []); [by vm_compute | by vm_compute | exact H1 | by vm_compute | exact H2].
Defined.

(** ** The date of the day *)

Lemma padStart_units n s :
  forallb isDateUnit s = true → forallb isDateUnit (McpDate.padStart n s) = true.
Proof.
  intros Hs. unfold McpDate.padStart. rewrite forallb_app, Hs, andb_true_r.
  induction (n - length s)%nat as [|k IH]; [done |]. cbn. by rewrite IH.
Qed.

Lemma today_units y m d : forallb isDateUnit (McpDate.today y m d) = true.
Proof.
  unfold McpDate.today. rewrite !forallb_app, !padStart_units by apply numberToString_units.
  by rewrite numberToString_units.
Qed.

Lemma padStart_two z :
  (0 ≤ z ≤ 99)%Z → length (McpDate.padStart 2 (numberToString z)) = 2%nat.
Proof.
  intros Hz.
  assert (∀ k : nat, (k ≤ 99)%nat →
            length (McpDate.padStart 2 (numberToString (Z.of_nat k))) = 2%nat) as Hk.
  { intros k Hk. do 100 (destruct k as [|k]; [by vm_compute |]). lia. }
  rewrite <- (Z2Nat.id z) by lia. apply Hk. lia.
Qed.

(** X23: whatever the clock answers, the text [today()] returns is made
    of digits and hyphens, so the file name [create_chat] builds from it and
    the slug of any title passes [isSafeFilename]; for a month from 0 to 11
    and a day from 1 to 31 the month and the day are written with two digits
    each: the text is the year followed by six characters. *)
Theorem today_shape y m d :
  forallb isDateUnit (McpDate.today y m d) = true
  ∧ (∀ lower title,
       McpUtils.isSafeFilename (Slug.chatFilename lower (McpDate.today y m d) title) = true)
  ∧ ((0 ≤ m ≤ 11)%Z → (1 ≤ d ≤ 31)%Z →
     length (McpDate.today y m d) = (length (numberToString y) + 6)%nat).
Proof.
  split_and!.
  - apply today_units.
  - intros lower title. unfold Slug.chatFilename. rewrite !app_assoc. apply safe_stem.
    + js_eval. by destruct (McpDate.today y m d).
    + rewrite !forallb_app, !andb_true_iff. split_and!.
      * eapply forallb_impl; [apply dateUnit_nameUnit | apply today_units].
      * by vm_compute.
      * eapply forallb_impl; [apply slugUnit_nameUnit | apply slugify_units].
  - intros Hm Hd. unfold McpDate.today. rewrite !length_app, !padStart_two by lia.
    js_eval. cbn [length]. lia.
Qed.

Lemma today_shape_witness :
  (0 ≤ 1 ≤ 11)%Z ∧ (1 ≤ 5 ≤ 31)%Z
  ∧ length (McpDate.today 2026 1 5) = (length (numberToString 2026) + 6)%nat
  ∧ McpDate.today 2026 1 5 = js "2026-02-05".
Proof.
  split; [lia |]. split; [lia |]. split; [| by vm_compute].
  apply (today_shape 2026 1 5); lia.
Defined.

(** ** Lists are never empty *)

Ltac filled_flush :=
  match goal with
  | |- context [match ?buf with [] => _ | _ :: _ => _ end] =>
      destruct buf; cbn; rewrite ?forallb_app; cbn; rewrite ?andb_true_r; try done
  end.

Lemma chat_flushUl_filled st :
  forallb filled (ChatLog.elements st) = true →
  forallb filled (ChatLog.elements (ChatLog.flushUl st)) = true.
Proof. intros H. unfold ChatLog.flushUl. filled_flush. Qed.

Lemma chat_flushOl_filled st :
  forallb filled (ChatLog.elements st) = true →
  forallb filled (ChatLog.elements (ChatLog.flushOl st)) = true.
Proof. intros H. unfold ChatLog.flushOl. filled_flush. Qed.

Lemma chat_push_filled e st :
  filled e = true → forallb filled (ChatLog.elements st) = true →
  forallb filled (ChatLog.elements (ChatLog.push e st)) = true.
Proof. intros He H. cbn. rewrite forallb_app, H. cbn. by rewrite He. Qed.

Lemma chat_step_filled st line :
  forallb filled (ChatLog.elements st) = true →
  forallb filled (ChatLog.elements (ChatLog.step st line)) = true.
Proof.
  intros H. unfold ChatLog.step.
  repeat case_match; cbn [ChatLog.elements];
    repeat first [ apply chat_push_filled; [done |]
                 | apply chat_flushOl_filled | apply chat_flushUl_filled ]; done.
Qed.

Lemma chat_foldl_filled lines : ∀ st,
  forallb filled (ChatLog.elements st) = true →
  forallb filled (ChatLog.elements (foldl ChatLog.step st lines)) = true.
Proof.
  induction lines as [|l lines IH]; intros st H; [done |].
  cbn [foldl]. by apply IH, chat_step_filled.
Qed.

Lemma plan_flushUl_filled st :
  forallb filled (PlanContent.elements st) = true →
  forallb filled (PlanContent.elements (PlanContent.flushUl st)) = true.
Proof. intros H. unfold PlanContent.flushUl. filled_flush. Qed.

Lemma plan_flushOl_filled st :
  forallb filled (PlanContent.elements st) = true →
  forallb filled (PlanContent.elements (PlanContent.flushOl st)) = true.
Proof. intros H. unfold PlanContent.flushOl. filled_flush. Qed.

Lemma plan_flushChecklist_filled st :
  forallb filled (PlanContent.elements st) = true →
  forallb filled (PlanContent.elements (PlanContent.flushChecklist st)) = true.
Proof. intros H. unfold PlanContent.flushChecklist. filled_flush. Qed.

Lemma plan_flushAll_filled st :
  forallb filled (PlanContent.elements st) = true →
  forallb filled (PlanContent.elements (PlanContent.flushAll st)) = true.
Proof.
  intros H. unfold PlanContent.flushAll.
  by apply plan_flushChecklist_filled, plan_flushOl_filled, plan_flushUl_filled.
Qed.

Lemma plan_push_filled e st :
  filled e = true → forallb filled (PlanContent.elements st) = true →
  forallb filled (PlanContent.elements (PlanContent.push e st)) = true.
Proof. intros He H. cbn. rewrite forallb_app, H. cbn. by rewrite He. Qed.

Lemma plan_rstep_filled st line :
  forallb filled (PlanContent.elements st) = true →
  forallb filled (PlanContent.elements (PlanContent.rstep st line)) = true.
Proof.
  intros H. unfold PlanContent.rstep.
  repeat case_match; cbn [PlanContent.elements];
    repeat first [ apply plan_push_filled; [done |]
                 | apply plan_flushAll_filled | apply plan_flushChecklist_filled
                 | apply plan_flushOl_filled | apply plan_flushUl_filled ]; done.
Qed.

Lemma plan_foldl_filled lines : ∀ st,
  forallb filled (PlanContent.elements st) = true →
  forallb filled (PlanContent.elements (foldl PlanContent.rstep st lines)) = true.
Proof.
  induction lines as [|l lines IH]; intros st H; [done |].
  cbn [foldl]. by apply IH, plan_rstep_filled.
Qed.

Lemma edit_flushUl_filled st :
  forallb filled (EditablePlan.elements st) = true →
  forallb filled (EditablePlan.elements (EditablePlan.flushUl st)) = true.
Proof. intros H. unfold EditablePlan.flushUl. filled_flush. Qed.

Lemma edit_flushOl_filled st :
  forallb filled (EditablePlan.elements st) = true →
  forallb filled (EditablePlan.elements (EditablePlan.flushOl st)) = true.
Proof. intros H. unfold EditablePlan.flushOl. filled_flush. Qed.

Lemma edit_push_filled e st :
  filled e = true → forallb filled (EditablePlan.elements st) = true →
  forallb filled (EditablePlan.elements (EditablePlan.push e st)) = true.
Proof. intros He H. cbn. rewrite forallb_app, H. cbn. by rewrite He. Qed.

Lemma edit_cstep_filled st line :
  forallb filled (EditablePlan.elements st) = true →
  forallb filled (EditablePlan.elements (EditablePlan.cstep st line)) = true.
Proof.
  intros H. unfold EditablePlan.cstep.
  repeat case_match; cbn [EditablePlan.elements];
    repeat first [ apply edit_push_filled; [done |]
                 | apply edit_flushOl_filled | apply edit_flushUl_filled ]; done.
Qed.

Lemma edit_foldl_filled lines : ∀ st,
  forallb filled (EditablePlan.elements st) = true →
  forallb filled (EditablePlan.elements (foldl EditablePlan.cstep st lines)) = true.
Proof.
  induction lines as [|l lines IH]; intros st H; [done |].
  cbn [foldl]. by apply IH, edit_cstep_filled.
Qed.

(** X24: none of the three block renderers shows a list without items:
    every unordered list, ordered list and checklist in the result of
    [renderTextBlock], [renderBlock] and [ContentRenderer] has at least one
    entry, whatever the text. *)
Theorem renderers_no_empty_list text :
  forallb filled (ChatLog.renderTextBlock text) = true
  ∧ forallb filled (default [] (PlanContent.renderBlock text)) = true
  ∧ forallb filled (EditablePlan.ContentRenderer text) = true.
Proof.
  split_and!.
  - by apply chat_flushOl_filled, chat_flushUl_filled, chat_foldl_filled.
  - unfold PlanContent.renderBlock. case_bool_decide; [done |]. cbn [default].
    by apply plan_flushAll_filled, plan_foldl_filled.
  - by apply edit_flushOl_filled, edit_flushUl_filled, edit_foldl_filled.
Qed.

(** ** A message without a fence *)

Lemma matchFenceAt_no_fence s :
  startsWith (js "```") s = false → ChatLog.matchFenceAt s = None.
Proof. intros H. unfold ChatLog.matchFenceAt, expect. by rewrite H. Qed.

Lemma execFence_no_fence s :
  includes (js "```") s = false → ChatLog.execFence s = None.
Proof.
  induction s as [|c s IH]; cbn [includes ChatLog.execFence].
  - intros H. rewrite orb_false_r in H. by rewrite matchFenceAt_no_fence.
  - intros [H1 H2]%orb_false_iff. by rewrite matchFenceAt_no_fence, IH.
Qed.

(** X25: a message in which three backticks in a row do not occur has no
    code block: [parseBlocks] returns the whole text, trimmed, as one text
    block, and nothing when the text is only white space. *)
Theorem parseBlocks_no_fence content :
  includes (js "```") content = false →
  ChatLog.parseBlocks content
  = if bool_decide (trim content = []) then [] else [ChatLog.TextBlock (trim content)].
Proof.
  intros H. unfold ChatLog.parseBlocks. cbn [ChatLog.parseBlocksLoop].
  by rewrite execFence_no_fence.
Qed.

Lemma parseBlocks_no_fence_witness :
  includes (js "```") (js " use ``code`` here\n") = false
  ∧ ChatLog.parseBlocks (js " use ``code`` here\n")
    = if bool_decide (trim (js " use ``code`` here\n") = []) then []
      else [ChatLog.TextBlock (trim (js " use ``code`` here\n"))].
Proof.
  split; [by vm_compute |].
  apply (parseBlocks_no_fence (js " use ``code`` here\n")). by vm_compute.
Defined.
